(** * LLMStorageService: the storage gateway, embedded and verified

    A shallow embedding of the storage side of the repository
    ([storage/src/modules/storage.py], the three adapters under
    [storage/src/modules/interfaces/], [storage/src/modules/ocr.py] and the
    upload endpoint of [storage/src/main.py]), followed by the properties
    the specification states about it.

    Asynchronous methods are functions in a state-and-exception monad over
    the process state [State]; a call runs from its first statement to its
    [return] or [raise] without another task in between.  The last part of
    the file drops that assumption for the lazy initialisation and gives
    the tasks a small-step semantics with an explicit schedule. *)

From Stdlib Require Import String Ascii List ZArith Bool Lia DecimalString.
From Stdlib Require Import OrdersEx Sorted.
Import ListNotations.
Local Open Scope string_scope.
Set Warnings "-register-all".

(** ** Python dictionaries

    A [dict] keeps insertion order: assigning to a present key keeps its
    position, assigning to a new key appends it, and [.items()] lists the
    bindings in that order. *)

Section Dict.
Context {V : Type}.

Definition dict := list (string * V).

Fixpoint dict_get (d : dict) (k : string) : option V :=
  match d with
  | [] => None
  | (k', v) :: r => if String.eqb k' k then Some v else dict_get r k
  end.

Definition dict_mem (d : dict) (k : string) : bool :=
  match dict_get d k with Some _ => true | None => false end.

Fixpoint dict_set (d : dict) (k : string) (v : V) : dict :=
  match d with
  | [] => [(k, v)]
  | (k', v') :: r =>
      if String.eqb k' k then (k', v) :: r else (k', v') :: dict_set r k v
  end.

Fixpoint dict_del (d : dict) (k : string) : dict :=
  match d with
  | [] => []
  | (k', v') :: r =>
      if String.eqb k' k then dict_del r k else (k', v') :: dict_del r k
  end.

Definition dict_items (d : dict) : list (string * V) := d.
End Dict.

Arguments dict : clear implicits.

(** ** Data model ([modules/storage.py]) *)

Record RawFileData := mkRaw {
  content : string;
  raw_name : string;
  raw_mime_type : string
}.

Record FileData := mkFileData {
  file_reference : string;
  name : string;
  mime_type : string;
  size : Z;
  modified_time : string;
  raw_ocr : option string;
  summary : option string
}.

Record FileDataResponse := mkResponse {
  checksum : string;
  is_processing : bool;
  file_data : FileData
}.

(** [Literal["none", "ocr", "summary"]] *)
Inductive Process := P_none | P_ocr | P_summary.

Definition Process_eqb (a b : Process) : bool :=
  match a, b with
  | P_none, P_none | P_ocr, P_ocr | P_summary, P_summary => true
  | _, _ => false
  end.

Record SearchQuery := mkQuery {
  max_results : Z;
  keywords : list string;
  last_modified_since : option string;
  last_modified_before : option string;
  around_date : option string
}.

(** The three entries of [INTERFACES] in [main.py]. *)
Inductive Adapter := S3 | GDrive | Local.

(** Values produced by [json.loads]. *)
Inductive Json :=
| JNull
| JBool (b : bool)
| JNum (z : Z)
| JStr (s : string)
| JArr (l : list Json)
| JObj (kv : dict Json).

(** Exceptions that the modelled code raises or lets through. *)
Inductive exn :=
| ValueError (msg : string)
| KeyError (key : string)
| FileNotFoundError (msg : string)
| JSONDecodeError
| AttributeError
| TypeError
| ValidationError
| ClientError (code : string)
| ServiceError (msg : string)
| RequireLogin (msg : string)
| HTTPException (status_code : Z) (detail : string).

(** Updates handed to [update_file_data]: a key of [FileData] with a value
    of the field's type, or a key that is no field of the model. *)
Inductive Update :=
| U_file_reference (v : string)
| U_name (v : string)
| U_mime_type (v : string)
| U_size (v : Z)
| U_modified_time (v : string)
| U_raw_ocr (v : option string)
| U_summary (v : option string)
| U_other (key : string).

(** A background task started with [asyncio.create_task(self.ensure_ocr(...))]. *)
Record Task := mkTask {
  task_checksum : string;
  task_process : Process;
  task_raw : RawFileData
}.

(** What a call did to the outside world and to the cache, newest first. *)
Inductive Event :=
| EvUpload (ref body : string)
| EvDeleteObject (ref : string)
| EvCacheCommit (files : dict FileData)
| EvRemoteWrite (body : string)
| EvOcrCall (mime : string)
| EvSummaryCall.

(** ** Process state

    The adapter object ([self]) together with the storage medium behind it. *)
Record State := mkState {
  (* StorageInterface *)
  file_cache : dict FileData;
  processing_locks : dict bool;
  (* adapter *)
  initialized : bool;
  drive_service : bool;
  (* medium *)
  remote_meta : option string;
  objects : dict string;
  main_folder : bool;
  files_folder : bool;
  fault : option string;
  next_id : nat;
  (* event loop and log *)
  tasks : list Task;
  trace : list Event
}.

Definition with_cache (f : dict FileData) (st : State) : State :=
  mkState f (processing_locks st) (initialized st) (drive_service st)
          (remote_meta st) (objects st) (main_folder st) (files_folder st)
          (fault st) (next_id st) (tasks st) (EvCacheCommit f :: trace st).

Definition with_locks (l : dict bool) (st : State) : State :=
  mkState (file_cache st) l (initialized st) (drive_service st)
          (remote_meta st) (objects st) (main_folder st) (files_folder st)
          (fault st) (next_id st) (tasks st) (trace st).

Definition with_initialized (b : bool) (st : State) : State :=
  mkState (file_cache st) (processing_locks st) b (drive_service st)
          (remote_meta st) (objects st) (main_folder st) (files_folder st)
          (fault st) (next_id st) (tasks st) (trace st).

Definition with_drive_service (b : bool) (st : State) : State :=
  mkState (file_cache st) (processing_locks st) (initialized st) b
          (remote_meta st) (objects st) (main_folder st) (files_folder st)
          (fault st) (next_id st) (tasks st) (trace st).

Definition with_remote_meta (body : string) (st : State) : State :=
  mkState (file_cache st) (processing_locks st) (initialized st) (drive_service st)
          (Some body) (objects st) (main_folder st) (files_folder st)
          (fault st) (next_id st) (tasks st) (EvRemoteWrite body :: trace st).

Definition with_upload (ref body : string) (st : State) : State :=
  mkState (file_cache st) (processing_locks st) (initialized st) (drive_service st)
          (remote_meta st) (dict_set (objects st) ref body)
          (main_folder st) (files_folder st)
          (fault st) (next_id st) (tasks st) (EvUpload ref body :: trace st).

Definition with_delete_object (ref : string) (st : State) : State :=
  mkState (file_cache st) (processing_locks st) (initialized st) (drive_service st)
          (remote_meta st) (dict_del (objects st) ref)
          (main_folder st) (files_folder st)
          (fault st) (next_id st) (tasks st) (EvDeleteObject ref :: trace st).

Definition with_folders (m f : bool) (st : State) : State :=
  mkState (file_cache st) (processing_locks st) (initialized st) (drive_service st)
          (remote_meta st) (objects st) m f
          (fault st) (next_id st) (tasks st) (trace st).

Definition with_next_id (n : nat) (st : State) : State :=
  mkState (file_cache st) (processing_locks st) (initialized st) (drive_service st)
          (remote_meta st) (objects st) (main_folder st) (files_folder st)
          (fault st) n (tasks st) (trace st).

Definition with_task (t : Task) (st : State) : State :=
  mkState (file_cache st) (processing_locks st) (initialized st) (drive_service st)
          (remote_meta st) (objects st) (main_folder st) (files_folder st)
          (fault st) (next_id st) (tasks st ++ [t]) (trace st).

Definition with_event (e : Event) (st : State) : State :=
  mkState (file_cache st) (processing_locks st) (initialized st) (drive_service st)
          (remote_meta st) (objects st) (main_folder st) (files_folder st)
          (fault st) (next_id st) (tasks st) (e :: trace st).

(** ** The monad of asynchronous methods

    A call returns a value, raises, or waits for ever on a lock that nobody
    will release ([Blocked]); in each case the state it leaves is kept. *)
Inductive Outcome (A : Type) :=
| Ok (st : State) (a : A)
| Raise (st : State) (e : exn)
| Blocked (st : State).

Arguments Ok {A}.
Arguments Raise {A}.
Arguments Blocked {A}.

Definition M (A : Type) := State -> Outcome A.

Definition ret {A} (a : A) : M A := fun st => Ok st a.
Definition raise {A} (e : exn) : M A := fun st => Raise st e.
Definition bind {A B} (c : M A) (k : A -> M B) : M B :=
  fun st =>
    match c st with
    | Ok st' a => k a st'
    | Raise st' e => Raise st' e
    | Blocked st' => Blocked st'
    end.
Definition gets {A} (f : State -> A) : M A := fun st => Ok st (f st).
Definition modify (f : State -> State) : M unit := fun st => Ok (f st) tt.

(** [try: c  except <filter> as e: h e] *)
Definition try_except {A} (c : M A) (h : exn -> option (M A)) : M A :=
  fun st =>
    match c st with
    | Raise st' e => match h e with Some k => k st' | None => Raise st' e end
    | o => o
    end.

Notation "x <- c1 ;; c2" := (bind c1 (fun x => c2))
  (at level 61, c1 at next level, right associativity).
Notation "c1 ;;; c2" := (bind c1 (fun _ => c2))
  (at level 61, right associativity).

Definition final_state {A} (o : Outcome A) : State :=
  match o with Ok st _ | Raise st _ | Blocked st => st end.

(** ** What the code takes from outside

    Library functions and remote services the repository calls but does not
    define.  [json_loads] answers [None] where [json.loads] raises
    [JSONDecodeError]; [validate_FileData] answers [None] where pydantic
    rejects the fields of a [file_dict] handed to [FileData]; the three
    model calls answer [inl e] where the remote service raises.
    [oauth_credentials] is what [oauth_client.get_credentials] answers for
    the Drive scope: the credentials, or the exception it raises
    ([RequireLogin] when the process has none that can be used).
    [hasattr_FileData key] is [hasattr] of a [FileData] object at a name
    that is no field of the model, and [setattr_FileData key] what
    [setattr] raises at such a name, [None] where it sets the attribute. *)
Record Env := mkEnv {
  sha3_256 : string -> string;
  json_loads : string -> option Json;
  validate_FileData : dict Json -> option FileData;
  model_dump_json : option nat -> dict FileData -> string;
  clock : nat -> string;
  drive_id : nat -> string;
  vision_model : string -> string -> exn + string;
  mistral_ocr : string -> exn + string;
  chat_model : string -> exn + string;
  base_prefix : string;
  storage_folder : string;
  oauth_credentials : exn + unit;
  hasattr_FileData : string -> bool;
  setattr_FileData : string -> option exn
}.

Definition dq : string := String "034"%char EmptyString.

Definition nl : string := String "010"%char EmptyString.

Definition str_of_Z (z : Z) : string := NilZero.string_of_int (Z.to_int z).

(** [str(e)]; the text of an exception raised inside a library is the
    library's and is given here in outline. *)
Definition exn_text (e : exn) : string :=
  match e with
  | ValueError msg | FileNotFoundError msg | ServiceError msg
  | RequireLogin msg => msg
  | KeyError key => "'" ++ key ++ "'"
  | JSONDecodeError => "Expecting value"
  | AttributeError => "object has no attribute"
  | TypeError => "argument must be a mapping"
  | ValidationError => "validation error for FileData"
  | ClientError code => "An error occurred (" ++ code ++ ")"
  | HTTPException status detail => str_of_Z status ++ ": " ++ detail
  end.

(** The literal [b'{"files":{}}']. *)
Definition empty_document : string := "{" ++ dq ++ "files" ++ dq ++ ":{}}".

(** The text [model_dump_json(indent=4)] gives for a cache without files:
    an opening brace, the line of four spaces and ["files": {}], and the
    closing brace on a line of its own. *)
Definition indented_empty_document : string :=
  "{" ++ nl ++ "    " ++ dq ++ "files" ++ dq ++ ": {}" ++ nl ++ "}".

Definition is_empty (s : string) : bool :=
  match s with EmptyString => true | _ => false end.

(** [len(text)] of a Python [str]: a text is held as its UTF-8 bytes, and
    its characters are the bytes that do not continue another one. *)
Definition continues (c : ascii) : bool :=
  match c with Ascii _ _ _ _ _ _ b6 b7 => b7 && negb b6 end.

Fixpoint char_length (text : string) : nat :=
  match text with
  | EmptyString => O
  | String c r => if continues c then char_length r else S (char_length r)
  end.

(** The components of a relative path as [pathlib] keeps them: the pieces
    between the slashes, without the empty ones and the single dots. *)
Definition path_piece (piece : string) : list string :=
  if is_empty piece || String.eqb piece "." then [] else [piece].

Fixpoint path_parts_from (piece : string) (s : string) : list string :=
  match s with
  | EmptyString => path_piece piece
  | String c r =>
      if Ascii.eqb c "/"%char
      then (path_piece piece ++ path_parts_from EmptyString r)%list
      else path_parts_from (piece ++ String c EmptyString) r
  end.

Definition path_parts (s : string) : list string :=
  path_parts_from EmptyString s.

Fixpoint has_nul (s : string) : bool :=
  match s with
  | EmptyString => false
  | String c r => Ascii.eqb c "000"%char || has_nul r
  end.

(** [s.replace('Z', '+00:00')] *)
Fixpoint replace_Z (s : string) : string :=
  match s with
  | EmptyString => EmptyString
  | String c r =>
      if Ascii.eqb c "Z"%char then "+00:00" ++ replace_Z r
      else String c (replace_Z r)
  end.

Definition lift {A} (r : exn + A) : M A :=
  match r with inl e => raise e | inr a => ret a end.

(** [mime == "application/pdf" or mime.startswith("image/")] *)
Definition supported_mime (mime : string) : bool :=
  String.eqb mime "application/pdf" || String.prefix "image/" mime.

(** [checksum in self.processing_locks and self.processing_locks[checksum].locked()] *)
Definition is_locked (locks : dict bool) (c : string) : bool :=
  match dict_get locks c with Some b => b | None => false end.

Definition no_file (c : string) : exn :=
  ValueError ("No file with checksum '" ++ c ++ "' found in cache.").

Definition set_ocr (fd : FileData) (o s : option string) : FileData :=
  mkFileData (file_reference fd) (name fd) (mime_type fd) (size fd)
             (modified_time fd) o s.

(** [setattr(db.files[checksum], key, value)] behind the [hasattr] test.
    A name that is no field passes the test when the object has an
    attribute of that name (a method, a dunder name); what [setattr] does
    with it is the model class's business and leaves the fields alone. *)
Definition apply_update (E : Env) (fd : FileData) (u : Update)
  : exn + FileData :=
  match u with
  | U_file_reference v =>
      inr (mkFileData v (name fd) (mime_type fd) (size fd) (modified_time fd)
                      (raw_ocr fd) (summary fd))
  | U_name v =>
      inr (mkFileData (file_reference fd) v (mime_type fd) (size fd)
                      (modified_time fd) (raw_ocr fd) (summary fd))
  | U_mime_type v =>
      inr (mkFileData (file_reference fd) (name fd) v (size fd)
                      (modified_time fd) (raw_ocr fd) (summary fd))
  | U_size v =>
      inr (mkFileData (file_reference fd) (name fd) (mime_type fd) v
                      (modified_time fd) (raw_ocr fd) (summary fd))
  | U_modified_time v =>
      inr (mkFileData (file_reference fd) (name fd) (mime_type fd) (size fd)
                      v (raw_ocr fd) (summary fd))
  | U_raw_ocr v => inr (set_ocr fd v (summary fd))
  | U_summary v => inr (set_ocr fd (raw_ocr fd) v)
  | U_other key =>
      if hasattr_FileData E key then
        match setattr_FileData E key with
        | Some e => inl e
        | None => inr fd
        end
      else inl (ValueError ("Invalid attribute '" ++ key ++ "' for FileData."))
  end.

Fixpoint apply_updates (E : Env) (fd : FileData) (updates : list Update)
  : exn + FileData :=
  match updates with
  | [] => inr fd
  | u :: rest =>
      match apply_update E fd u with
      | inl e => inl e
      | inr fd' => apply_updates E fd' rest
      end
  end.

(** [metadata.get("files", {}).items()] *)
Definition metadata_files (metadata : Json) : exn + list (string * Json) :=
  match metadata with
  | JObj kv =>
      match dict_get kv "files" with
      | None => inr []
      | Some (JObj files) => inr (dict_items files)
      | Some _ => inl AttributeError
      end
  | _ => inl AttributeError
  end.

Section World.
Variable E : Env.

(** *** The metadata cache store *)

(** Modelled from the spec: [utils.jsondb.JsonDB], the class behind
    [self.file_cache], is not among the sources.  The specification
    describes it as a process-local mapping from checksum to metadata
    under scoped read/modify/write access whose reads yield snapshots:
    [read()] returns the current mapping. *)
Definition cache_read : M (dict FileData) := gets file_cache.

(** Modelled from the spec: the exit of [async with self.file_cache as db]
    of the same missing class; the body of the block works on [db.files]
    and the result is installed when the block is left normally. *)
Definition cache_commit (files : dict FileData) : M unit :=
  modify (with_cache files).

(** *** [modules/ocr.py] *)
Definition summarize_document (text : string) : M string :=
  modify (with_event EvSummaryCall) ;;;
  if Nat.ltb (char_length text) 300 then ret text
  else lift (chat_model E text).

Definition process_document (bytes mime : string) : M string :=
  modify (with_event (EvOcrCall mime)) ;;;
  if String.prefix "image/" mime then lift (vision_model E mime bytes)
  else if String.eqb mime "application/pdf" then lift (mistral_ocr E bytes)
  else raise (ValueError ("Unsupported MIME type for OCR processing: " ++ mime)).

(** *** [StorageInterface.get_file_data] and [file_exists] *)
Definition get_file_data_with (pipeline : string -> Process -> M unit)
           (c : string) (ensure_process : Process) : M FileData :=
  cache <- cache_read ;;
  match dict_get cache c with
  | None => raise (no_file c)
  | Some fd =>
      match ensure_process with
      | P_none => ret fd
      | _ =>
          pipeline c ensure_process ;;;
          cache <- cache_read ;;
          match dict_get cache c with
          | Some fd' => ret fd'
          | None => raise (KeyError c)
          end
      end
  end.

(** [self.get_file_data(checksum)], the call with the default level. *)
Definition get_cached_file_data (c : string) : M FileData :=
  get_file_data_with (fun _ _ => ret tt) c P_none.

Definition file_exists (c : string) : M bool :=
  cache <- cache_read ;;
  ret (dict_mem cache c).

(** *** Reading a metadata document into the cache *)
Definition loads (text : string) : M Json :=
  match json_loads E text with
  | Some j => ret j
  | None => raise JSONDecodeError
  end.

Definition FileData_of (file_dict : Json) : exn + FileData :=
  match file_dict with
  | JObj kv =>
      match validate_FileData E kv with
      | Some fd => inr fd
      | None => inl ValidationError
      end
  | _ => inl TypeError
  end.

(** The loop filling [files_dict]; [wrap] is the adapter's handler around
    the construction of one [FileData]. *)
Fixpoint load_files (wrap : string -> exn -> exn)
         (items : list (string * Json)) (files_dict : dict FileData)
  : exn + dict FileData :=
  match items with
  | [] => inr files_dict
  | (c, file_dict) :: rest =>
      match FileData_of file_dict with
      | inl e => inl (wrap c e)
      | inr fd => load_files wrap rest (dict_set files_dict c fd)
      end
  end.

Definition install_metadata (wrap : string -> exn -> exn) (metadata : Json)
  : M unit :=
  items <- lift (metadata_files metadata) ;;
  files_dict <- lift (load_files wrap items []) ;;
  cache_commit files_dict.

(** *** Object storage: [AmazonS3Interface] *)
Definition metadata_key : string := base_prefix E ++ "/file_metadata.json".
Definition files_prefix : string := base_prefix E ++ "/files/".

(** [client.get_object(Bucket, Key=self._metadata_key)] and the read of
    its body. *)
Definition s3_get_metadata : M string :=
  fun st =>
    match fault st with
    | Some code => Raise st (ClientError code)
    | None =>
        match remote_meta st with
        | Some body => Ok st body
        | None => Raise st (ClientError "NoSuchKey")
        end
    end.

Definition s3_wrap (c : string) (_ : exn) : exn :=
  ValueError ("Invalid file metadata for checksum '" ++ c ++ "'").

Definition missing_code (code : string) : bool :=
  String.eqb code "NoSuchKey" || String.eqb code "NotFound"
  || String.eqb code "404".

(** The statements of [_ensure_layout] under the lock, after the second
    test of the flag. *)
Definition s3_init_body : M unit :=
  try_except
    (content_bytes <- s3_get_metadata ;;
     let content_text :=
       if is_empty content_bytes then empty_document else content_bytes in
     metadata <- loads (if is_empty content_text then empty_document
                        else content_text) ;;
     install_metadata s3_wrap metadata)
    (fun e =>
       match e with
       | ClientError code =>
           Some (if missing_code code
                 then modify (with_remote_meta empty_document) ;;;
                      cache_commit []
                 else raise e)
       | _ => None
       end) ;;;
  modify (with_initialized true).

Definition s3_ensure_layout : M unit :=
  init <- gets initialized ;;
  if init then ret tt else
  (* async with self._layout_lock: the lock is free when a call starts *)
  init <- gets initialized ;;
  if init then ret tt else s3_init_body.

Definition s3_push_metadata : M unit :=
  cache <- cache_read ;;
  modify (with_remote_meta (model_dump_json E None cache)).

Definition s3_add_file_data (c : string) (fd : FileData) : M unit :=
  s3_ensure_layout ;;;
  db <- cache_read ;;
  cache_commit (dict_set db c fd) ;;;
  s3_push_metadata.

(** *** Local filesystem: [LocalStorageInterface] *)
Definition local_save_metadata : M unit :=
  cache <- cache_read ;;
  modify (with_remote_meta (model_dump_json E (Some 4) cache)).

(** [ValueError(f"Metadata file is corrupted: {e}")] *)
Definition corrupted (e : exn) : exn :=
  ValueError ("Metadata file is corrupted: " ++ exn_text e).

(** [_ensure_folder_structure] after the test of the flag. *)
Definition local_init_body : M unit :=
  modify (with_folders true true) ;;;
  existing <- gets remote_meta ;;
  match existing with
  | Some text =>
      try_except
        (metadata <- loads text ;;
         install_metadata (fun _ e => e) metadata)
        (fun e =>
           match e with
           | JSONDecodeError | KeyError _ | TypeError =>
               Some (raise (corrupted e))
           | _ => None
           end)
  | None =>
      cache_commit [] ;;;
      local_save_metadata
  end ;;;
  modify (with_initialized true).

Definition local_ensure_folder_structure : M unit :=
  init <- gets initialized ;;
  if init then ret tt else local_init_body.

Definition local_add_file_data (c : string) (fd : FileData) : M unit :=
  db <- cache_read ;;
  cache_commit (dict_set db c fd) ;;;
  local_save_metadata.

(** *** Hierarchical document API: [GoogleDriveInterface] *)
Definition gdrive_ensure_folder_structure : M unit :=
  (* main folder: found, or created *)
  had_main <- gets main_folder ;;
  modify (fun st => with_folders true (had_main && files_folder st) st) ;;;
  (* metadata file under the main folder *)
  doc <- gets remote_meta ;;
  match (if had_main then doc else None) with
  | Some text =>
      metadata <- loads text ;;
      install_metadata (fun _ e => e) metadata
  | None =>
      modify (with_remote_meta empty_document) ;;;
      cache_commit []
  end ;;;
  (* files folder: found, or created *)
  modify (with_folders true true).

(** [get_drive_service].  The client is built from the credentials of the
    OAuth manager when the adapter has none; asking for them raises when a
    login is needed, and nothing is assigned then.  [_folder_initialized]
    is raised only after the client was built and the client is never
    discarded, so a raised flag stands for a client as well; the token of
    a client that exists is taken to be fresh. *)
Definition get_drive_service : M unit :=
  service <- gets drive_service ;;
  init <- gets initialized ;;
  (if service || init then ret tt else lift (oauth_credentials E)) ;;;
  modify (with_drive_service true) ;;;
  init <- gets initialized ;;
  if init then ret tt
  else gdrive_ensure_folder_structure ;;; modify (with_initialized true).

Definition gdrive_push_metadata (cache : dict FileData) : M unit :=
  modify (with_remote_meta (model_dump_json E None cache)).

Definition gdrive_add_file_data (c : string) (fd : FileData) : M unit :=
  get_drive_service ;;;
  db <- cache_read ;;
  cache_commit (dict_set db c fd) ;;;
  cache <- cache_read ;;
  gdrive_push_metadata cache.

(** *** Dispatch on the adapter *)
Definition ensure_ready (a : Adapter) : M unit :=
  match a with
  | S3 => s3_ensure_layout
  | GDrive => get_drive_service
  | Local => local_ensure_folder_structure
  end.

Definition add_file_data (a : Adapter) (c : string) (fd : FileData) : M unit :=
  match a with
  | S3 => s3_add_file_data c fd
  | GDrive => gdrive_add_file_data c fd
  | Local => local_add_file_data c fd
  end.

(** Reading the bytes behind a stored reference. *)
Definition fetch_object (missing : exn) (ref : string) : M string :=
  objs <- gets objects ;;
  match dict_get objs ref with
  | Some bytes => ret bytes
  | None => raise missing
  end.

Definition download_file (a : Adapter) (c : string) : M RawFileData :=
  match a with
  | S3 =>
      s3_ensure_layout ;;;
      fd <- get_cached_file_data c ;;
      bytes <- fetch_object (ClientError "NoSuchKey") (file_reference fd) ;;
      ret (mkRaw bytes (name fd) (mime_type fd))
  | GDrive =>
      get_drive_service ;;;
      fd <- get_cached_file_data c ;;
      bytes <- fetch_object (ServiceError "File not found") (file_reference fd) ;;
      ret (mkRaw bytes (name fd) (mime_type fd))
  | Local =>
      fd <- get_cached_file_data c ;;
      bytes <- fetch_object
                 (FileNotFoundError ("File not found at path: " ++ file_reference fd))
                 (file_reference fd) ;;
      ret (mkRaw bytes (name fd) (mime_type fd))
  end.

(** *** The processing locks and [StorageInterface.ensure_ocr] *)

(** [if checksum not in self.processing_locks: ... = asyncio.Lock()] *)
Definition create_lock (c : string) : M unit :=
  locks <- gets processing_locks ;;
  if dict_mem locks c then ret tt
  else modify (with_locks (dict_set locks c false)).

(** [await self.processing_locks[checksum].acquire()]: taken at once when
    free; a caller that finds it held waits for a release. *)
Definition acquire (c : string) : M unit :=
  fun st =>
    if is_locked (processing_locks st) c then Blocked st
    else Ok (with_locks (dict_set (processing_locks st) c true) st) tt.

(** [self.processing_locks[checksum].release()]; the caller holds the lock. *)
Definition release (c : string) : M unit :=
  modify (fun st => with_locks (dict_set (processing_locks st) c false) st).

Definition sentinel (mime : string) : string :=
  "Cannot perform OCR on file with MIME type '" ++ mime ++ "'".

Definition is_none {A} (o : option A) : bool :=
  match o with None => true | Some _ => false end.

(** [raw_ocr is None or (ensure_process == "summary" and summary is None)] *)
Definition needs_derivation (ensure_process : Process) (fd : FileData) : bool :=
  is_none (raw_ocr fd)
  || (Process_eqb ensure_process P_summary && is_none (summary fd)).

(** The body under [if mime_type:], on a supported MIME type. *)
Definition derive (ensure_process : Process) (raw : RawFileData)
           (file_data : FileData) : M FileData :=
  fd1 <- match raw_ocr file_data with
         | None =>
             text <- process_document (content raw) (raw_mime_type raw) ;;
             ret (set_ocr file_data (Some text) (summary file_data))
         | Some _ => ret file_data
         end ;;
  if Process_eqb ensure_process P_summary && is_none (summary fd1) then
    match raw_ocr fd1 with
    | None => raise (ValueError "Cannot summarize a file without OCR text.")
    | Some text =>
        new_summary <- summarize_document text ;;
        ret (set_ocr fd1 (raw_ocr fd1) (Some new_summary))
    end
  else ret fd1.

(** The statements of [ensure_ocr] between [acquire] and [release]. *)
Definition derivation (a : Adapter) (c : string) (ensure_process : Process)
           (raw_file_data : option RawFileData) : M unit :=
  file_data <- get_cached_file_data c ;;
  if needs_derivation ensure_process file_data then
    raw <- match raw_file_data with
           | Some raw => ret raw
           | None => download_file a c
           end ;;
    fd <- (if supported_mime (raw_mime_type raw)
           then derive ensure_process raw file_data
           else ret (set_ocr file_data
                             (Some (sentinel (raw_mime_type raw)))
                             (Some (sentinel (raw_mime_type raw))))) ;;
    add_file_data a c fd
  else ret tt.

Definition ensure_ocr (a : Adapter) (c : string) (ensure_process : Process)
           (raw_file_data : option RawFileData) : M unit :=
  match ensure_process with
  | P_none => ret tt
  | _ =>
      file <- cache_read ;;
      match dict_get file c with
      | None => raise (no_file c)
      | Some _ =>
          create_lock c ;;;
          acquire c ;;;
          derivation a c ensure_process raw_file_data ;;;
          release c
      end
  end.

Definition get_file_data (a : Adapter) (c : string) (ensure_process : Process)
  : M FileData :=
  get_file_data_with (fun c' p => ensure_ocr a c' p None) c ensure_process.

(** *** [update_file_data] *)

(** The block under [async with self.file_cache as db]; an exception
    raised inside it leaves the cache as it was. *)
Definition update_in_cache (c : string) (updates : list Update) : M unit :=
  db <- cache_read ;;
  match dict_get db c with
  | Some fd =>
      fd' <- lift (apply_updates E fd updates) ;;
      cache_commit (dict_set db c fd')
  | None => raise (no_file c)
  end.

Definition update_file_data (a : Adapter) (c : string) (updates : list Update)
  : M unit :=
  match a with
  | S3 =>
      s3_ensure_layout ;;;
      update_in_cache c updates ;;;
      s3_push_metadata
  | GDrive =>
      update_in_cache c updates ;;;
      cache <- cache_read ;;
      get_drive_service ;;;
      gdrive_push_metadata cache
  | Local =>
      update_in_cache c updates ;;;
      local_save_metadata
  end.

(** *** [delete_file] *)

(** [async with self.file_cache as db: if checksum in db.files: del ...] *)
Definition remove_from_cache (c : string) : M unit :=
  db <- cache_read ;;
  cache_commit (if dict_mem db c then dict_del db c else db).

Definition delete_file (a : Adapter) (c : string) : M unit :=
  match a with
  | S3 =>
      s3_ensure_layout ;;;
      fd <- get_cached_file_data c ;;
      modify (with_delete_object (file_reference fd)) ;;;
      remove_from_cache c ;;;
      s3_push_metadata
  | GDrive =>
      fd <- get_cached_file_data c ;;
      (* Delete from Google Drive, from cache and local cache *)
      ret tt
  | Local =>
      fd <- get_cached_file_data c ;;
      objs <- gets objects ;;
      (if dict_mem objs (file_reference fd)
       then modify (with_delete_object (file_reference fd))
       else ret tt) ;;;
      remove_from_cache c ;;;
      local_save_metadata
  end.

(** *** [add_file] *)
Definition now : M string := gets (fun st => clock E (length (trace st))).

Definition byte_size (bytes : string) : Z := Z.of_nat (String.length bytes).

(** The branch [if checksum not in cache.files] up to the new [FileData]. *)
Definition store_object (a : Adapter) (c : string) (raw : RawFileData)
  : M FileData :=
  match a with
  | S3 =>
      let key := files_prefix ++ c ++ "-" ++ raw_name raw in
      modify (with_upload key (content raw)) ;;;
      last_modified <- now ;;
      ret (mkFileData key (raw_name raw) (raw_mime_type raw)
                      (byte_size (content raw)) last_modified None None)
  | GDrive =>
      n <- gets next_id ;;
      modify (with_next_id (S n)) ;;;
      modify (with_upload (drive_id E n) (content raw)) ;;;
      modifiedTime <- now ;;
      ret (mkFileData (drive_id E n) (raw_name raw) (raw_mime_type raw)
                      (byte_size (content raw)) (replace_Z modifiedTime)
                      None None)
  | Local =>
      (* file_path = self.files_folder / f"{checksum}_{name}": the folder
         holds files only, so a path of several components has no
         directory to be opened in *)
      let relative := c ++ "_" ++ raw_name raw in
      if has_nul relative then raise (ValueError "embedded null byte")
      else
        match path_parts relative with
        | [leaf] =>
            let file_path := storage_folder E ++ "/files/" ++ leaf in
            modify (with_upload file_path (content raw)) ;;;
            t <- now ;;
            ret (mkFileData file_path (raw_name raw) (raw_mime_type raw)
                            (byte_size (content raw)) (t ++ "+00:00") None None)
        | parts =>
            raise (FileNotFoundError
                     ("[Errno 2] No such file or directory: '"
                      ++ storage_folder E ++ "/files/"
                      ++ String.concat "/" parts ++ "'"))
        end
  end.

(** [if ensure_process != "none" and checksum not in self.processing_locks:
     asyncio.create_task(self.ensure_ocr(...))] *)
Definition schedule (c : string) (ensure_process : Process)
           (raw : RawFileData) : M unit :=
  locks <- gets processing_locks ;;
  if negb (Process_eqb ensure_process P_none) && negb (dict_mem locks c)
  then modify (with_task (mkTask c ensure_process raw))
  else ret tt.

(** [add_file] down to the [create_task]. *)
Definition add_file_begin (a : Adapter) (raw : RawFileData)
           (ensure_process : Process) : M (string * FileData) :=
  ensure_ready a ;;;
  let c := sha3_256 E (content raw) in
  cache <- cache_read ;;
  fd <- match dict_get cache c with
        | None =>
            fd <- store_object a c raw ;;
            add_file_data a c fd ;;;
            ret fd
        | Some fd => ret fd
        end ;;
  schedule c ensure_process raw ;;;
  ret (c, fd).

(** The [return] after the sleep. *)
Definition respond (c : string) (fd : FileData) : M FileDataResponse :=
  locks <- gets processing_locks ;;
  ret (mkResponse c (is_locked locks c) fd).

(** [add_file]; [others] is what the rest of the event loop does to the
    state during [await asyncio.sleep(0.1)]. *)
Definition add_file (others : State -> State) (a : Adapter)
           (raw : RawFileData) (ensure_process : Process)
  : M FileDataResponse :=
  r <- add_file_begin a raw ensure_process ;;
  modify others ;;;
  respond (fst r) (snd r).

(** *** [search_files] *)
Definition search_files (a : Adapter) (query : SearchQuery)
  : M (list FileDataResponse) :=
  ensure_ready a ;;;
  cache <- cache_read ;;
  locks <- gets processing_locks ;;
  ret (map (fun kv => mkResponse (fst kv) (is_locked locks (fst kv)) (snd kv))
           (dict_items cache)).
End World.

(** ** The upload endpoint ([main.py]) *)

Record UploadFile := mkUpload {
  upload_bytes : string;
  filename : option string;
  content_type : option string;
  upload_size : option Z
}.

(** Python truth of an optional string and of an optional integer. *)
Definition truthy_str (o : option string) : bool :=
  match o with Some s => negb (is_empty s) | None => false end.

Definition truthy_int (o : option Z) : bool :=
  match o with Some z => negb (Z.eqb z 0) | None => false end.

Definition max_upload_size : Z := 5 * 1024 * 1024.

Definition invalid_type (ct : string) : string :=
  "Invalid file type: " ++ ct
  ++ ". Only PDF and common image types (JPEG, PNG, GIF) are allowed.".

(** The statements of [upload_file] inside [try:]. *)
Definition upload_file_body (E : Env) (others : State -> State)
           (storage_interface : Adapter) (file : UploadFile)
           (ensure_process : Process) : M FileDataResponse :=
  let file_content := upload_bytes file in
  let file_name :=
    match filename file with
    | Some n => if is_empty n then "uploaded_file" else n
    | None => "uploaded_file"
    end in
  if negb (truthy_str (content_type file)) then
    raise (HTTPException 400 "File content type is missing.")
  else if negb (truthy_int (upload_size file)) then
    raise (HTTPException 400 "File size is missing.")
  else
    let ct := match content_type file with Some s => s | None => EmptyString end in
    let sz := match upload_size file with Some z => z | None => 0%Z end in
    if Z.ltb max_upload_size sz then
      raise (HTTPException 400 "File too large. Maximum allowed size is 5MB.")
    else if negb (String.eqb ct "application/pdf")
            && negb (String.prefix "image/" ct) then
      raise (HTTPException 400 (invalid_type ct))
    else
      add_file E others storage_interface
               (mkRaw file_content file_name ct) ensure_process.

(** [upload_file]: the body under [try:] and its [except Exception as e]
    clause; [HTTPException] derives from [Exception]. *)
Definition upload_file (E : Env) (others : State -> State)
           (storage_interface : Adapter) (file : UploadFile)
           (ensure_process : Process) : M FileDataResponse :=
  try_except
    (upload_file_body E others storage_interface file ensure_process)
    (fun e =>
       Some (raise (HTTPException 500 ("File upload failed: " ++ exn_text e)))).

(** The status line the framework sends for the outcome of a handler. *)
Definition status_of {A} (o : Outcome A) : option Z :=
  match o with
  | Ok _ _ => Some 200%Z
  | Raise _ (HTTPException status _) => Some status
  | Raise _ _ => Some 500%Z
  | Blocked _ => None
  end.

(** What the specification asks the endpoint to reject: a missing content
    type, a missing size, a size over 5 MiB, a MIME type that is neither
    [application/pdf] nor [image/...]. *)
Definition must_reject (file : UploadFile) : bool :=
  match content_type file, upload_size file with
  | None, _ | _, None => true
  | Some ct, Some z =>
      Z.ltb max_upload_size z
      || (negb (String.eqb ct "application/pdf")
          && negb (String.prefix "image/" ct))
  end.

(** ** Share links ([download_link]) and the other endpoints of [main.py] *)

(** The remote calls behind a share link: the presigned URL of the object
    store (object key, file name), and on Drive the grant of public read
    access and the two links of a file ([webContentLink], [webViewLink]);
    [inl e] where the call raises. *)
Record Links := mkLinks {
  presigned_url : string -> string -> exn + string;
  grant_public_read : string -> exn + unit;
  drive_links : string -> exn + (option string * option string)
}.

(** Python's [x or y] on optional strings. *)
Definition or_else (x y : option string) : option string :=
  if truthy_str x then x else y.

Definition download_link (E : Env) (L : Links) (a : Adapter) (c : string)
  : M string :=
  match a with
  | S3 =>
      s3_ensure_layout E ;;;
      fd <- get_cached_file_data c ;;
      lift (presigned_url L (file_reference fd) (name fd))
  | GDrive =>
      get_drive_service E ;;;
      fd <- get_cached_file_data c ;;
      try_except
        (lift (grant_public_read L (file_reference fd)) ;;;
         file_info <- lift (drive_links L (file_reference fd)) ;;
         match or_else (fst file_info) (snd file_info) with
         | Some share_link =>
             if is_empty share_link
             then raise (ValueError "Failed to retrieve share link for file")
             else ret share_link
         | None => raise (ValueError "Failed to retrieve share link for file")
         end)
        (fun e =>
           Some (raise (ValueError ("Failed to create share link: "
                                    ++ exn_text e))))
  | Local =>
      fd <- get_cached_file_data c ;;
      ret ("local://" ++ file_reference fd)
  end.

(** [try: ...  except Exception as e: raise HTTPException(500, what + str(e))] *)
Definition guarded {A} (what : string) (c : M A) : M A :=
  try_except c (fun e => Some (raise (HTTPException 500 (what ++ exn_text e)))).

(** [SearchQuery()] *)
Definition default_query : SearchQuery := mkQuery 10 [] None None None.

Module Api.
Definition list_files (E : Env) (storage_interface : Adapter)
  : M (list FileDataResponse) :=
  guarded "File listing failed: " (search_files E storage_interface default_query).

Definition file_exists (storage_interface : Adapter) (c : string) : M bool :=
  guarded "File existence check failed: " (file_exists c).

Definition get_file (E : Env) (L : Links) (storage_interface : Adapter)
           (c : string) : M string :=
  guarded "File download link generation failed: "
          (download_link E L storage_interface c).

Definition get_file_data (E : Env) (storage_interface : Adapter) (c : string)
           (ensure_process : Process) : M FileData :=
  guarded "File data retrieval failed: "
          (get_file_data E storage_interface c ensure_process).

Definition delete_file (E : Env) (storage_interface : Adapter) (c : string)
  : M string :=
  guarded "File deletion failed: "
          (delete_file E storage_interface c ;;;
           ret ("File with checksum " ++ c ++ " has been deleted.")).
End Api.

(** ** The OAuth redirect ([main.py], [utils/oauth2.py]) *)

(** [uri[n:]] *)
Fixpoint string_drop (n : nat) (s : string) : string :=
  match n, s with
  | O, _ => s
  | S _, EmptyString => EmptyString
  | S m, String _ r => string_drop m r
  end.

(** The rewriting of the redirect address in [authenticate]. *)
Definition force_https (uri : string) : string :=
  if String.prefix "http://" uri then "https" ++ string_drop 4 uri else uri.

(** [OAuth2Manager]: the flows waiting for their redirect, the credentials
    in memory and the stored credentials, each keyed by locid.  A flow and
    the credentials it yields are opaque.  The store is the value of
    [self.credential_store], an instance of the class behind the metadata
    cache: what its [async with] block assigns is installed at the exit of
    the block. *)
Record AuthState := mkAuth {
  pending_flows : dict string;
  active_credentials : dict string;
  credential_store : dict string
}.

Section OAuth.
(** [flow.fetch_token(authorization_response=uri)] followed by
    [flow.credentials], and [Credentials.to_json]. *)
Variable fetch_token : string -> string -> exn + string.
Variable to_json : string -> string.

(** [OAuth2Manager.add_user_credentials] *)
Definition add_user_credentials (locid authentication_uri : string)
           (s : AuthState) : AuthState * (exn + unit) :=
  match dict_get (pending_flows s) locid with
  | None =>
      (s, inl (ValueError "No pending authentication flow for given locid."))
  | Some flow =>
      match fetch_token flow authentication_uri with
      | inl e => (s, inl e)
      | inr credentials =>
          (mkAuth (dict_del (pending_flows s) locid)
                  (dict_set (active_credentials s) locid credentials)
                  (dict_set (credential_store s) locid (to_json credentials)),
           inr tt)
      end
  end.

(** The endpoint [authenticate]; [url] is [str(request.url)]. *)
Definition authenticate (locid url : string) (s : AuthState)
  : AuthState * (exn + string) :=
  match add_user_credentials locid (force_https url) s with
  | (s', inr _) =>
      (s', inr "Authentication successful. You can now close this window.")
  | (s', inl e) =>
      (s', inl (HTTPException 400 ("Authentication failed: " ++ exn_text e)))
  end.
End OAuth.

(** [sorted(list(set(scopes)))]: the elements in ascending order of their
    characters, each once. *)
Fixpoint insert_scope (x : string) (l : list string) : list string :=
  match l with
  | [] => [x]
  | y :: r =>
      match String_as_OT.compare x y with
      | Lt => x :: y :: r
      | Eq => y :: r
      | Gt => y :: insert_scope x r
      end
  end.

Definition sorted_set (scopes : list string) : list string :=
  fold_right insert_scope [] scopes.

(** [compute_locid]; [digest] is the hash of the canonical JSON text of the
    payload. *)
Definition compute_locid (digest : string -> list string -> string)
           (user_id : string) (scopes : list string) : string :=
  digest user_id (sorted_set scopes).

(** ** The mailbox cache and the description of an email
    ([email/src/modules/types.py]) *)
Record AttachmentMetadata := mkAttachment {
  att_filename : string;
  att_checksum : option string;
  size_bytes : Z
}.

Record Email := mkEmail {
  email_id : string;
  sender : string;
  timestamp : string;
  attachments : list AttachmentMetadata;
  email_summary : option string;
  raw_text : string
}.

(** [dict.update]: the bindings of [n], in their order, assigned into [d]. *)
Definition dict_update {V} (d n : dict V) : dict V :=
  fold_left (fun acc kv => dict_set acc (fst kv) (snd kv)) n d.

(** [{email.id: email for email in emails}] *)
Definition by_id (emails : list Email) : dict Email :=
  fold_left (fun acc e => dict_set acc (email_id e) e) emails [].

Definition inbox_of (cache : dict (dict Email)) (inbox_id : string) : dict Email :=
  match dict_get cache inbox_id with Some box => box | None => [] end.

(** [MailboxCache.add_emails_to_cache], on the value of the cache. *)
Definition add_emails_to_cache (cache : dict (dict Email)) (inbox_id : string)
           (emails : list Email) : dict (dict Email) :=
  let cache1 := if dict_mem cache inbox_id then cache
                else dict_set cache inbox_id [] in
  dict_set cache1 inbox_id (dict_update (inbox_of cache1 inbox_id) (by_id emails)).

Definition get_emails (cache : dict (dict Email)) (inbox_id : string)
  : list Email :=
  map snd (dict_items (inbox_of cache inbox_id)).

Definition get_email (cache : dict (dict Email)) (inbox_id email_id : string)
  : option Email :=
  dict_get (inbox_of cache inbox_id) email_id.

(** [EmailMetadata.describe] *)
Definition describe_metadata (e : Email) : string :=
  (if is_empty (sender e) then EmptyString
   else "From: " ++ sender e ++ String "010"%char EmptyString)
  ++ "Date: " ++ timestamp e ++ String "010"%char EmptyString.

Definition stored (att : AttachmentMetadata) : bool :=
  truthy_str (att_checksum att).

Definition attachment_head (i : nat) (att : AttachmentMetadata) : string :=
  nl ++ nl ++ "Attachment " ++ str_of_Z (Z.of_nat i) ++ " : " ++ att_filename att
  ++ " (size: " ++ str_of_Z (size_bytes att) ++ " bytes) ".

(** The loop of [Email.describe] over the attachments, with the counter
    [i] and the list [attachment_summaries] it pops from; [None] where
    [pop(0)] finds the list empty. *)
Fixpoint describe_loop (atts : list AttachmentMetadata) (i : nat)
         (summaries : list string) (text : string) : option string :=
  match atts with
  | [] => Some text
  | att :: rest =>
      if stored att then
        match summaries with
        | [] => None
        | summary :: summaries' =>
            describe_loop rest (S i) summaries'
              (text ++ attachment_head i att
               ++ "(summary: " ++ summary ++ ")." ++ nl)
        end
      else
        describe_loop rest (S i) summaries
          (text ++ attachment_head i att ++ "(could not be stored)." ++ nl)
  end.

(** [enumerate] from [k] *)
Fixpoint number {A} (k : nat) (l : list A) : list (nat * A) :=
  match l with
  | [] => []
  | x :: r => (k, x) :: number (S k) r
  end.

Definition checksum_text (att : AttachmentMetadata) : string :=
  match att_checksum att with Some c => c | None => EmptyString end.

(** [Email.describe]; [summary_of k checksum] is what [gather] returns for
    the call number [k] of [wait_for_attachment_summary], made for
    [checksum]: the summary, or the exception in its place, as text. *)
Definition describe (summary_of : nat -> string -> string) (e : Email)
  : option string :=
  let attachment_summaries :=
    map (fun ka => summary_of (fst ka) (checksum_text (snd ka)))
        (number 0 (filter stored (attachments e))) in
  describe_loop (attachments e) 0 attachment_summaries
                (describe_metadata e ++ "Body: " ++ raw_text e ++ nl).

(** The attachment lines of a description written down directly: line [i]
    is for attachment [i], and the line of a stored attachment carries the
    result of the call made for that attachment's own checksum. *)
Fixpoint attachment_lines (summary_of : nat -> string -> string)
         (i k : nat) (atts : list AttachmentMetadata) : string :=
  match atts with
  | [] => EmptyString
  | att :: rest =>
      if stored att then
        attachment_head i att
        ++ "(summary: " ++ summary_of k (checksum_text att) ++ ")." ++ nl
        ++ attachment_lines summary_of (S i) (S k) rest
      else
        attachment_head i att ++ "(could not be stored)." ++ nl
        ++ attachment_lines summary_of (S i) k rest
  end.

(** ** The storage client of the email service
    ([email/src/utils/storage.py]) *)

(** The multipart part the storage service receives for a posted file. *)
Definition posted_file (data filename mime_type : string) : UploadFile :=
  mkUpload data (Some filename)
           (Some (if is_empty mime_type then "application/octet-stream"
                  else mime_type))
           (Some (byte_size data)).

(** [ensure_storage] against the endpoints of the storage service, for the
    adapter [s3_1]; [inl msg] is [RuntimeError(msg)]. *)
Definition ensure_storage (E : Env) (others : State -> State)
           (data filename mime_type : string) (st : State)
  : State * (string + unit) :=
  let c := sha3_256 E data in
  match Api.file_exists S3 c st with
  | Ok st1 present =>
      if present then (st1, inr tt)
      else
        match upload_file E others S3 (posted_file data filename mime_type)
                          P_summary st1 with
        | Ok st2 _ => (st2, inr tt)
        | Raise st2 _ => (st2, inl "Failed to upload file to storage service.")
        | Blocked st2 => (st2, inl "Failed to upload file to storage service.")
        end
  | Raise st1 _ | Blocked st1 =>
      (st1, inl "Failed to check file existence in storage service.")
  end.

(** ** Concurrent first calls of the lazy initialisation

    Several tasks enter the initialisation of one adapter object.  A task
    runs without interruption from one suspension point ([await]) to the
    next; a schedule names the task that runs next.  [bodies] counts the
    runs of the initialisation body, [completed] those that returned. *)
Inductive Pc :=
| Start
| Waiting
| Running
| Done
| Failed (e : exn).

Record Sys := mkSys {
  shared : State;
  layout_lock : bool;
  pcs : list Pc;
  bodies : nat;
  completed : nat
}.

Fixpoint set_pc (l : list Pc) (i : nat) (pc : Pc) : list Pc :=
  match l, i with
  | [], _ => []
  | _ :: r, O => pc :: r
  | x :: r, S j => x :: set_pc r j pc
  end.

(** One run of the initialisation body by task [i]; [keep_lock] tells
    whether the layout lock stays as it is (no lock is involved) or is
    released on the way out of [async with]. *)
Definition run_body (body : M unit) (keep_lock : bool) (i : nat) (sys : Sys)
  : Sys :=
  match body (shared sys) with
  | Ok st' _ =>
      mkSys st' (keep_lock && layout_lock sys) (set_pc (pcs sys) i Done)
            (S (bodies sys)) (S (completed sys))
  | Raise st' e =>
      mkSys st' (keep_lock && layout_lock sys) (set_pc (pcs sys) i (Failed e))
            (S (bodies sys)) (completed sys)
  | Blocked _ => sys
  end.

Definition goto (i : nat) (pc : Pc) (lock : bool) (sys : Sys) : Sys :=
  mkSys (shared sys) lock (set_pc (pcs sys) i pc) (bodies sys) (completed sys).

(** [LocalStorageInterface._ensure_folder_structure]: the test of the flag,
    then the first [await asyncio.to_thread(os.makedirs, ...)], then the
    rest of the method. *)
Definition local_step (E : Env) (i : nat) (sys : Sys) : Sys :=
  match nth_error (pcs sys) i with
  | Some Start =>
      if initialized (shared sys) then goto i Done (layout_lock sys) sys
      else goto i Running (layout_lock sys) sys
  | Some Running => run_body (local_init_body E) true i sys
  | _ => sys
  end.

(** [AmazonS3Interface._ensure_layout]: the test of the flag, the entry into
    [async with self._layout_lock] (at once when the lock is free, after a
    wait otherwise), the second test, and the body under the lock. *)
Definition s3_step (E : Env) (i : nat) (sys : Sys) : Sys :=
  match nth_error (pcs sys) i with
  | Some Start =>
      if initialized (shared sys) then goto i Done (layout_lock sys) sys
      else if layout_lock sys then goto i Waiting true sys
      else goto i Running true sys
  | Some Waiting =>
      if layout_lock sys then sys
      else if initialized (shared sys) then goto i Done false sys
      else goto i Running true sys
  | Some Running => run_body (s3_init_body E) false i sys
  | _ => sys
  end.

Definition run_schedule (step : nat -> Sys -> Sys) (schedule : list nat)
           (sys : Sys) : Sys :=
  fold_left (fun s i => step i s) schedule sys.

Definition first_calls (n : nat) (st : State) : Sys :=
  mkSys st false (repeat Start n) 0 0.

(** ** Sequences of pipeline calls *)
Record Call := mkCall {
  call_checksum : string;
  call_process : Process;
  call_raw : option RawFileData
}.

Definition pipeline_call (E : Env) (a : Adapter) (k : Call) (st : State)
  : State :=
  final_state (ensure_ocr E a (call_checksum k) (call_process k) (call_raw k) st).

Definition pipeline_calls (E : Env) (a : Adapter) (ks : list Call) (st : State)
  : State :=
  fold_left (fun s k => pipeline_call E a k s) ks st.

(** A field that holds a text of at least one character. *)
Definition filled (o : option string) : bool :=
  match o with Some s => negb (is_empty s) | None => false end.

(** The state derivation starts from: the adapter is initialised and every
    entry is as [add_file] creates it, with both derived fields unset. *)
Definition underived (st : State) : Prop :=
  initialized st = true /\
  forall c fd, dict_get (file_cache st) c = Some fd ->
               raw_ocr fd = None /\ summary fd = None.

(** The derived fields of an entry agree: a summary comes with an extracted
    text, and a summary of at least one character with an extracted text
    of at least one character. *)
Definition coherent (fd : FileData) : Prop :=
  (is_none (summary fd) = false -> is_none (raw_ocr fd) = false) /\
  (filled (summary fd) = true -> filled (raw_ocr fd) = true).


(** ** Observations on a state *)
Definition is_upload (e : Event) : bool :=
  match e with EvUpload _ _ => true | _ => false end.

Definition uploads (st : State) : list Event := filter is_upload (trace st).


(** A Python dictionary holds a key once. *)
Definition unique_keys {V} (d : dict V) : Prop := NoDup (map fst d).

(** What [add_file] relies on from the tasks that run while it sleeps (the
    pipeline runs it started, other requests on other files): they leave
    the adapter initialised, keep every entry of the cache under its
    reference and name, and upload nothing. *)
Record quiet (others : State -> State) : Prop := mk_quiet {
  quiet_initialized :
    forall st, initialized st = true -> initialized (others st) = true;
  quiet_entries :
    forall st c fd,
      dict_get (file_cache st) c = Some fd ->
      exists fd',
        dict_get (file_cache (others st)) c = Some fd' /\
        file_reference fd' = file_reference fd /\
        name fd' = name fd;
  quiet_keys :
    forall st, unique_keys (file_cache st) ->
               unique_keys (file_cache (others st));
  quiet_uploads : forall st, uploads (others st) = uploads st
}.

(** The indentation each adapter passes to [model_dump_json]. *)
Definition indent_of (a : Adapter) : option nat :=
  match a with Local => Some 4%nat | _ => None end.

(** The metadata document a bootstrap finds on the medium, if any. *)
Definition document_of (a : Adapter) (st : State) : option string :=
  match a with
  | GDrive => if main_folder st then remote_meta st else None
  | _ => remote_meta st
  end.

(** The body of the document a bootstrap creates when there is none: the
    literal on the object store and on Drive, the indented text on the
    local file system. *)
Definition created_document (a : Adapter) : string :=
  match a with
  | Local => indented_empty_document
  | _ => empty_document
  end.

(** The error a bootstrap raises on a document that does not parse. *)
Definition unparsable (a : Adapter) : exn :=
  match a with
  | Local => corrupted JSONDecodeError
  | _ => JSONDecodeError
  end.

(** ** A concrete world for examples

    Stand-ins for the library functions, fixed on the few inputs the
    examples use: the parser knows the empty document and rejects every
    other text, among them the empty text and plain garbage, as
    [json.loads] does. *)
Definition demo_dump (indent : option nat) (files : dict FileData) : string :=
  match files, indent with
  | [], None => empty_document
  | [], Some _ => indented_empty_document
  | _, _ => "files:" ++ String.concat "," (map fst files)
  end.

Definition demo_loads (text : string) : option Json :=
  if String.eqb text empty_document || String.eqb text indented_empty_document
  then Some (JObj [("files", JObj [])]) else None.

(** The model class has the method [copy] and the names that start with an
    underscore besides its fields; the latter can be assigned, the former
    is refused as no field. *)
Definition demo_hasattr (key : string) : bool :=
  String.prefix "_" key || String.eqb key "copy".

Definition demo_setattr (key : string) : option exn :=
  if String.prefix "_" key then None
  else Some (ValueError (dq ++ "FileData" ++ dq ++ " object has no field "
                         ++ dq ++ key ++ dq)).

Definition demo_env : Env :=
  mkEnv (fun bytes => "sha3-" ++ bytes)
        demo_loads
        (fun _ => None)
        demo_dump
        (fun _ => "2025-01-01T00:00:00Z")
        (fun n => "drive-" ++ str_of_Z (Z.of_nat n))
        (fun _ _ => inr "text of the image")
        (fun _ => inr "text of the document")
        (fun _ => inr "summary of the text")
        "LLMDocumentStore"
        "/data/local_storage"
        (inr tt)
        demo_hasattr
        demo_setattr.

(** The same world with the OCR service out of order. *)
Definition failing_env : Env :=
  mkEnv (sha3_256 demo_env) (json_loads demo_env) (validate_FileData demo_env)
        (model_dump_json demo_env) (clock demo_env) (drive_id demo_env)
        (fun _ _ => inl (ServiceError "vision model unavailable"))
        (fun _ => inl (ServiceError "OCR service unavailable"))
        (chat_model demo_env)
        (base_prefix demo_env) (storage_folder demo_env)
        (oauth_credentials demo_env) (hasattr_FileData demo_env)
        (setattr_FileData demo_env).

Definition empty_state : State :=
  mkState [] [] false false None [] false false None 0 [] [].

Definition demo_file : FileData :=
  mkFileData "/data/local_storage/files/sha3-hello_a.pdf" "a.pdf"
             "application/pdf" 5 "2025-01-01T00:00:00+00:00" None None.

(** An initialised adapter that knows one file, [sha3-hello]. *)
Definition one_file_state : State :=
  mkState [("sha3-hello", demo_file)] [] true true
          (Some "files:sha3-hello")
          [("/data/local_storage/files/sha3-hello_a.pdf", "hello")]
          true true None 1 [] [].

Definition drive_file : FileData :=
  mkFileData "drive-0" "a.pdf" "application/pdf" 5
             "2025-01-01T00:00:00+00:00" None None.

(** The same for the Drive adapter; the remote document lists the file. *)
Definition drive_state : State :=
  mkState [("sha3-hello", drive_file)] [] true true
          (Some "files:sha3-hello") [("drive-0", "hello")]
          true true None 1 [] [].

(** A file whose text was extracted by an earlier pipeline run: the lock
    exists and is free, the summary is still unset. *)
Definition extracted_file : FileData :=
  mkFileData "/data/local_storage/files/sha3-hello_a.pdf" "a.pdf"
             "application/pdf" 5 "2025-01-01T00:00:00+00:00"
             (Some "text of the document") None.

Definition idle_state : State :=
  mkState [("sha3-hello", extracted_file)] [("sha3-hello", false)] true true
          (Some "files:sha3-hello")
          [("/data/local_storage/files/sha3-hello_a.pdf", "hello")]
          true true None 1 [] [].

Definition hello_pdf : RawFileData := mkRaw "hello" "a.pdf" "application/pdf".

(** An object-store adapter before its first call: the cache file on disk
    still lists a file, the remote metadata object exists and is empty. *)
Definition stale_state : State :=
  mkState [("sha3-hello", demo_file)] [] false false
          (Some EmptyString) [] false false None 0 [] [].

(** ** Vocabulary of the properties *)

(** A relation between the state before a call and the state it leaves,
    whatever the outcome. *)
Definition respects (R : State -> State -> Prop) {A} (c : M A) : Prop :=
  forall st, R st (final_state (c st)).

Definition same_locks (st st' : State) : Prop :=
  processing_locks st' = processing_locks st.

Definition same_tasks (st st' : State) : Prop := tasks st' = tasks st.

(** Once the flag is set, the entry of every method is a test and nothing
    more (the Drive adapter also holds a client object from then on). *)
Definition entered (a : Adapter) (st : State) : State :=
  match a with GDrive => with_drive_service true st | _ => st end.

(** The state of the cache and of the remote document after a mutation
    that published: the newest event is the write of the remote document,
    the one before it the change of the cache, and the document is the
    serialisation of the whole cache. *)
Definition published (E : Env) (a : Adapter) (st' : State) : Prop :=
  remote_meta st' = Some (model_dump_json E (indent_of a) (file_cache st')) /\
  exists rest,
    trace st'
    = EvRemoteWrite (model_dump_json E (indent_of a) (file_cache st'))
      :: EvCacheCommit (file_cache st') :: rest.

(** The statements of [add_file] before the test on the lock table. *)
Definition add_file_prefix (E : Env) (a : Adapter) (raw : RawFileData) : M FileData :=
  ensure_ready E a ;;;
  cache <- cache_read ;;
  match dict_get cache (sha3_256 E (content raw)) with
  | None =>
      fd <- store_object E a (sha3_256 E (content raw)) raw ;;
      add_file_data E a (sha3_256 E (content raw)) fd ;;;
      ret fd
  | Some fd => ret fd
  end.

Definition same_uploads (st st' : State) : Prop := uploads st' = uploads st.

(** The updates that name a field of [FileData]. *)
Definition is_field (u : Update) : bool :=
  match u with U_other _ => false | _ => true end.

(** The process is started again: the adapter object is new (no flag, no
    client, no locks, no tasks), the cache file and the medium are as the
    last process left them. *)
Definition restarted (st : State) : State :=
  mkState (file_cache st) [] false false (remote_meta st) (objects st)
          (main_folder st) (files_folder st) (fault st) (next_id st) []
          (trace st).


Definition keeps_unique (st st' : State) : Prop :=
  unique_keys (file_cache st) -> unique_keys (file_cache st').

(** Inside an initialised adapter nothing but [add_file_data] changes the
    cache. *)
Definition cache_kept (st st' : State) : Prop :=
  initialized st = true ->
  file_cache st' = file_cache st /\ initialized st' = true.

(** The effect of a call on the cache of an initialised adapter: nothing,
    or the assignment of one entry that needed the derivation. *)
Definition cache_step (c : string) (ep : Process) (st st' : State) : Prop :=
  initialized st' = true /\
  (file_cache st' = file_cache st \/
   exists fd fd',
     dict_get (file_cache st) c = Some fd /\
     needs_derivation ep fd = true /\
     (coherent fd -> coherent fd') /\
     file_cache st' = dict_set (file_cache st) c fd').

(** The states the pipeline moves through: the adapter is initialised and
    every entry is coherent. *)
Definition derived_well (st : State) : Prop :=
  initialized st = true /\
  forall c fd, dict_get (file_cache st) c = Some fd -> coherent fd.

Definition is_cache_commit (e : Event) : bool :=
  match e with EvCacheCommit _ => true | _ => false end.

(** What holds of the object-store adapter between any two steps: a task
    inside the body holds the layout lock, there is at most one such task,
    the flag is down while the lock is held, and the body has returned at
    most once, raising the flag when it did. *)
Record s3_invariant (sys : Sys) : Prop := mk_s3_invariant {
  running_holds_lock :
    forall i, nth_error (pcs sys) i = Some Running -> layout_lock sys = true;
  running_alone :
    forall i j, nth_error (pcs sys) i = Some Running ->
                nth_error (pcs sys) j = Some Running -> i = j;
  lock_before_flag :
    layout_lock sys = true -> initialized (shared sys) = false;
  completed_once :
    completed sys = 0 \/ (completed sys = 1 /\ initialized (shared sys) = true)
}.

(** ** Vocabulary of the further properties *)

(** Calls of the two collaborators recorded in the log. *)
Definition is_collaborator_call (e : Event) : bool :=
  match e with EvOcrCall _ | EvSummaryCall => true | _ => false end.

Definition collaborator_calls (st : State) : list Event :=
  filter is_collaborator_call (trace st).

Definition is_remote_write (e : Event) : bool :=
  match e with EvRemoteWrite _ => true | _ => false end.

Definition remote_writes (st : State) : list Event :=
  filter is_remote_write (trace st).

(** What a download after [add_file] relies on from the tasks that ran in
    between: the adapter stays initialised, the stored objects stay, and
    every entry keeps its reference, name and MIME type. *)
Record steady (others : State -> State) : Prop := mk_steady {
  steady_initialized :
    forall st, initialized st = true -> initialized (others st) = true;
  steady_objects : forall st, objects (others st) = objects st;
  steady_entries :
    forall st c fd,
      dict_get (file_cache st) c = Some fd ->
      exists fd',
        dict_get (file_cache (others st)) c = Some fd' /\
        file_reference fd' = file_reference fd /\
        name fd' = name fd /\
        mime_type fd' = mime_type fd
}.

Definition same_objects (st st' : State) : Prop := objects st' = objects st.

(** A call that never waits on a lock: from every state it returns or
    raises. *)
Definition never_waits {A} (c : M A) : Prop :=
  forall st, match c st with Blocked _ => False | _ => True end.

(** The statuses of an endpoint that answers. *)
Definition answers (s : option Z) : Prop := s = Some 200%Z \/ s = Some 500%Z.

(** The statements of [ensure_ocr] under [if ensure_process in ["ocr",
    "summary"]]. *)
Definition ensure_ocr_run (E : Env) (a : Adapter) (c : string) (ep : Process)
           (raw : option RawFileData) : M unit :=
  file <- cache_read ;;
  match dict_get file c with
  | None => raise (no_file c)
  | Some _ =>
      create_lock c ;;; acquire c ;;;
      derivation E a c ep raw ;;; release c
  end.

Definition same_calls (st st' : State) : Prop :=
  collaborator_calls st' = collaborator_calls st.

(** An initialised adapter with nothing stored. *)
Definition ready_state : State :=
  mkState [] [] true true (Some empty_document) [] true true None 0 [] [].

(** A world whose parser knows two more documents: one that lists the
    file [sha3-hello] with a metadata object, one that lists it with a
    string in place of the object; the validator accepts every non-empty
    object. *)
Definition listing_env : Env :=
  mkEnv (sha3_256 demo_env)
        (fun text =>
           if String.eqb text "files:sha3-hello"
           then Some (JObj [("files",
                             JObj [("sha3-hello",
                                    JObj [("name", JStr "a.pdf")])])])
           else if String.eqb text "files:broken"
           then Some (JObj [("files", JObj [("sha3-hello", JStr "a.pdf")])])
           else json_loads demo_env text)
        (fun kv => match kv with [] => None | _ => Some demo_file end)
        (model_dump_json demo_env) (clock demo_env) (drive_id demo_env)
        (vision_model demo_env) (mistral_ocr demo_env) (chat_model demo_env)
        (base_prefix demo_env) (storage_folder demo_env)
        (oauth_credentials demo_env) (hasattr_FileData demo_env)
        (setattr_FileData demo_env).

(** A world whose serialisation shows the summary of each file beside its
    checksum, and whose validator answers the metadata of the Drive file. *)
Definition ledger_dump (_ : option nat) (files : dict FileData) : string :=
  match files with
  | [] => empty_document
  | _ =>
      "files:"
      ++ String.concat ","
           (map (fun kv =>
                   match summary (snd kv) with
                   | Some text => fst kv ++ "=" ++ text
                   | None => fst kv
                   end) files)
  end.

Definition ledger_env : Env :=
  mkEnv (sha3_256 demo_env) (json_loads listing_env)
        (fun kv => match kv with [] => None | _ => Some drive_file end)
        ledger_dump (clock demo_env) (drive_id demo_env)
        (vision_model demo_env) (mistral_ocr demo_env) (chat_model demo_env)
        (base_prefix demo_env) (storage_folder demo_env)
        (oauth_credentials demo_env) (hasattr_FileData demo_env)
        (setattr_FileData demo_env).

(** A local adapter before its first call, with a stale entry in its cache
    file and the given text in [file_metadata.json]. *)
Definition cold_state (text : string) : State :=
  mkState [("sha3-stale", demo_file)] [] false false (Some text) []
          true true None 0 [] [].

(** An object store that answers the first read with a client error. *)
Definition faulty_state (code : string) : State :=
  mkState [("sha3-stale", demo_file)] [] false false None []
          false false (Some code) 0 [] [].

(** Link services for the examples: Drive grants access and knows a view
    link only. *)
Definition demo_links : Links :=
  mkLinks (fun key file => inr ("https://s3.example/" ++ key))
          (fun _ => inr tt)
          (fun id => inr (None, Some ("https://drive.example/view/" ++ id))).

(** The four tests of [upload_file], in the order of the code: a content
    type of at least one character, a size other than zero, at most 5 MiB,
    and a MIME type that is PDF or starts with [image/]. *)
Definition accepted (file : UploadFile) : bool :=
  truthy_str (content_type file)
  && truthy_int (upload_size file)
  && match upload_size file with
     | Some z => negb (Z.ltb max_upload_size z)
     | None => false
     end
  && match content_type file with
     | Some ct => supported_mime ct
     | None => false
     end.

(** The raw file [upload_file] hands to [add_file]. *)
Definition raw_of_upload (file : UploadFile) : RawFileData :=
  mkRaw (upload_bytes file)
        (match filename file with
         | Some n => if is_empty n then "uploaded_file" else n
         | None => "uploaded_file"
         end)
        (match content_type file with Some ct => ct | None => EmptyString end).

(** A plain-text upload, for the examples. *)
Definition notes_txt : RawFileData := mkRaw "hello" "notes.txt" "text/plain".


(** A provider that exchanges a redirect for credentials over [https://]
    only, a rendering of credentials, a manager with one login under way,
    a digest that keeps its input readable, and an email with three
    attachments, the second of which could not be stored. *)
Definition demo_fetch (flow uri : string) : exn + string :=
  if String.prefix "https://" uri then inr ("token-of-" ++ flow)
  else inl (ServiceError "insecure transport").

Definition demo_to_json (credentials : string) : string :=
  "{" ++ credentials ++ "}".

Definition demo_auth : AuthState := mkAuth [("loc-1", "flow-1")] [] [].

Definition demo_digest (user_id : string) (scopes : list string) : string :=
  user_id ++ ":" ++ String.concat "," scopes.

Definition demo_email : Email :=
  mkEmail "m1" "ann@example.org" "2025-01-01 10:00:00"
          [mkAttachment "a.pdf" (Some "sha3-a") 10;
           mkAttachment "b.bin" None 3;
           mkAttachment "c.png" (Some "sha3-c") 7]
          None "Hello".

Definition demo_summary (k : nat) (c : string) : string := "summary of " ++ c.

(** * Properties *)

(** ** Dictionaries *)
Section DictFacts.
Context {V : Type}.
Implicit Types (d : dict V) (k : string) (v : V).

Lemma dict_get_set_same d k v : dict_get (dict_set d k v) k = Some v.
Proof.
  induction d as [|[k' v'] r IH]; simpl.
  - now rewrite String.eqb_refl.
  - destruct (String.eqb k' k) eqn:Hk; simpl; rewrite Hk; auto.
Qed.

Lemma dict_get_set_other d k k' v :
  k' <> k -> dict_get (dict_set d k v) k' = dict_get d k'.
Proof.
  intros Hne. induction d as [|[k0 v0] r IH]; simpl.
  - destruct (String.eqb k k') eqn:Hk; auto.
    apply String.eqb_eq in Hk. congruence.
  - destruct (String.eqb k0 k) eqn:Hk; simpl.
    + apply String.eqb_eq in Hk. subst k0.
      destruct (String.eqb k k') eqn:Hk'; auto.
      apply String.eqb_eq in Hk'. congruence.
    + destruct (String.eqb k0 k'); auto.
Qed.

Lemma dict_get_del_same d k : dict_get (dict_del d k) k = None.
Proof.
  induction d as [|[k' v'] r IH]; simpl; auto.
  destruct (String.eqb k' k) eqn:Hk; simpl; auto. now rewrite Hk.
Qed.

Lemma dict_get_del_other d k k' :
  k' <> k -> dict_get (dict_del d k) k' = dict_get d k'.
Proof.
  intros Hne. induction d as [|[k0 v0] r IH]; simpl; auto.
  destruct (String.eqb k0 k) eqn:Hk; simpl.
  - apply String.eqb_eq in Hk. subst k0.
    destruct (String.eqb k k') eqn:Hk'; auto.
    apply String.eqb_eq in Hk'. congruence.
  - destruct (String.eqb k0 k'); auto.
Qed.

Lemma dict_mem_get d k : dict_mem d k = true <-> exists v, dict_get d k = Some v.
Proof.
  unfold dict_mem. destruct (dict_get d k); split; intros H; eauto.
  - discriminate.
  - destruct H. discriminate.
Qed.

Lemma dict_mem_false d k : dict_mem d k = false <-> dict_get d k = None.
Proof.
  unfold dict_mem. destruct (dict_get d k); split; intros H; congruence.
Qed.
End DictFacts.

(** ** Relations every step of a call respects *)
Section Respects.
Variable R : State -> State -> Prop.
Hypothesis R_refl : forall st, R st st.
Hypothesis R_trans : forall s1 s2 s3, R s1 s2 -> R s2 s3 -> R s1 s3.

Lemma respects_ret {A} (a : A) : respects R (ret a).
Proof. intros st. apply R_refl. Qed.

Lemma respects_raise {A} (e : exn) : respects R (@raise A e).
Proof. intros st. apply R_refl. Qed.

Lemma respects_gets {A} (f : State -> A) : respects R (gets f).
Proof. intros st. apply R_refl. Qed.

Lemma respects_lift {A} (r : exn + A) : respects R (lift r).
Proof. destruct r; intros st; apply R_refl. Qed.

Lemma respects_modify (g : State -> State) :
  (forall st, R st (g st)) -> respects R (modify g).
Proof. intros H st. apply H. Qed.

Lemma respects_bind {A B} (c : M A) (k : A -> M B) :
  respects R c -> (forall a, respects R (k a)) -> respects R (bind c k).
Proof.
  intros Hc Hk st. unfold bind. specialize (Hc st).
  destruct (c st) as [st' a|st' e|st']; simpl in *; auto.
  eapply R_trans; [exact Hc | apply Hk].
Qed.

Lemma respects_try {A} (c : M A) (h : exn -> option (M A)) :
  respects R c -> (forall e k, h e = Some k -> respects R k) ->
  respects R (try_except c h).
Proof.
  intros Hc Hh st. unfold try_except. specialize (Hc st).
  destruct (c st) as [st' a|st' e|st']; simpl in *; auto.
  destruct (h e) as [k|] eqn:He; simpl; auto.
  eapply R_trans; [exact Hc | eapply Hh; eauto].
Qed.
End Respects.

Lemma respects_s3_get_metadata R :
  (forall st, R st st) -> respects R s3_get_metadata.
Proof.
  intros Hr st. unfold s3_get_metadata.
  destruct (fault st); [apply Hr|]. destruct (remote_meta st); apply Hr.
Qed.

(** Walks through the code of a method down to its elementary steps;
    [leaf] closes the obligations on the state updates and [special] is
    tried first on every piece of code. *)
Ltac walk_gen refl trans leaf special :=
  repeat first
    [ special
    | apply (respects_ret _ refl)
    | apply (respects_raise _ refl)
    | apply (respects_gets _ refl)
    | apply (respects_lift _ refl)
    | apply (respects_s3_get_metadata _ refl)
    | apply (respects_bind _ trans); [| intros ?]
    | apply (respects_try _ trans);
      [| let e := fresh "e" in let k := fresh "k" in let H := fresh "H" in
         intros e k H; destruct e; simpl in H; inversion H; subst; clear H]
    | apply respects_modify; intros ?; leaf
    | match goal with
      | |- respects _ (match ?x with _ => _ end) => destruct x
      | |- respects _ (let _ := _ in _) => cbv zeta
      end
    | progress unfold
        cache_read, cache_commit, summarize_document, process_document,
        get_cached_file_data, get_file_data_with, file_exists, loads,
        install_metadata, s3_init_body, s3_ensure_layout, s3_push_metadata,
        s3_add_file_data, local_save_metadata, local_init_body,
        local_ensure_folder_structure, local_add_file_data,
        gdrive_ensure_folder_structure, get_drive_service,
        gdrive_push_metadata, gdrive_add_file_data, ensure_ready,
        add_file_data, fetch_object, download_file, derive, update_in_cache,
        remove_from_cache, now, store_object ].

Ltac walk refl trans leaf := walk_gen refl trans leaf ltac:(fail).

(** *** The lock table and the task list are touched by nothing but the
    lock operations and [create_task] *)
Lemma same_locks_refl st : same_locks st st.
Proof. reflexivity. Qed.

Lemma same_locks_trans s1 s2 s3 :
  same_locks s1 s2 -> same_locks s2 s3 -> same_locks s1 s3.
Proof. unfold same_locks. congruence. Qed.

Lemma same_tasks_refl st : same_tasks st st.
Proof. reflexivity. Qed.

Lemma same_tasks_trans s1 s2 s3 :
  same_tasks s1 s2 -> same_tasks s2 s3 -> same_tasks s1 s3.
Proof. unfold same_tasks. congruence. Qed.

Ltac walk_locks := walk same_locks_refl same_locks_trans ltac:(reflexivity).
Ltac walk_tasks := walk same_tasks_refl same_tasks_trans ltac:(reflexivity).

Section LockFrames.
Variable E : Env.

Lemma ensure_ready_locks a : respects same_locks (ensure_ready E a).
Proof. destruct a; walk_locks. Qed.

Lemma add_file_data_locks a c fd : respects same_locks (add_file_data E a c fd).
Proof. destruct a; walk_locks. Qed.

Lemma download_file_locks a c : respects same_locks (download_file E a c).
Proof. destruct a; walk_locks. Qed.

Lemma store_object_locks a c raw : respects same_locks (store_object E a c raw).
Proof. destruct a; walk_locks. Qed.

Lemma derive_locks ep raw fd : respects same_locks (derive E ep raw fd).
Proof. walk_locks. Qed.

Lemma get_cached_locks c : respects same_locks (get_cached_file_data c).
Proof. walk_locks. Qed.

Lemma ensure_ready_tasks a : respects same_tasks (ensure_ready E a).
Proof. destruct a; walk_tasks. Qed.

Lemma add_file_data_tasks a c fd : respects same_tasks (add_file_data E a c fd).
Proof. destruct a; walk_tasks. Qed.

Lemma store_object_tasks a c raw : respects same_tasks (store_object E a c raw).
Proof. destruct a; walk_tasks. Qed.
End LockFrames.

(** ** Generic facts on calls *)
Lemma bind_ok {A B} (c : M A) (k : A -> M B) st st' b :
  bind c k st = Ok st' b ->
  exists st1 a, c st = Ok st1 a /\ k a st1 = Ok st' b.
Proof.
  unfold bind. destruct (c st) as [st1 a|st1 e|st1]; try discriminate.
  intros H. eauto.
Qed.

Lemma bind_of_ok {A B} (c : M A) (k : A -> M B) st st1 a :
  c st = Ok st1 a -> bind c k st = k a st1.
Proof. unfold bind. intros ->. reflexivity. Qed.

(** Unfolds the plumbing of the monad. *)
Ltac run :=
  cbv beta iota zeta delta [bind gets modify ret raise try_except lift].

Section Bootstrapped.
Variable E : Env.

(** The Drive client: the credentials are asked for when there is neither
    a client nor a raised flag, and the folders are set up when the flag is
    down. *)
Lemma get_drive_service_unfold st :
  get_drive_service E st
  = match (if drive_service st || initialized st then inr tt
           else oauth_credentials E) with
    | inl e => Raise st e
    | inr _ =>
        if initialized st then Ok (with_drive_service true st) tt
        else (gdrive_ensure_folder_structure E ;;;
              modify (with_initialized true)) (with_drive_service true st)
    end.
Proof.
  unfold get_drive_service. run.
  destruct (drive_service st || initialized st); simpl;
    [|destruct (oauth_credentials E) as [e|[]]; simpl];
    try reflexivity; destruct (initialized st); reflexivity.
Qed.

Lemma ensure_ready_initialized a st :
  initialized st = true -> ensure_ready E a st = Ok (entered a st) tt.
Proof.
  intros Hi. destruct a; simpl;
    unfold s3_ensure_layout, get_drive_service, local_ensure_folder_structure,
           bind, gets, modify, ret; simpl; rewrite Hi, ?orb_true_r; simpl;
    rewrite ?Hi; reflexivity.
Qed.

Lemma ensure_ready_ok a st st' u :
  ensure_ready E a st = Ok st' u -> initialized st' = true.
Proof.
  destruct a; simpl.
  - unfold s3_ensure_layout, bind at 1, gets.
    destruct (initialized st) eqn:Hi; [intros H; inversion H; subst; auto|].
    unfold bind at 1. rewrite Hi. unfold s3_init_body. intros H.
    apply bind_ok in H. destruct H as (st1 & [] & _ & H).
    inversion H; reflexivity.
  - rewrite get_drive_service_unfold.
    destruct (if drive_service st || initialized st then inr tt
              else oauth_credentials E) as [e|[]]; [discriminate|].
    destruct (initialized st) eqn:Hi.
    + intros H; inversion H; subst; simpl; auto.
    + intros H. apply bind_ok in H. destruct H as (st1 & [] & _ & H).
      inversion H; reflexivity.
  - unfold local_ensure_folder_structure, bind at 1, gets.
    destruct (initialized st) eqn:Hi; [intros H; inversion H; subst; auto|].
    unfold local_init_body. intros H.
    apply bind_ok in H. destruct H as (st1 & [] & _ & H).
    apply bind_ok in H. destruct H as (st2 & x & _ & H).
    apply bind_ok in H. destruct H as (st3 & [] & _ & H).
    inversion H; reflexivity.
Qed.
End Bootstrapped.

(** ** Listing *)

(** C10.  For every adapter, every state and every two queries,
    [search_files] gives the same outcome: the query is never looked at.
    The call returns whenever the entry of the adapter returns, so on
    every initialised adapter, and its answer is the whole cache as it is
    then: every entry, in the order of the cache, each with the state of
    its processing lock. *)
Theorem search_files_ignores_query E a q1 q2 st :
  search_files E a q1 st = search_files E a q2 st /\
  (forall st0,
     ensure_ready E a st = Ok st0 tt ->
     search_files E a q1 st
     = Ok st0 (map (fun kv => mkResponse (fst kv)
                                (is_locked (processing_locks st0) (fst kv))
                                (snd kv))
                   (file_cache st0))) /\
  (initialized st = true ->
   exists answer,
     search_files E a q1 st = Ok (entered a st) answer /\
     map (fun r => (checksum r, file_data r)) answer = dict_items (file_cache st) /\
     map is_processing answer
     = map (fun kv => is_locked (processing_locks st) (fst kv)) (file_cache st)) /\
  (forall st' answer,
     search_files E a q1 st = Ok st' answer ->
     map (fun r => (checksum r, file_data r)) answer = dict_items (file_cache st') /\
     map is_processing answer
     = map (fun kv => is_locked (processing_locks st') (fst kv))
           (file_cache st')).
Proof.
  assert (Hlist : forall (cache : dict FileData) locks,
    map (fun r => (checksum r, file_data r))
        (map (fun kv => mkResponse (fst kv) (is_locked locks (fst kv)) (snd kv))
             cache) = cache /\
    map is_processing
        (map (fun kv => mkResponse (fst kv) (is_locked locks (fst kv)) (snd kv))
             cache)
    = map (fun kv => is_locked locks (fst kv)) cache).
  { intros cache locks. rewrite !map_map. simpl. split; [|reflexivity].
    induction cache as [|[k v] r IH]; simpl; congruence. }
  assert (Hret : forall st0,
    ensure_ready E a st = Ok st0 tt ->
    search_files E a q1 st
    = Ok st0 (map (fun kv => mkResponse (fst kv)
                               (is_locked (processing_locks st0) (fst kv))
                               (snd kv))
                  (file_cache st0))).
  { intros st0 H. unfold search_files.
    rewrite (bind_of_ok _ _ _ _ _ H). reflexivity. }
  split; [reflexivity|]. split; [exact Hret|]. split.
  - intros Hi. eexists.
    split; [exact (Hret _ (ensure_ready_initialized E a st Hi))|].
    assert (Hc : file_cache (entered a st) = file_cache st)
      by (destruct a; reflexivity).
    assert (Hl : processing_locks (entered a st) = processing_locks st)
      by (destruct a; reflexivity).
    rewrite Hc, Hl. apply Hlist.
  - intros st' answer H. unfold search_files in H.
    apply bind_ok in H. destruct H as (st0 & [] & _ & H).
    unfold cache_read in H. revert H. run. intros H.
    inversion H; subst. apply Hlist.
Qed.

Lemma search_files_ignores_query_witness :
  initialized one_file_state = true /\
  search_files demo_env Local (mkQuery 1 ["zebra"] None None None) one_file_state
  = Ok one_file_state [mkResponse "sha3-hello" false demo_file].
Proof.
  split; [reflexivity|].
  destruct (search_files_ignores_query demo_env Local
              (mkQuery 1 ["zebra"] None None None) default_query one_file_state)
    as (_ & H & _).
  exact (H one_file_state eq_refl).
Defined.

(** ** The upload endpoint *)

(** Every upload the specification wants rejected leaves the handler as an
    [HTTPException] of status 500: the 400 raised by the checks is caught by
    the handler's own [except Exception]. *)
Lemma rejected_upload_is_500 E others a file ep st :
  must_reject file = true ->
  status_of (upload_file E others a file ep st) = Some 500%Z.
Proof.
  intros H. unfold upload_file, try_except, upload_file_body, must_reject in *.
  destruct (content_type file) as [ct|]; simpl; [|reflexivity].
  destruct (is_empty ct) eqn:Hct; simpl; [reflexivity|].
  destruct (upload_size file) as [z|]; simpl; [|reflexivity].
  destruct (Z.eqb z 0); simpl; [reflexivity|].
  destruct (Z.ltb max_upload_size z); simpl; [reflexivity|].
  simpl in H. rewrite H. reflexivity.
Qed.

(** No outcome of the handler carries status 400. *)
Lemma upload_file_never_400 E others a file ep st :
  status_of (upload_file E others a file ep st) <> Some 400%Z.
Proof.
  unfold upload_file, try_except.
  destruct (upload_file_body E others a file ep st); simpl; discriminate.
Qed.

(** C3 (fails on the code).  The ten bytes of plain text that the
    specification expects to be answered with 400 are answered with 500,
    on every adapter, at every level and in every state. *)
Theorem plain_text_upload_is_500 E others a ep st :
  status_of
    (upload_file E others a
       (mkUpload "0123456789" (Some "notes.txt") (Some "text/plain")
                 (Some 10%Z))
       ep st)
  = Some 500%Z.
Proof. apply rejected_upload_is_500. reflexivity. Qed.

(** ** Deletion and publication of the metadata *)

Section Mutations.
Variable E : Env.

Lemma add_file_data_published a c fd st st' :
  add_file_data E a c fd st = Ok st' tt -> published E a st'.
Proof.
  destruct a; simpl;
    unfold s3_add_file_data, gdrive_add_file_data, local_add_file_data; intros H.
  - apply bind_ok in H. destruct H as (st1 & [] & _ & H).
    inversion H; subst; clear H. split; simpl; eauto.
  - apply bind_ok in H. destruct H as (st1 & [] & _ & H).
    inversion H; subst; clear H. split; simpl; eauto.
  - inversion H; subst; clear H. split; simpl; eauto.
Qed.

Lemma add_file_data_entry a c fd st st' :
  add_file_data E a c fd st = Ok st' tt ->
  dict_get (file_cache st') c = Some fd.
Proof.
  destruct a; simpl;
    unfold s3_add_file_data, gdrive_add_file_data, local_add_file_data; intros H.
  - apply bind_ok in H. destruct H as (st1 & [] & _ & H).
    inversion H; subst; clear H. simpl. apply dict_get_set_same.
  - apply bind_ok in H. destruct H as (st1 & [] & _ & H).
    inversion H; subst; clear H. simpl. apply dict_get_set_same.
  - inversion H; subst; clear H. simpl. apply dict_get_set_same.
Qed.

Lemma update_in_cache_ok c updates st st' :
  update_in_cache E c updates st = Ok st' tt ->
  exists files, st' = with_cache files st.
Proof.
  unfold update_in_cache, bind, cache_read, gets, cache_commit, modify, lift.
  destruct (dict_get (file_cache st) c); [|discriminate].
  destruct (apply_updates E f updates); simpl; [discriminate|].
  unfold ret. intros H; inversion H; eauto.
Qed.

Lemma update_file_data_published a c updates st st' :
  (a = GDrive -> initialized st = true) ->
  update_file_data E a c updates st = Ok st' tt -> published E a st'.
Proof.
  destruct a; simpl; intros Hi H.
  - apply bind_ok in H. destruct H as (st1 & [] & _ & H).
    apply bind_ok in H. destruct H as (st2 & [] & Hu & H).
    apply update_in_cache_ok in Hu. destruct Hu as (files & ->).
    inversion H; subst; clear H. split; simpl; eauto.
  - apply bind_ok in H. destruct H as (st2 & [] & Hu & H).
    apply update_in_cache_ok in Hu. destruct Hu as (files & ->).
    apply bind_ok in H. destruct H as (st3 & cache & Hc & H).
    inversion Hc; subst; clear Hc.
    apply bind_ok in H. destruct H as (st4 & [] & Hs & H).
    change (get_drive_service E) with (ensure_ready E GDrive) in Hs.
    rewrite ensure_ready_initialized in Hs by (simpl; auto).
    inversion Hs; subst; clear Hs.
    inversion H; subst; clear H. split; simpl; eauto.
  - apply bind_ok in H. destruct H as (st2 & [] & Hu & H).
    apply update_in_cache_ok in Hu. destruct Hu as (files & ->).
    inversion H; subst; clear H. split; simpl; eauto.
Qed.
End Mutations.

Section Deletion.
Variable E : Env.

Lemma get_cached_ok c st st' fd :
  get_cached_file_data c st = Ok st' fd ->
  st' = st /\ dict_get (file_cache st) c = Some fd.
Proof.
  unfold get_cached_file_data, get_file_data_with, bind, cache_read, gets, ret, raise.
  destruct (dict_get (file_cache st) c); intros H; inversion H; auto.
Qed.

Lemma get_cached_known c st fd :
  dict_get (file_cache st) c = Some fd -> get_cached_file_data c st = Ok st fd.
Proof.
  unfold get_cached_file_data, get_file_data_with, bind, cache_read, gets, ret.
  intros ->. reflexivity.
Qed.

Lemma get_cached_unknown c st :
  dict_get (file_cache st) c = None ->
  get_cached_file_data c st = Raise st (no_file c).
Proof.
  unfold get_cached_file_data, get_file_data_with, bind, cache_read, gets, raise.
  intros ->. reflexivity.
Qed.

(** On the object store and on the local file system a deletion that
    returns has removed the object, removed the entry and published the
    cache; the entry deleted is the one the method found (on the object
    store, after the bootstrap it may have run). *)
Lemma delete_file_removes a c st st' :
  a <> GDrive -> delete_file E a c st = Ok st' tt ->
  file_exists c st' = Ok st' false /\
  get_file_data E a c P_none st' = Raise st' (no_file c) /\
  published E a st' /\
  exists st0 fd,
    match a with
    | S3 => s3_ensure_layout E st = Ok st0 tt
    | _ => st0 = st
    end /\
    dict_get (file_cache st0) c = Some fd /\
    dict_get (objects st') (file_reference fd) = None.
Proof.
  intros Ha H. destruct a; [| congruence |]; simpl in H.
  - apply bind_ok in H. destruct H as (st0 & [] & H0 & H).
    apply bind_ok in H. destruct H as (st1 & fd & Hg & H).
    apply get_cached_ok in Hg. destruct Hg as [-> Hfd].
    unfold bind, modify, remove_from_cache, cache_read, gets, cache_commit,
      s3_push_metadata in H. simpl in H.
    unfold dict_mem in H. rewrite Hfd in H.
    inversion H; subst; clear H.
    assert (Hdel : dict_get (dict_del (file_cache st0) c) c = None)
      by apply dict_get_del_same.
    repeat split.
    + unfold file_exists, bind, cache_read, gets, ret, dict_mem. simpl.
      now rewrite Hdel.
    + unfold get_file_data, get_file_data_with, bind, cache_read, gets, raise.
      simpl. now rewrite Hdel.
    + simpl. eauto.
    + exists st0, fd. simpl. repeat split; auto. apply dict_get_del_same.
  - apply bind_ok in H. destruct H as (st1 & fd & Hg & H).
    apply get_cached_ok in Hg. destruct Hg as [-> Hfd].
    assert (Hdel : dict_get (dict_del (file_cache st) c) c = None)
      by apply dict_get_del_same.
    unfold bind, modify, remove_from_cache, cache_read, gets, cache_commit,
      local_save_metadata, ret in H. simpl in H.
    destruct (dict_mem (objects st) (file_reference fd)) eqn:Hm; simpl in H;
      unfold dict_mem in H; rewrite Hfd in H; inversion H; subst; clear H;
      (repeat split;
       [ unfold file_exists, bind, cache_read, gets, ret, dict_mem; simpl;
         now rewrite Hdel
       | unfold get_file_data, get_file_data_with, bind, cache_read, gets, raise;
         simpl; now rewrite Hdel
       | simpl; eauto
       | ]).
    + exists st, fd. simpl. repeat split; auto. apply dict_get_del_same.
    + exists st, fd. simpl. repeat split; auto.
      now apply dict_mem_false.
Qed.

(** A checksum the cache does not know is refused by every adapter. *)
Lemma delete_file_unknown a c st :
  (a = S3 -> initialized st = true) ->
  dict_get (file_cache st) c = None ->
  delete_file E a c st = Raise st (no_file c).
Proof.
  intros Hi Hc. destruct a; simpl.
  - change (s3_ensure_layout E) with (ensure_ready E S3).
    rewrite (bind_of_ok _ _ _ _ _ (ensure_ready_initialized E S3 st (Hi eq_refl))).
    simpl. unfold bind. now rewrite get_cached_unknown.
  - unfold bind. now rewrite get_cached_unknown.
  - unfold bind. now rewrite get_cached_unknown.
Qed.

(** The Drive adapter looks the entry up and returns. *)
Lemma gdrive_delete_file_returns c st fd :
  dict_get (file_cache st) c = Some fd ->
  delete_file E GDrive c st = Ok st tt.
Proof.
  intros H. simpl. unfold bind. now rewrite (get_cached_known _ _ _ H).
Qed.
End Deletion.

(** C1 (fails on the code).  On the Drive adapter [delete_file] of a known
    checksum returns normally and changes nothing: the object is still on
    the medium, [file_exists] still answers true and [get_file_data] still
    returns the metadata. *)
Theorem gdrive_delete_file_keeps_file :
  delete_file demo_env GDrive "sha3-hello" drive_state = Ok drive_state tt /\
  file_exists "sha3-hello" drive_state = Ok drive_state true /\
  get_file_data demo_env GDrive "sha3-hello" P_none drive_state
  = Ok drive_state drive_file /\
  dict_get (objects drive_state) (file_reference drive_file) = Some "hello".
Proof. repeat split. Qed.

(** C4 (fails on the code).  A Drive adapter publishes a file, and the
    cache and the remote document agree.  The process is started again and
    the first call on the new adapter is [update_file_data], which sets the
    summary of the file.  The call returns; the remote document carries
    the summary, the cache does not: the bootstrap ran after the change of
    the cache and replaced it by the entries of the document, and the
    document was then overwritten with what the method had read before. *)
Theorem gdrive_update_overtaken_by_bootstrap :
  exists s0 s2,
    add_file_data ledger_env GDrive "sha3-hello" drive_file empty_state
    = Ok s0 tt /\
    published ledger_env GDrive s0 /\
    update_file_data ledger_env GDrive "sha3-hello" [U_summary (Some "short")]
                     (restarted s0)
    = Ok s2 tt /\
    file_cache s2 = [("sha3-hello", drive_file)] /\
    remote_meta s2
    = Some (model_dump_json ledger_env None
              [("sha3-hello", set_ocr drive_file None (Some "short"))]) /\
    remote_meta s2 <> Some (model_dump_json ledger_env None (file_cache s2)) /\
    ~ published ledger_env GDrive s2.
Proof.
  destruct (add_file_data ledger_env GDrive "sha3-hello" drive_file empty_state)
    as [s0 []| |] eqn:H0; try (vm_compute in H0; discriminate).
  destruct (update_file_data ledger_env GDrive "sha3-hello"
              [U_summary (Some "short")] (restarted s0))
    as [s2 []| |] eqn:H2;
    try (vm_compute in H0; inversion H0; subst; vm_compute in H2; discriminate).
  exists s0, s2. split; [first [reflexivity | exact H0]|].
  split; [exact (add_file_data_published ledger_env GDrive _ _ _ _ H0)|].
  split; [first [reflexivity | exact H2]|].
  vm_compute in H0. inversion H0; subst; clear H0.
  vm_compute in H2. inversion H2; subst; clear H2.
  split; [reflexivity|]. split; [reflexivity|].
  split; [discriminate|].
  intros [Hp _]. discriminate Hp.
Qed.

(** ** Scheduling of the pipeline by [add_file] *)
Section Scheduling.
Variable E : Env.

Lemma respects_ok {A} R (c : M A) st st' x :
  respects R c -> c st = Ok st' x -> R st st'.
Proof. intros Hr Hc. specialize (Hr st). now rewrite Hc in Hr. Qed.

Lemma respects_raised {A} R (c : M A) st st' e :
  respects R c -> c st = Raise st' e -> R st st'.
Proof. intros Hr Hc. specialize (Hr st). now rewrite Hc in Hr. Qed.

Lemma add_file_begin_prefix a raw ep st :
  add_file_begin E a raw ep st
  = (fd <- add_file_prefix E a raw ;;
     schedule (sha3_256 E (content raw)) ep raw ;;;
     ret (sha3_256 E (content raw), fd)) st.
Proof.
  unfold add_file_begin, add_file_prefix, bind.
  destruct (ensure_ready E a st) as [st1 []| |]; reflexivity.
Qed.

Lemma add_file_prefix_locks a raw : respects same_locks (add_file_prefix E a raw).
Proof.
  unfold add_file_prefix.
  apply (respects_bind _ same_locks_trans); [apply ensure_ready_locks | intros _].
  apply (respects_bind _ same_locks_trans); [walk_locks | intros cache].
  destruct (dict_get cache (sha3_256 E (content raw))); [walk_locks|].
  apply (respects_bind _ same_locks_trans); [apply store_object_locks | intros fd].
  apply (respects_bind _ same_locks_trans); [apply add_file_data_locks | intros _].
  walk_locks.
Qed.

Lemma add_file_prefix_tasks a raw : respects same_tasks (add_file_prefix E a raw).
Proof.
  unfold add_file_prefix.
  apply (respects_bind _ same_tasks_trans); [apply ensure_ready_tasks | intros _].
  apply (respects_bind _ same_tasks_trans); [walk_tasks | intros cache].
  destruct (dict_get cache (sha3_256 E (content raw))); [walk_tasks|].
  apply (respects_bind _ same_tasks_trans); [apply store_object_tasks | intros fd].
  apply (respects_bind _ same_tasks_trans); [apply add_file_data_tasks | intros _].
  walk_tasks.
Qed.

(** C6 (as amended).  When [add_file] reaches its [create_task] with a
    level other than none, it starts the pipeline exactly when the lock
    table has no entry for the checksum; an entry, held or free, keeps it
    from starting one. *)
Theorem add_file_schedules_without_lock_entry a raw ep st st' r :
  add_file_begin E a raw ep st = Ok st' r ->
  ep <> P_none ->
  tasks st'
  = if dict_mem (processing_locks st) (sha3_256 E (content raw))
    then tasks st
    else (tasks st ++ [mkTask (sha3_256 E (content raw)) ep raw])%list.
Proof.
  intros H Hep. rewrite add_file_begin_prefix in H.
  apply bind_ok in H. destruct H as (st1 & fd & Hp & H).
  pose proof (respects_ok _ _ _ _ _ (add_file_prefix_locks a raw) Hp) as Hl.
  pose proof (respects_ok _ _ _ _ _ (add_file_prefix_tasks a raw) Hp) as Ht.
  unfold same_locks in Hl. unfold same_tasks in Ht.
  apply bind_ok in H. destruct H as (st2 & [] & Hs & H).
  inversion H; subst; clear H.
  assert (Hne : negb (Process_eqb ep P_none) = true)
    by (destruct ep; auto; congruence).
  unfold schedule, bind, gets in Hs. rewrite Hl, Hne in Hs.
  destruct (dict_mem (processing_locks st) (sha3_256 E (content raw)));
    simpl in Hs; inversion Hs; subst; simpl; congruence.
Qed.
End Scheduling.

Lemma add_file_schedules_witness :
  exists st' r,
    add_file_begin demo_env Local hello_pdf P_ocr one_file_state = Ok st' r /\
    P_ocr <> P_none /\
    tasks st' = [mkTask "sha3-hello" P_ocr hello_pdf].
Proof.
  destruct (add_file_begin demo_env Local hello_pdf P_ocr one_file_state)
    as [st' r| |] eqn:H; try (vm_compute in H; discriminate).
  exists st', r. split; [reflexivity|]. split; [discriminate|].
  exact (add_file_schedules_without_lock_entry demo_env Local hello_pdf P_ocr
           one_file_state st' r H ltac:(discriminate)).
Defined.

(** C6 (as stated, refuted).  The text of the file was extracted earlier,
    its lock exists and is free, the summary is unset; [add_file] at level
    summary returns without starting the pipeline. *)
Lemma add_file_skips_free_lock :
  add_file demo_env (fun st => st) Local hello_pdf P_summary idle_state
  = Ok idle_state (mkResponse "sha3-hello" false extracted_file) /\
  is_locked (processing_locks idle_state) "sha3-hello" = false /\
  summary extracted_file = None /\
  tasks idle_state = [].
Proof. repeat split. Qed.

(** ** Failure of a collaborator inside the pipeline *)
Lemma bind_raise {A B} (c : M A) (k : A -> M B) st st' e :
  bind c k st = Raise st' e ->
  c st = Raise st' e \/ exists st1 a, c st = Ok st1 a /\ k a st1 = Raise st' e.
Proof.
  unfold bind. destruct (c st) as [st1 a|st1 e1|st1]; try discriminate.
  - intros H. right. eauto.
  - intros H. left. inversion H. reflexivity.
Qed.

Section PipelineFailure.
Variable E : Env.

Lemma derivation_locks a c ep raw : respects same_locks (derivation E a c ep raw).
Proof.
  unfold derivation.
  apply (respects_bind _ same_locks_trans); [apply get_cached_locks | intros fd].
  destruct (needs_derivation ep fd); [|walk_locks].
  apply (respects_bind _ same_locks_trans).
  { destruct raw; [walk_locks | apply download_file_locks]. }
  intros r. apply (respects_bind _ same_locks_trans).
  { destruct (supported_mime (raw_mime_type r)); [apply derive_locks | walk_locks]. }
  intros fd'. apply add_file_data_locks.
Qed.

Lemma is_locked_set locks c b : is_locked (dict_set locks c b) c = b.
Proof. unfold is_locked. now rewrite dict_get_set_same. Qed.

(** Whatever is raised once the lock is taken leaves the lock taken: the
    only [release] is the last statement of the method. *)
Lemma ensure_ocr_raise_keeps_lock a c ep raw st st' e :
  ensure_ocr E a c ep raw st = Raise st' e ->
  dict_get (file_cache st) c <> None ->
  is_locked (processing_locks st') c = true.
Proof.
  intros H Hc. unfold ensure_ocr in H.
  assert (Hrun :
    (file <- cache_read ;;
     match dict_get file c with
     | None => raise (no_file c)
     | Some _ =>
         create_lock c ;;; acquire c ;;;
         derivation E a c ep raw ;;; release c
     end) st = Raise st' e) by (destruct ep; [discriminate | exact H | exact H]).
  clear H. unfold bind at 1, cache_read, gets in Hrun.
  destruct (dict_get (file_cache st) c); [|congruence].
  apply bind_raise in Hrun. destruct Hrun as [Hr|(st1 & [] & Hl & Hrun)].
  { unfold create_lock, bind, gets, modify, ret in Hr.
    destruct (dict_mem (processing_locks st) c); discriminate. }
  apply bind_raise in Hrun. destruct Hrun as [Hr|(st2 & [] & Ha & Hrun)].
  { unfold acquire in Hr. destruct (is_locked (processing_locks st1) c); discriminate. }
  unfold acquire in Ha.
  destruct (is_locked (processing_locks st1) c); [discriminate|].
  inversion Ha; subst; clear Ha.
  apply bind_raise in Hrun. destruct Hrun as [Hr|(st3 & [] & _ & Hr)].
  - apply (respects_raised _ _ _ _ _ (derivation_locks a c ep raw)) in Hr.
    unfold same_locks in Hr. rewrite Hr. simpl. apply is_locked_set.
  - discriminate.
Qed.

(** A run that returns has released the lock. *)
Lemma ensure_ocr_ok_releases a c ep raw st st' :
  ensure_ocr E a c ep raw st = Ok st' tt -> ep <> P_none ->
  is_locked (processing_locks st') c = false.
Proof.
  intros H Hep. unfold ensure_ocr in H.
  assert (Hrun :
    (file <- cache_read ;;
     match dict_get file c with
     | None => raise (no_file c)
     | Some _ =>
         create_lock c ;;; acquire c ;;;
         derivation E a c ep raw ;;; release c
     end) st = Ok st' tt) by (destruct ep; [congruence | exact H | exact H]).
  clear H. unfold bind at 1, cache_read, gets in Hrun.
  destruct (dict_get (file_cache st) c); [|discriminate].
  apply bind_ok in Hrun. destruct Hrun as (st1 & [] & _ & Hrun).
  apply bind_ok in Hrun. destruct Hrun as (st2 & [] & _ & Hrun).
  apply bind_ok in Hrun. destruct Hrun as (st3 & [] & _ & Hrun).
  inversion Hrun; subst. simpl. apply is_locked_set.
Qed.
End PipelineFailure.

(** C2 (fails on the code).  The OCR service fails while the pipeline holds
    the lock of the checksum: the error reaches the caller, the lock stays
    held, and the next pipeline call for the checksum waits for it. *)
Theorem failed_derivation_keeps_lock :
  exists st',
    ensure_ocr failing_env Local "sha3-hello" P_ocr (Some hello_pdf)
               one_file_state
    = Raise st' (ServiceError "OCR service unavailable") /\
    is_locked (processing_locks one_file_state) "sha3-hello" = false /\
    is_locked (processing_locks st') "sha3-hello" = true /\
    ensure_ocr failing_env Local "sha3-hello" P_ocr (Some hello_pdf) st'
    = Blocked st' /\
    get_file_data failing_env Local "sha3-hello" P_ocr st' = Blocked st'.
Proof.
  destruct (ensure_ocr failing_env Local "sha3-hello" P_ocr (Some hello_pdf)
                       one_file_state) as [st' r|st' e|st'] eqn:H;
    vm_compute in H; try discriminate.
  exists st'. inversion H; subst. repeat split.
Qed.

(** ** Bootstrap *)

(** C8 (as amended).  An adapter that is not yet initialised and whose
    medium answers (on Drive: an adapter that has a client or can get the
    credentials for one).  When there is no metadata document, the
    bootstrap returns with an empty cache and has created the document,
    with the literal body on the object store and on Drive and with the
    indented text on the local file system.  When there is a document that
    does not parse (and, on the object store, is not empty), the bootstrap
    raises the parser's error, wrapped as a corrupted file on the local
    file system, and the cache, the document and the flag are as they
    were.  On the object store a document of no bytes is read as the
    literal: the bootstrap returns, the cache is empty and the document is
    left as it is. *)
Theorem bootstrap_absent_or_malformed E a st :
  initialized st = false ->
  fault st = None ->
  (a = GDrive -> drive_service st = false -> oauth_credentials E = inr tt) ->
  (a = Local -> model_dump_json E (Some 4%nat) [] = indented_empty_document) ->
  (a = S3 -> json_loads E empty_document = Some (JObj [("files", JObj [])])) ->
  (document_of a st = None ->
   exists st',
     ensure_ready E a st = Ok st' tt /\
     file_cache st' = [] /\
     remote_meta st' = Some (created_document a) /\
     initialized st' = true) /\
  (forall text,
     document_of a st = Some text ->
     json_loads E text = None ->
     (a = S3 -> text <> EmptyString) ->
     exists st',
       ensure_ready E a st = Raise st' (unparsable a) /\
       file_cache st' = file_cache st /\
       remote_meta st' = remote_meta st /\
       initialized st' = false) /\
  (a = S3 ->
   document_of a st = Some EmptyString ->
   exists st',
     ensure_ready E a st = Ok st' tt /\
     file_cache st' = [] /\
     remote_meta st' = Some EmptyString /\
     initialized st' = true).
Proof.
  destruct st as [fc pl ini ds rm ob mf ff fa ni tk tr]. simpl.
  intros -> -> Hcred Hdump Hlit. split; [|split].
  - intros Hd. destruct a; simpl in Hd.
    + subst rm. eexists. repeat split.
    + simpl. rewrite get_drive_service_unfold. simpl.
      assert (Hc : (if ds || false then inr tt else oauth_credentials E)
                   = inr tt).
      { destruct ds; [reflexivity|]. simpl. now apply Hcred. }
      rewrite Hc.
      destruct mf; [subst rm|]; eexists; repeat split.
    + subst rm. simpl.
      unfold local_ensure_folder_structure, local_init_body,
        local_save_metadata, cache_commit, cache_read.
      run. simpl. rewrite (Hdump eq_refl). eexists. repeat split.
  - intros text Hd Hj Hne. destruct a; simpl in Hd.
    + subst rm. destruct text as [|ch text']; [now elim (Hne eq_refl)|].
      simpl. unfold s3_ensure_layout, s3_init_body, s3_get_metadata, loads.
      run. simpl. rewrite Hj. eexists. repeat split.
    + destruct mf; [subst rm|discriminate]. simpl.
      rewrite get_drive_service_unfold. simpl.
      assert (Hc : (if ds || false then inr tt else oauth_credentials E)
                   = inr tt).
      { destruct ds; [reflexivity|]. simpl. now apply Hcred. }
      rewrite Hc.
      unfold gdrive_ensure_folder_structure, loads.
      run. simpl. rewrite Hj. eexists. repeat split.
    + subst rm. simpl.
      unfold local_ensure_folder_structure, local_init_body, loads.
      run. simpl. rewrite Hj. eexists. repeat split.
  - intros -> Hd. simpl in Hd. subst rm. simpl.
    unfold s3_ensure_layout, s3_init_body, s3_get_metadata, loads,
      install_metadata, cache_commit.
    run. simpl. rewrite (Hlit eq_refl). simpl. eexists. repeat split.
Qed.

Lemma bootstrap_witness :
  (exists st',
     ensure_ready demo_env Local empty_state = Ok st' tt /\
     file_cache st' = [] /\
     remote_meta st' = Some indented_empty_document /\
     initialized st' = true) /\
  (exists st',
     ensure_ready demo_env GDrive (cold_state "no json") = Raise st' JSONDecodeError /\
     file_cache st' = file_cache (cold_state "no json") /\
     remote_meta st' = Some "no json" /\
     initialized st' = false) /\
  (exists st',
     ensure_ready demo_env S3 stale_state = Ok st' tt /\
     file_cache st' = [] /\
     remote_meta st' = Some EmptyString /\
     initialized st' = true).
Proof.
  split; [|split].
  - exact (proj1 (bootstrap_absent_or_malformed demo_env Local empty_state
                    eq_refl eq_refl (fun _ _ => eq_refl) (fun _ => eq_refl)
                    (fun _ => eq_refl))
                 eq_refl).
  - exact (proj1 (proj2 (bootstrap_absent_or_malformed demo_env GDrive
                           (cold_state "no json") eq_refl eq_refl
                           (fun _ _ => eq_refl) (fun _ => eq_refl)
                           (fun _ => eq_refl)))
                 "no json" eq_refl eq_refl
                 (fun H : GDrive = S3 => match H with end)).
  - exact (proj2 (proj2 (bootstrap_absent_or_malformed demo_env S3 stale_state
                           eq_refl eq_refl (fun _ _ => eq_refl)
                           (fun _ => eq_refl) (fun _ => eq_refl)))
                 eq_refl eq_refl).
Defined.

(** C8 (as stated, refuted).  On the object store a metadata object that
    is present and of no bytes does not parse, yet the bootstrap returns
    and has replaced the cache by the empty one; and the document the
    local adapter creates is not the literal: it is the indented text. *)
Lemma bootstrap_departs_from_claim :
  (document_of S3 stale_state = Some EmptyString /\
   json_loads demo_env EmptyString = None /\
   file_cache stale_state <> [] /\
   exists st',
     ensure_ready demo_env S3 stale_state = Ok st' tt /\
     file_cache st' = [] /\
     initialized st' = true) /\
  (document_of Local empty_state = None /\
   exists st',
     ensure_ready demo_env Local empty_state = Ok st' tt /\
     remote_meta st' = Some indented_empty_document /\
     indented_empty_document <> empty_document).
Proof.
  split.
  - split; [reflexivity|]. split; [reflexivity|]. split; [discriminate|].
    destruct (ensure_ready demo_env S3 stale_state) as [st' []| |] eqn:H;
      vm_compute in H; try discriminate.
    exists st'. inversion H; subst. repeat split.
  - split; [reflexivity|].
    destruct (ensure_ready demo_env Local empty_state) as [st' []| |] eqn:H;
      vm_compute in H; try discriminate.
    exists st'. inversion H; subst. repeat split. discriminate.
Qed.

(** ** Concurrent first calls *)

Lemma nth_error_set_pc_same l i pc x :
  nth_error l i = Some x -> nth_error (set_pc l i pc) i = Some pc.
Proof.
  revert i. induction l as [|y r IH]; intros [|i]; simpl; try discriminate; auto.
Qed.

Lemma nth_error_set_pc_other l i j pc :
  i <> j -> nth_error (set_pc l i pc) j = nth_error l j.
Proof.
  revert i j. induction l as [|y r IH]; intros [|i] [|j] H; simpl; auto;
    congruence.
Qed.

Lemma s3_init_body_ok E st st' u :
  s3_init_body E st = Ok st' u -> initialized st' = true.
Proof.
  unfold s3_init_body. intros H.
  apply bind_ok in H. destruct H as (st1 & [] & _ & H).
  inversion H; reflexivity.
Qed.

Lemma s3_invariant_first_calls n st : s3_invariant (first_calls n st).
Proof.
  assert (Hno : forall i, nth_error (repeat Start n) i <> Some Running).
  { intros i H. apply nth_error_In in H. apply repeat_spec in H. discriminate. }
  constructor; simpl; intros; auto; try discriminate.
  - elim (Hno _ H).
  - elim (Hno _ H).
Qed.

Lemma running_after_leaving sys i j pc :
  pc <> Running ->
  nth_error (set_pc (pcs sys) i pc) j = Some Running ->
  i <> j /\ nth_error (pcs sys) j = Some Running.
Proof.
  intros Hpc H. destruct (Nat.eq_dec i j) as [->|Hne].
  - destruct (nth_error (pcs sys) j) as [x|] eqn:Hx.
    + rewrite (nth_error_set_pc_same _ _ pc _ Hx) in H. congruence.
    + exfalso. clear Hpc. revert j H Hx.
      induction (pcs sys) as [|y r IH]; intros [|j]; simpl; try discriminate;
        eauto.
  - rewrite nth_error_set_pc_other in H by exact Hne. auto.
Qed.

Lemma s3_step_invariant E i sys :
  s3_invariant sys -> s3_invariant (s3_step E i sys).
Proof.
  intros [H1 H2 H3 H4]. unfold s3_step.
  assert (Hleave : forall pc j, pc <> Running ->
            nth_error (set_pc (pcs sys) i pc) j = Some Running ->
            nth_error (pcs sys) j = Some Running).
  { intros pc j Hne Hj. now apply running_after_leaving in Hj. }
  assert (Henter : layout_lock sys = false ->
            forall j k, nth_error (set_pc (pcs sys) i Running) j = Some Running ->
                        nth_error (set_pc (pcs sys) i Running) k = Some Running ->
                        j = k).
  { intros Hl j k Hj Hk.
    assert (Hnone : forall m, nth_error (pcs sys) m <> Some Running)
      by (intros m Hm; apply H1 in Hm; congruence).
    destruct (Nat.eq_dec i j) as [->|Hij].
    - destruct (Nat.eq_dec j k) as [|Hjk]; auto.
      rewrite nth_error_set_pc_other in Hk by exact Hjk. elim (Hnone _ Hk).
    - rewrite nth_error_set_pc_other in Hj by exact Hij. elim (Hnone _ Hj). }
  destruct (nth_error (pcs sys) i) as [[| | | |e]|] eqn:Hpc;
    try (constructor; assumption).
  - (* Start *)
    destruct (initialized (shared sys)) eqn:Hi;
      [|destruct (layout_lock sys) eqn:Hl].
    + constructor; simpl.
      * intros j Hj. apply Hleave in Hj; [eauto|discriminate].
      * intros j k Hj Hk. apply Hleave in Hj; [|discriminate].
        apply Hleave in Hk; [eauto|discriminate].
      * rewrite ?Hi, ?Hl; assumption.
      * rewrite ?Hi, ?Hl; assumption.
    + constructor; simpl.
      * reflexivity.
      * intros j k Hj Hk. apply Hleave in Hj; [|discriminate].
        apply Hleave in Hk; [eauto|discriminate].
      * intros _. exact Hi.
      * rewrite ?Hi, ?Hl; assumption.
    + constructor; simpl.
      * reflexivity.
      * apply Henter. reflexivity.
      * intros _. exact Hi.
      * rewrite ?Hi, ?Hl; assumption.
  - (* Waiting *)
    destruct (layout_lock sys) eqn:Hl;
      [constructor; rewrite ?Hl; assumption|].
    destruct (initialized (shared sys)) eqn:Hi.
    + constructor; simpl.
      * intros j Hj. apply Hleave in Hj; [|discriminate].
        apply H1 in Hj. discriminate.
      * intros j k Hj Hk. apply Hleave in Hj; [|discriminate].
        apply H1 in Hj. discriminate.
      * discriminate.
      * rewrite ?Hi, ?Hl; assumption.
    + constructor; simpl.
      * reflexivity.
      * apply Henter. reflexivity.
      * intros _. exact Hi.
      * rewrite ?Hi, ?Hl; assumption.
  - (* Running *)
    pose proof (H1 _ Hpc) as Hl. pose proof (H3 Hl) as Hi.
    assert (Hc : completed sys = 0)
      by (destruct H4 as [|[_ H4]]; [assumption | congruence]).
    assert (Hnone : forall pc j, pc <> Running ->
              nth_error (set_pc (pcs sys) i pc) j <> Some Running).
    { intros pc j Hne Hj. apply running_after_leaving in Hj; [|exact Hne].
      destruct Hj as [Hij Hj]. apply Hij. eauto. }
    unfold run_body.
    destruct (s3_init_body E (shared sys)) as [st' []|st' e|st'] eqn:Hb.
    + apply s3_init_body_ok in Hb.
      constructor; simpl.
      * intros j Hj. elim (Hnone Done j ltac:(discriminate) Hj).
      * intros j k Hj. elim (Hnone Done j ltac:(discriminate) Hj).
      * discriminate.
      * right. rewrite Hc. auto.
    + constructor; simpl.
      * intros j Hj. elim (Hnone (Failed e) j ltac:(discriminate) Hj).
      * intros j k Hj. elim (Hnone (Failed e) j ltac:(discriminate) Hj).
      * discriminate.
      * left. exact Hc.
    + constructor; assumption.
Qed.

Lemma s3_schedule_invariant E schedule sys :
  s3_invariant sys -> s3_invariant (run_schedule (s3_step E) schedule sys).
Proof.
  revert sys. induction schedule as [|i r IH]; intros sys H; simpl; auto.
  apply IH. now apply s3_step_invariant.
Qed.

(** X16.  On the object store the body of the initialisation returns at
    most once, whatever the number of first calls and their interleaving,
    and two tasks are never inside it together. *)
Lemma s3_initialisation_once E n st schedule :
  let sys := run_schedule (s3_step E) schedule (first_calls n st) in
  completed sys <= 1 /\
  forall i j, nth_error (pcs sys) i = Some Running ->
              nth_error (pcs sys) j = Some Running -> i = j.
Proof.
  pose proof (s3_schedule_invariant E schedule _ (s3_invariant_first_calls n st))
    as [H1 H2 H3 H4].
  split; [|exact H2].
  destruct H4 as [->|[-> _]]; lia.
Qed.

(** C9 (fails on the code).  Two first calls on the local adapter: each
    tests the flag and is suspended in its first [await] before the other
    runs on; both then run the body, the first creating the metadata file
    and the second reading it back, and the cache is replaced twice.  No
    lock is taken anywhere on the way. *)
Theorem local_initialisation_runs_twice :
  let sys := run_schedule (local_step demo_env) [0; 1; 0; 1]
                          (first_calls 2 empty_state) in
  bodies sys = 2 /\
  completed sys = 2 /\
  pcs sys = [Done; Done] /\
  layout_lock sys = false /\
  length (filter is_cache_commit (trace (shared sys))) = 2.
Proof. vm_compute. repeat split. Qed.

(** ** Uploading the same bytes twice *)
Section DictKeys.
Context {V : Type}.
Implicit Types (d : dict V) (k : string) (v : V).

Lemma dict_set_keys d k v :
  dict_get d k <> None -> map fst (dict_set d k v) = map fst d.
Proof.
  induction d as [|[k' v'] r IH]; simpl; [congruence|].
  destruct (String.eqb k' k) eqn:Hk; simpl; intros H; [reflexivity|].
  now rewrite IH.
Qed.

Lemma dict_set_new_keys d k v :
  dict_get d k = None -> map fst (dict_set d k v) = (map fst d ++ [k])%list.
Proof.
  induction d as [|[k' v'] r IH]; simpl; [reflexivity|].
  destruct (String.eqb k' k) eqn:Hk; simpl; intros H; [discriminate|].
  now rewrite IH.
Qed.

Lemma dict_get_none_keys d k : dict_get d k = None -> ~ In k (map fst d).
Proof.
  induction d as [|[k' v'] r IH]; simpl; [tauto|].
  destruct (String.eqb k' k) eqn:Hk; [discriminate|].
  intros H [He|Hin]; [|now apply IH].
  subst. now rewrite String.eqb_refl in Hk.
Qed.

Lemma dict_set_unique d k v : unique_keys d -> unique_keys (dict_set d k v).
Proof.
  unfold unique_keys. intros H.
  destruct (dict_get d k) eqn:Hg.
  - rewrite dict_set_keys; [exact H | congruence].
  - rewrite dict_set_new_keys by exact Hg.
    apply NoDup_app; [exact H | repeat constructor; simpl; tauto |].
    intros x Hx [He|[]]. subst x. now apply (dict_get_none_keys d k).
Qed.


End DictKeys.

Lemma same_uploads_refl st : same_uploads st st.
Proof. reflexivity. Qed.

Lemma same_uploads_trans s1 s2 s3 :
  same_uploads s1 s2 -> same_uploads s2 s3 -> same_uploads s1 s3.
Proof. unfold same_uploads. congruence. Qed.

Lemma keeps_unique_refl st : keeps_unique st st.
Proof. intros H; exact H. Qed.

Lemma keeps_unique_trans s1 s2 s3 :
  keeps_unique s1 s2 -> keeps_unique s2 s3 -> keeps_unique s1 s3.
Proof. unfold keeps_unique. auto. Qed.

Section SameBytes.
Variable E : Env.

Lemma load_files_unique wrap items acc d :
  load_files E wrap items acc = inr d -> unique_keys acc -> unique_keys d.
Proof.
  revert acc. induction items as [|[c j] r IH]; simpl; intros acc H Hu.
  - inversion H; subst; exact Hu.
  - destruct (FileData_of E j); [discriminate|].
    eapply IH; [exact H|]. now apply dict_set_unique.
Qed.

Lemma install_metadata_unique wrap metadata :
  respects keeps_unique (install_metadata E wrap metadata).
Proof.
  intros st. unfold install_metadata, cache_commit. run.
  destruct (metadata_files metadata) as [e|items]; simpl;
    [apply keeps_unique_refl|].
  destruct (load_files E wrap items []) as [e|d] eqn:Hl; simpl;
    [apply keeps_unique_refl|].
  intros _. simpl. eapply load_files_unique; [exact Hl | constructor].
Qed.

Lemma ensure_ready_unique a : respects keeps_unique (ensure_ready E a).
Proof.
  destruct a;
    walk_gen keeps_unique_refl keeps_unique_trans
             ltac:(unfold keeps_unique; simpl; intros; first [assumption | constructor])
             ltac:(apply install_metadata_unique).
Qed.

Lemma ensure_ready_uploads a : respects same_uploads (ensure_ready E a).
Proof.
  destruct a; walk same_uploads_refl same_uploads_trans ltac:(reflexivity).
Qed.

(** The upload of a new object: one write on the medium, under the name of
    the request; the cache and the flag are not touched. *)
Lemma store_object_spec a c raw st st' fd :
  store_object E a c raw st = Ok st' fd ->
  name fd = raw_name raw /\
  uploads st' = EvUpload (file_reference fd) (content raw) :: uploads st /\
  file_cache st' = file_cache st /\
  initialized st' = initialized st.
Proof.
  destruct a; unfold store_object, now; run.
  - intros H. inversion H; subst. repeat split.
  - intros H. inversion H; subst. repeat split.
  - destruct (has_nul (c ++ "_" ++ raw_name raw)); [discriminate|].
    destruct (path_parts (c ++ "_" ++ raw_name raw)) as [|leaf [|]];
      try discriminate.
    intros H. inversion H; subst. repeat split.
Qed.



Lemma add_file_data_initialized a c fd st :
  initialized st = true ->
  exists st',
    add_file_data E a c fd st = Ok st' tt /\
    file_cache st' = dict_set (file_cache st) c fd /\
    uploads st' = uploads st /\
    initialized st' = true.
Proof.
  intros Hi. destruct a; simpl.
  - unfold s3_add_file_data.
    change (s3_ensure_layout E) with (ensure_ready E S3).
    rewrite (bind_of_ok _ _ _ _ _ (ensure_ready_initialized E S3 st Hi)).
    eexists. repeat split. exact Hi.
  - unfold gdrive_add_file_data.
    change (get_drive_service E) with (ensure_ready E GDrive).
    rewrite (bind_of_ok _ _ _ _ _ (ensure_ready_initialized E GDrive st Hi)).
    eexists. repeat split. exact Hi.
  - eexists. repeat split. exact Hi.
Qed.
End SameBytes.

Section Idempotence.
Variable E : Env.

Lemma schedule_ok c ep raw st st' u :
  schedule c ep raw st = Ok st' u ->
  file_cache st' = file_cache st /\ initialized st' = initialized st /\
  trace st' = trace st.
Proof.
  unfold schedule. run.
  destruct (negb (Process_eqb ep P_none) && negb (dict_mem (processing_locks st) c));
    intros H; inversion H; subst; auto.
Qed.

Lemma schedule_objects c ep raw st st' u :
  schedule c ep raw st = Ok st' u -> objects st' = objects st.
Proof.
  unfold schedule. run.
  destruct (negb (Process_eqb ep P_none) && negb (dict_mem (processing_locks st) c));
    intros H; inversion H; subst; auto.
Qed.

(** What a call of [add_file] has done when it reaches its sleep: the
    bytes were known after the bootstrap and nothing was uploaded, or they
    were new and were uploaded once, under the name of the request. *)
Lemma add_file_begin_spec a raw ep st st1 r :
  add_file_begin E a raw ep st = Ok st1 r ->
  fst r = sha3_256 E (content raw) /\
  initialized st1 = true /\
  dict_get (file_cache st1) (fst r) = Some (snd r) /\
  (unique_keys (file_cache st) -> unique_keys (file_cache st1)) /\
  exists st0,
    ensure_ready E a st = Ok st0 tt /\
    match dict_get (file_cache st0) (sha3_256 E (content raw)) with
    | Some fd0 => snd r = fd0 /\ uploads st1 = uploads st
    | None =>
        uploads st1
        = EvUpload (file_reference (snd r)) (content raw) :: uploads st /\
        name (snd r) = raw_name raw
    end.
Proof.
  intros H. rewrite add_file_begin_prefix in H.
  apply bind_ok in H. destruct H as (stp & fd & Hp & H).
  apply bind_ok in H. destruct H as (st2 & [] & Hs & H).
  inversion H; subst; clear H. simpl.
  apply schedule_ok in Hs. destruct Hs as (Hc & Hi & Ht).
  unfold uploads. rewrite Hc, Hi, Ht. clear Hc Hi Ht st1.
  fold (uploads stp). fold (uploads st).
  unfold add_file_prefix in Hp.
  apply bind_ok in Hp. destruct Hp as (sta & [] & Hr & Hp).
  pose proof (ensure_ready_ok _ _ _ _ _ Hr) as Hia.
  pose proof (respects_ok _ _ _ _ _ (ensure_ready_unique E a) Hr) as Hua.
  pose proof (respects_ok _ _ _ _ _ (ensure_ready_uploads E a) Hr) as Hupa.
  unfold same_uploads in Hupa. unfold keeps_unique in Hua.
  apply bind_ok in Hp. destruct Hp as (sta' & cache & Hcr & Hp).
  unfold cache_read, gets in Hcr. inversion Hcr. subst sta' cache. clear Hcr.
  destruct (dict_get (file_cache sta) (sha3_256 E (content raw))) as [fd'|] eqn:Hg.
  - inversion Hp; subst; clear Hp. repeat split; auto.
    eexists. split; [exact Hr|]. rewrite Hg. auto.
  - apply bind_ok in Hp. destruct Hp as (stb & fd0 & Hso & Hp).
    destruct (store_object_spec E a _ raw sta stb fd0 Hso)
      as (Hn & Hup & Hcache & Hinit).
    apply bind_ok in Hp. destruct Hp as (stc & [] & Had & Hp).
    inversion Hp; subst; clear Hp.
    destruct (add_file_data_initialized E a (sha3_256 E (content raw)) fd stb)
      as (stc' & Heq' & Hc' & Hup' & Hi'); [congruence|].
    rewrite Heq' in Had. inversion Had; subst; clear Had.
    repeat split; auto.
    + rewrite Hc'. apply dict_get_set_same.
    + intros Hu. rewrite Hc', Hcache. apply dict_set_unique. auto.
    + exists sta. split; [exact Hr|]. rewrite Hg.
      split; [congruence | exact Hn].
Qed.


Lemma add_file_ok others a raw ep st st' r :
  add_file E others a raw ep st = Ok st' r ->
  exists stb,
    add_file_begin E a raw ep st = Ok stb (checksum r, file_data r) /\
    st' = others stb.
Proof.
  unfold add_file. intros H.
  apply bind_ok in H. destruct H as (stb & [c fd] & Hb & H).
  unfold respond in H. revert H. run. intros H.
  inversion H; subst; clear H. simpl. eauto.
Qed.

End Idempotence.

Lemma quiet_alone : quiet (fun st => st).
Proof. constructor; intros; eauto. Qed.


(** ** The derived fields are written once *)

Lemma final_state_bind {A B} (c : M A) (k : A -> M B) st :
  final_state (bind c k st)
  = match c st with
    | Ok st1 a => final_state (k a st1)
    | Raise st1 _ | Blocked st1 => st1
    end.
Proof. unfold bind. destruct (c st); reflexivity. Qed.

Lemma cache_kept_refl st : cache_kept st st.
Proof. intros H. auto. Qed.

Lemma cache_kept_trans s1 s2 s3 :
  cache_kept s1 s2 -> cache_kept s2 s3 -> cache_kept s1 s3.
Proof.
  unfold cache_kept. intros H12 H23 Hi.
  destruct (H12 Hi) as [Hc Hi2]. destruct (H23 Hi2) as [Hc3 Hi3].
  split; congruence.
Qed.

Section WriteOnce.
Variable E : Env.

Lemma ensure_ready_cache_kept a : respects cache_kept (ensure_ready E a).
Proof.
  intros st Hi. rewrite (ensure_ready_initialized E a st Hi).
  destruct a; simpl; auto.
Qed.

Ltac walk_cache :=
  walk_gen cache_kept_refl cache_kept_trans
           ltac:(solve [intros ?; simpl; auto])
           ltac:(first [ apply (ensure_ready_cache_kept S3)
                       | apply (ensure_ready_cache_kept GDrive)
                       | apply (ensure_ready_cache_kept Local) ]).

Lemma download_file_cache_kept a c : respects cache_kept (download_file E a c).
Proof. destruct a; walk_cache. Qed.

Lemma derive_cache_kept ep raw fd : respects cache_kept (derive E ep raw fd).
Proof. walk_cache. Qed.

Lemma filled_length text :
  300 <= char_length text -> filled (Some text) = true.
Proof. destruct text; simpl; [lia | reflexivity]. Qed.

Lemma summarize_document_filled text st st' s :
  summarize_document E text st = Ok st' s ->
  filled (Some s) = true -> filled (Some text) = true.
Proof.
  unfold summarize_document. run.
  destruct (Nat.ltb (char_length text) 300) eqn:Hl.
  - intros H. inversion H; subst. auto.
  - intros _ _. apply filled_length. apply Nat.ltb_ge in Hl. exact Hl.
Qed.

(** The two assignments under [if mime_type:] keep the fields coherent. *)
Lemma derive_coherent ep raw fd st st' fd' :
  derive E ep raw fd st = Ok st' fd' -> coherent fd -> coherent fd'.
Proof.
  unfold derive. intros H Hc.
  apply bind_ok in H. destruct H as (st1 & fd1 & H1 & H).
  assert (Hc1 : coherent fd1).
  { destruct (raw_ocr fd) as [r|] eqn:Hr.
    - inversion H1; subst. exact Hc.
    - apply bind_ok in H1. destruct H1 as (st0 & text & _ & H1).
      inversion H1; subst. destruct Hc as [Hc _]. rewrite Hr in Hc.
      split; simpl; [reflexivity|].
      intros Hs. destruct (summary fd); [|discriminate].
      discriminate (Hc eq_refl). }
  destruct (Process_eqb ep P_summary && is_none (summary fd1)).
  - destruct (raw_ocr fd1) as [text|] eqn:Hr; [|discriminate].
    apply bind_ok in H. destruct H as (st2 & s & Hs & H).
    inversion H; subst. split; simpl; rewrite ?Hr; [reflexivity|].
    eapply summarize_document_filled; eauto.
  - inversion H; subst. exact Hc1.
Qed.

Lemma sentinel_filled mime : filled (Some (sentinel mime)) = true.
Proof. reflexivity. Qed.

Lemma derivation_effect a c ep raw st :
  initialized st = true ->
  cache_step c ep st (final_state (derivation E a c ep raw st)).
Proof.
  intros Hi. unfold derivation. rewrite final_state_bind.
  destruct (get_cached_file_data c st) as [st0 fd|st0 e|st0] eqn:Hg.
  2: { unfold get_cached_file_data, get_file_data_with, cache_read in Hg.
       revert Hg. run. destruct (dict_get (file_cache st) c); intros Hg;
         inversion Hg; subst. split; auto. }
  2: { unfold get_cached_file_data, get_file_data_with, cache_read in Hg.
       revert Hg. run. destruct (dict_get (file_cache st) c); discriminate. }
  apply get_cached_ok in Hg. destruct Hg as [-> Hg].
  destruct (needs_derivation ep fd) eqn:Hn; [|split; auto].
  rewrite final_state_bind.
  set (fetch := match raw with Some r => ret r | None => download_file E a c end).
  assert (Hf : respects cache_kept fetch).
  { subst fetch. destruct raw; [apply (respects_ret _ cache_kept_refl)
                               | apply download_file_cache_kept]. }
  pose proof (Hf st Hi) as Hf1.
  destruct (fetch st) as [st1 r|st1 e|st1]; simpl in Hf1;
    destruct Hf1 as [Hc1 Hi1]; try (split; auto; fail).
  rewrite final_state_bind.
  set (compute := if supported_mime (raw_mime_type r)
                  then derive E ep r fd
                  else ret (set_ocr fd (Some (sentinel (raw_mime_type r)))
                                    (Some (sentinel (raw_mime_type r))))).
  assert (Hk : respects cache_kept compute).
  { subst compute. destruct (supported_mime (raw_mime_type r));
      [apply derive_cache_kept | apply (respects_ret _ cache_kept_refl)]. }
  assert (Hco : forall s s' fd', compute s = Ok s' fd' -> coherent fd -> coherent fd').
  { subst compute. intros s s' fd'.
    destruct (supported_mime (raw_mime_type r)).
    - apply derive_coherent.
    - intros H _. inversion H; subst. split; reflexivity. }
  pose proof (Hk st1 Hi1) as Hk1.
  destruct (compute st1) as [st2 fd'|st2 e|st2] eqn:Hcomp; simpl in Hk1;
    destruct Hk1 as [Hc2 Hi2]; try (split; [auto | left; congruence]; fail).
  destruct (add_file_data_initialized E a c fd' st2 Hi2)
    as (st3 & Heq & Hc3 & _ & Hi3).
  rewrite Heq. simpl. split; [exact Hi3|]. right.
  exists fd, fd'. split; [exact Hg|]. split; [exact Hn|].
  split; [eapply Hco; eauto|]. congruence.
Qed.

Lemma ensure_ocr_effect a c ep raw st :
  initialized st = true ->
  cache_step c ep st (final_state (ensure_ocr E a c ep raw st)).
Proof.
  intros Hi.
  assert (Hsame : cache_step c ep st st) by (split; auto).
  unfold ensure_ocr.
  assert (Hrun :
    cache_step c ep st
      (final_state
         ((file <- cache_read ;;
           match dict_get file c with
           | None => raise (no_file c)
           | Some _ =>
               create_lock c ;;; acquire c ;;;
               derivation E a c ep raw ;;; release c
           end) st))).
  { rewrite final_state_bind. unfold cache_read, gets.
    destruct (dict_get (file_cache st) c); [|exact Hsame].
    rewrite final_state_bind.
    assert (Hl : exists st1, create_lock c st = Ok st1 tt /\
                             file_cache st1 = file_cache st /\
                             initialized st1 = true).
    { unfold create_lock. run.
      destruct (dict_mem (processing_locks st) c); eexists; repeat split; auto. }
    destruct Hl as (st1 & -> & Hc1 & Hi1).
    rewrite final_state_bind. unfold acquire at 1.
    destruct (is_locked (processing_locks st1) c).
    { split; auto. }
    set (st2 := with_locks (dict_set (processing_locks st1) c true) st1).
    assert (Hc2 : file_cache st2 = file_cache st) by exact Hc1.
    assert (Hi2 : initialized st2 = true) by exact Hi1.
    clearbody st2. rewrite final_state_bind.
    pose proof (derivation_effect a c ep raw st2 Hi2) as Hd.
    unfold cache_step in Hd |- *. rewrite Hc2 in Hd.
    destruct (derivation E a c ep raw st2) as [st3 []|st3 e|st3];
      simpl in Hd |- *; exact Hd. }
  destruct ep; [exact Hsame | exact Hrun | exact Hrun].
Qed.
End WriteOnce.

Section Monotonic.
Variable E : Env.
Variable a : Adapter.

Lemma underived_well st : underived st -> derived_well st.
Proof.
  intros [Hi H]. split; [exact Hi|].
  intros c fd Hg. destruct (H c fd Hg) as [Hr Hs].
  split; rewrite Hs; discriminate.
Qed.

Lemma pipeline_call_well k st :
  derived_well st -> derived_well (pipeline_call E a k st).
Proof.
  intros [Hi Hco]. unfold pipeline_call.
  destruct (ensure_ocr_effect E a (call_checksum k) (call_process k)
                              (call_raw k) st Hi) as [Hi' Hstep].
  split; [exact Hi'|]. intros c fd Hg.
  destruct Hstep as [Hsame|(fd0 & fd1 & Hg0 & _ & Hc & Hset)].
  - rewrite Hsame in Hg. eauto.
  - rewrite Hset in Hg.
    destruct (String.eqb (call_checksum k) c) eqn:Hk.
    + apply String.eqb_eq in Hk. subst c.
      rewrite dict_get_set_same in Hg. inversion Hg; subst. eauto.
    + apply String.eqb_neq in Hk.
      rewrite dict_get_set_other in Hg by congruence. eauto.
Qed.

Lemma pipeline_calls_well ks st :
  derived_well st -> derived_well (pipeline_calls E a ks st).
Proof.
  revert st. induction ks as [|k r IH]; intros st H; simpl; auto.
  apply IH. now apply pipeline_call_well.
Qed.

(** An entry that has its summary is out of reach of a pipeline call. *)
Lemma pipeline_call_keeps k st c fd :
  derived_well st ->
  dict_get (file_cache st) c = Some fd ->
  is_none (summary fd) = false ->
  dict_get (file_cache (pipeline_call E a k st)) c = Some fd.
Proof.
  intros [Hi Hco] Hg Hs. unfold pipeline_call.
  destruct (ensure_ocr_effect E a (call_checksum k) (call_process k)
                              (call_raw k) st Hi) as [_ Hstep].
  destruct Hstep as [Hsame|(fd0 & fd1 & Hg0 & Hn & _ & Hset)].
  - now rewrite Hsame.
  - rewrite Hset.
    destruct (String.eqb (call_checksum k) c) eqn:Hk.
    + apply String.eqb_eq in Hk. subst c. exfalso.
      rewrite Hg in Hg0. inversion Hg0; subst fd0.
      destruct (Hco _ _ Hg) as [Hraw _]. specialize (Hraw Hs).
      unfold needs_derivation in Hn. rewrite Hraw, Hs in Hn.
      rewrite andb_false_r in Hn. discriminate.
    + apply String.eqb_neq in Hk.
      rewrite dict_get_set_other by congruence. exact Hg.
Qed.

Lemma pipeline_calls_keeps ks st c fd :
  derived_well st ->
  dict_get (file_cache st) c = Some fd ->
  is_none (summary fd) = false ->
  dict_get (file_cache (pipeline_calls E a ks st)) c = Some fd.
Proof.
  revert st. induction ks as [|k r IH]; intros st Hw Hg Hs; simpl; auto.
  apply IH; auto using pipeline_call_well, pipeline_call_keeps.
Qed.

(** The part of the monotonic derivation that holds.  Start from an
    initialised adapter whose entries are coherent (a summary comes with
    an extracted text), as they are when both fields are unset, and run
    any pipeline calls, at any levels, on any checksums, with any bytes
    and MIME types, returning or failing.  In the state reached every
    entry is coherent, and whatever pipeline calls follow, an entry that
    has its summary stays as it is, summary and extracted text included. *)
Lemma derivation_write_once st0 before after c fd :
  derived_well st0 ->
  dict_get (file_cache (pipeline_calls E a before st0)) c = Some fd ->
  (is_none (summary fd) = false -> is_none (raw_ocr fd) = false) /\
  (filled (summary fd) = true -> filled (raw_ocr fd) = true) /\
  (is_none (summary fd) = false ->
   dict_get (file_cache (pipeline_calls E a after
                           (pipeline_calls E a before st0))) c
   = Some fd).
Proof.
  intros H0 Hg.
  pose proof (pipeline_calls_well before st0 H0) as Hw.
  destruct (proj2 Hw c fd Hg) as [H1 H2].
  split; [exact H1|]. split; [exact H2|].
  intros Hs. now apply pipeline_calls_keeps.
Qed.
End Monotonic.

Lemma one_file_underived : underived one_file_state.
Proof.
  split; [reflexivity|]. intros c fd. unfold one_file_state, file_cache, dict_get.
  destruct (String.eqb "sha3-hello" c); intros H; inversion H; subst.
  split; reflexivity.
Qed.

Lemma derivation_write_once_witness :
  let text := Some "text of the document" in
  let fd := set_ocr demo_file text text in
  let before := [mkCall "sha3-hello" P_summary (Some hello_pdf)] in
  let after := [mkCall "sha3-hello" P_ocr
                       (Some (mkRaw "hello" "a.txt" "text/plain"));
                mkCall "sha3-hello" P_summary None] in
  derived_well one_file_state /\
  dict_get (file_cache (pipeline_calls demo_env Local before one_file_state))
           "sha3-hello" = Some fd /\
  filled (raw_ocr fd) = true /\
  dict_get (file_cache (pipeline_calls demo_env Local after
                          (pipeline_calls demo_env Local before one_file_state)))
           "sha3-hello" = Some fd.
Proof.
  intros text fd before after.
  assert (Hg : dict_get (file_cache (pipeline_calls demo_env Local before
                                       one_file_state)) "sha3-hello" = Some fd)
    by reflexivity.
  pose proof (underived_well one_file_state one_file_underived) as Hw.
  destruct (derivation_write_once demo_env Local one_file_state before after
              "sha3-hello" fd Hw Hg) as (_ & H2 & H3).
  split; [exact Hw|]. split; [exact Hg|].
  split; [apply H2; reflexivity | apply H3; reflexivity].
Defined.

(** C7 (fails on the code).  The extracted text is not written once.  A
    file is stored as plain text; the same bytes are stored again as a PDF
    at level ocr, and the pipeline run this starts extracts their text.  A
    [get_file_data] at level summary then fetches the file, finds the MIME
    type it was first stored under, and writes the sentinel over the
    extracted text and into the summary.  Every call returns normally. *)
Theorem sentinel_overwrites_extracted_text :
  let c := "sha3-hello" in
  exists s1 r1 s2 r2 s3 s4 fd4,
    add_file demo_env (fun st => st) Local notes_txt P_none ready_state
    = Ok s1 r1 /\
    add_file demo_env (fun st => st) Local hello_pdf P_ocr s1 = Ok s2 r2 /\
    tasks s2 = [mkTask c P_ocr hello_pdf] /\
    ensure_ocr demo_env Local c P_ocr (Some hello_pdf) s2 = Ok s3 tt /\
    option_map raw_ocr (dict_get (file_cache s3) c)
    = Some (Some "text of the document") /\
    option_map summary (dict_get (file_cache s3) c) = Some None /\
    get_file_data demo_env Local c P_summary s3 = Ok s4 fd4 /\
    raw_ocr fd4 = Some (sentinel "text/plain") /\
    summary fd4 = Some (sentinel "text/plain") /\
    dict_get (file_cache s4) c = Some fd4.
Proof.
  intros c.
  destruct (add_file demo_env (fun st => st) Local notes_txt P_none ready_state)
    as [s1 r1| |] eqn:H1; try (vm_compute in H1; discriminate).
  destruct (add_file demo_env (fun st => st) Local hello_pdf P_ocr s1)
    as [s2 r2| |] eqn:H2;
    try (vm_compute in H1; inversion H1; subst;
         vm_compute in H2; discriminate).
  destruct (ensure_ocr demo_env Local c P_ocr (Some hello_pdf) s2)
    as [s3 []| |] eqn:H3;
    try (vm_compute in H1; inversion H1; subst;
         vm_compute in H2; inversion H2; subst;
         vm_compute in H3; discriminate).
  destruct (get_file_data demo_env Local c P_summary s3)
    as [s4 fd4| |] eqn:H4;
    try (vm_compute in H1; inversion H1; subst;
         vm_compute in H2; inversion H2; subst;
         vm_compute in H3; inversion H3; subst;
         vm_compute in H4; discriminate).
  exists s1, r1, s2, r2, s3, s4, fd4.
  split; [first [reflexivity | exact H1]|].
  split; [first [reflexivity | exact H2]|].
  assert (Hfacts :
    tasks s2 = [mkTask c P_ocr hello_pdf] /\
    option_map raw_ocr (dict_get (file_cache s3) c)
    = Some (Some "text of the document") /\
    option_map summary (dict_get (file_cache s3) c) = Some None /\
    raw_ocr fd4 = Some (sentinel "text/plain") /\
    summary fd4 = Some (sentinel "text/plain") /\
    dict_get (file_cache s4) c = Some fd4).
  { vm_compute in H1; inversion H1; subst.
    vm_compute in H2; inversion H2; subst.
    vm_compute in H3; inversion H3; subst.
    vm_compute in H4; inversion H4; subst.
    repeat split. }
  destruct Hfacts as (F1 & F2 & F3 & F4 & F5 & F6).
  split; [exact F1|]. split; [first [reflexivity | exact H3]|].
  split; [exact F2|]. split; [exact F3|].
  split; [first [reflexivity | exact H4]|].
  split; [exact F4|]. split; [exact F5 | exact F6].
Qed.

(** * Further properties of the storage interface *)

(** ** The pipeline: what a run leaves behind *)
Section PipelineRuns.
Variable E : Env.

Lemma derive_satisfies ep raw fd st st' fd' :
  derive E ep raw fd st = Ok st' fd' -> needs_derivation ep fd' = false.
Proof.
  unfold derive. intros H.
  apply bind_ok in H. destruct H as (st1 & fd1 & H1 & H).
  assert (Hr : is_none (raw_ocr fd1) = false).
  { destruct (raw_ocr fd) as [r|] eqn:Hr.
    - inversion H1; subst. now rewrite Hr.
    - apply bind_ok in H1. destruct H1 as (st0 & text & _ & H1).
      inversion H1; subst. reflexivity. }
  unfold needs_derivation.
  destruct (Process_eqb ep P_summary && is_none (summary fd1)) eqn:Hc.
  - destruct (raw_ocr fd1) as [text|] eqn:Ht; [|discriminate].
    apply bind_ok in H. destruct H as (st2 & s & _ & H).
    inversion H; subst. simpl. now rewrite andb_false_r.
  - inversion H; subst. now rewrite Hr, Hc.
Qed.

Lemma derivation_ok a c ep raw st st' :
  derivation E a c ep raw st = Ok st' tt ->
  exists fd,
    dict_get (file_cache st') c = Some fd /\ needs_derivation ep fd = false.
Proof.
  unfold derivation. intros H.
  apply bind_ok in H. destruct H as (st0 & fd & Hg & H).
  apply get_cached_ok in Hg. destruct Hg as [-> Hg].
  destruct (needs_derivation ep fd) eqn:Hn.
  - apply bind_ok in H. destruct H as (st1 & r & _ & H).
    apply bind_ok in H. destruct H as (st2 & fd' & Hc & H).
    exists fd'. split; [eapply add_file_data_entry; eauto|].
    destruct (supported_mime (raw_mime_type r)).
    + eapply derive_satisfies; eauto.
    + inversion Hc; subst. unfold needs_derivation. simpl.
      apply andb_false_r.
  - inversion H; subst. eauto.
Qed.

Lemma ensure_ocr_unfold a c ep raw :
  ep <> P_none -> ensure_ocr E a c ep raw = ensure_ocr_run E a c ep raw.
Proof. destruct ep; [congruence | reflexivity | reflexivity]. Qed.

Lemma ensure_ocr_ok a c ep raw st st' :
  ensure_ocr E a c ep raw st = Ok st' tt -> ep <> P_none ->
  exists fd,
    dict_get (file_cache st') c = Some fd /\
    needs_derivation ep fd = false /\
    dict_get (processing_locks st') c = Some false.
Proof.
  intros H Hep. rewrite (ensure_ocr_unfold a c ep raw Hep) in H.
  unfold ensure_ocr_run in H.
  apply bind_ok in H. destruct H as (st0 & file & _ & H).
  destruct (dict_get file c); [|discriminate].
  apply bind_ok in H. destruct H as (st1 & [] & _ & H).
  apply bind_ok in H. destruct H as (st2 & [] & _ & H).
  apply bind_ok in H. destruct H as (st3 & [] & Hd & H).
  apply derivation_ok in Hd. destruct Hd as (fd & Hg & Hn).
  inversion H; subst. exists fd. simpl. repeat split; auto.
  apply dict_get_set_same.
Qed.

(** The guard: an entry that has what the level asks for is not derived
    again. *)
Lemma ensure_ocr_satisfied a c ep raw st fd :
  ep <> P_none ->
  dict_get (file_cache st) c = Some fd ->
  needs_derivation ep fd = false ->
  is_locked (processing_locks st) c = false ->
  exists st',
    ensure_ocr E a c ep raw st = Ok st' tt /\
    file_cache st' = file_cache st /\
    trace st' = trace st /\
    remote_meta st' = remote_meta st /\
    objects st' = objects st /\
    dict_get (processing_locks st') c = Some false.
Proof.
  intros Hep Hg Hn Hl. rewrite (ensure_ocr_unfold a c ep raw Hep).
  unfold ensure_ocr_run, cache_read. run. rewrite Hg.
  unfold create_lock. run.
  assert (Hderiv : forall s, file_cache s = file_cache st ->
            derivation E a c ep raw s = Ok s tt).
  { intros s Hs. unfold derivation.
    rewrite (bind_of_ok _ _ _ _ _ (get_cached_known c s fd ltac:(congruence))).
    now rewrite Hn. }
  destruct (dict_mem (processing_locks st) c).
  - unfold acquire. rewrite Hl.
    rewrite Hderiv by reflexivity. unfold release. run.
    eexists. split; [reflexivity|]. simpl. repeat split.
    apply dict_get_set_same.
  - unfold acquire. simpl. rewrite is_locked_set.
    rewrite Hderiv by reflexivity. unfold release. run.
    eexists. split; [reflexivity|]. simpl. repeat split.
    apply dict_get_set_same.
Qed.
End PipelineRuns.

Section PipelineProperties.
Variable E : Env.

(** X1.  A [get_file_data] at level ocr or summary that returns hands back
    metadata with the extracted text set, and with the summary set when the
    level was summary; the metadata is the entry of the cache and the lock
    of the checksum is free again. *)
Theorem get_file_data_reaches_level a c ep st st' fd :
  get_file_data E a c ep st = Ok st' fd ->
  ep <> P_none ->
  is_none (raw_ocr fd) = false /\
  (ep = P_summary -> is_none (summary fd) = false) /\
  dict_get (file_cache st') c = Some fd /\
  is_locked (processing_locks st') c = false.
Proof.
  intros H Hep. unfold get_file_data, get_file_data_with in H.
  apply bind_ok in H. destruct H as (st0 & cache & _ & H).
  destruct (dict_get cache c); [|discriminate].
  assert (Hrun :
    (ensure_ocr E a c ep None ;;;
     cache <- cache_read ;;
     match dict_get cache c with
     | Some fd' => ret fd'
     | None => raise (KeyError c)
     end) st0 = Ok st' fd) by (destruct ep; [congruence | exact H | exact H]).
  clear H. apply bind_ok in Hrun. destruct Hrun as (st1 & [] & Ho & H).
  apply (ensure_ocr_ok E) in Ho; [|exact Hep].
  destruct Ho as (fd1 & Hg & Hn & Hl).
  unfold cache_read in H. revert H. run. rewrite Hg. intros H.
  inversion H; subst. unfold needs_derivation in Hn.
  apply orb_false_iff in Hn. destruct Hn as [Hr Hs].
  repeat split; auto.
  - intros ->. simpl in Hs. exact Hs.
  - unfold is_locked. now rewrite Hl.
Qed.

(** X2.  After a pipeline run that returned, a further run for the same
    checksum at the same level, or at level ocr, with any bytes and MIME
    type, returns without calling a collaborator, without touching the
    cache and without writing anything. *)
Theorem pipeline_rerun_is_silent a c ep raw st st1 ep' raw' :
  ensure_ocr E a c ep raw st = Ok st1 tt ->
  ep <> P_none ->
  ep' = ep \/ ep' = P_ocr ->
  exists st2,
    ensure_ocr E a c ep' raw' st1 = Ok st2 tt /\
    file_cache st2 = file_cache st1 /\
    trace st2 = trace st1 /\
    remote_meta st2 = remote_meta st1.
Proof.
  intros H Hep Hep'.
  apply (ensure_ocr_ok E) in H; [|exact Hep].
  destruct H as (fd & Hg & Hn & Hl).
  assert (Hn' : needs_derivation ep' fd = false).
  { destruct Hep' as [->| ->]; [exact Hn|].
    unfold needs_derivation in *. apply orb_false_iff in Hn.
    destruct Hn as [-> _]. reflexivity. }
  assert (Hne : ep' <> P_none) by (destruct Hep' as [->| ->]; congruence).
  destruct (ensure_ocr_satisfied E a c ep' raw' st1 fd Hne Hg Hn')
    as (st2 & Ho & Hc & Ht & Hr & _).
  { unfold is_locked. now rewrite Hl. }
  exists st2. auto.
Qed.

(** X3.  While the lock of a checksum is held, a pipeline call and a
    [get_file_data] at level ocr or summary for that checksum wait, and
    have changed nothing when they start waiting. *)
Theorem held_lock_blocks a c ep raw st fd :
  dict_get (file_cache st) c = Some fd ->
  is_locked (processing_locks st) c = true ->
  ep <> P_none ->
  ensure_ocr E a c ep raw st = Blocked st /\
  get_file_data E a c ep st = Blocked st.
Proof.
  intros Hg Hl Hep.
  assert (Hm : dict_mem (processing_locks st) c = true).
  { unfold is_locked in Hl. unfold dict_mem.
    destruct (dict_get (processing_locks st) c); [reflexivity | discriminate]. }
  assert (Hb : forall r, ensure_ocr E a c ep r st = Blocked st).
  { intros r. rewrite (ensure_ocr_unfold E a c ep r Hep).
    unfold ensure_ocr_run, cache_read, create_lock, acquire. run.
    rewrite Hg, Hm, Hl. reflexivity. }
  split; [apply Hb|].
  unfold get_file_data, get_file_data_with, cache_read. run. rewrite Hg.
  destruct ep; [congruence | now rewrite Hb | now rewrite Hb].
Qed.

Lemma same_calls_refl st : same_calls st st.
Proof. reflexivity. Qed.

Lemma same_calls_trans s1 s2 s3 :
  same_calls s1 s2 -> same_calls s2 s3 -> same_calls s1 s3.
Proof. unfold same_calls. congruence. Qed.

Lemma add_file_data_calls a c fd : respects same_calls (add_file_data E a c fd).
Proof.
  destruct a; walk same_calls_refl same_calls_trans ltac:(reflexivity).
Qed.

(** With the entry in the cache and the lock free, [ensure_ocr] is its
    derivation followed by the release, run in a state that differs from
    the first in the lock table only. *)
Lemma ensure_ocr_run_enters a c ep raw st fd :
  dict_get (file_cache st) c = Some fd ->
  is_locked (processing_locks st) c = false ->
  exists locks,
    ensure_ocr_run E a c ep raw st
    = (derivation E a c ep raw ;;; release c) (with_locks locks st).
Proof.
  intros Hg Hl. unfold ensure_ocr_run, cache_read, create_lock, acquire.
  run. rewrite Hg.
  destruct (dict_mem (processing_locks st) c).
  - rewrite Hl. eexists. reflexivity.
  - simpl. rewrite is_locked_set. eexists. reflexivity.
Qed.

(** X4.  On an initialised adapter, a pipeline run that has work to do and
    is handed bytes of a MIME type that is neither PDF nor an image stores
    the sentinel text in both derived fields (over an extracted text that
    was there), publishes the cache and returns, without calling a
    collaborator. *)
Theorem unsupported_mime_stores_sentinel a c ep r st fd :
  initialized st = true ->
  dict_get (file_cache st) c = Some fd ->
  needs_derivation ep fd = true ->
  is_locked (processing_locks st) c = false ->
  ep <> P_none ->
  supported_mime (raw_mime_type r) = false ->
  exists st',
    ensure_ocr E a c ep (Some r) st = Ok st' tt /\
    dict_get (file_cache st') c
    = Some (set_ocr fd (Some (sentinel (raw_mime_type r)))
                    (Some (sentinel (raw_mime_type r)))) /\
    collaborator_calls st' = collaborator_calls st /\
    published E a st' /\
    is_locked (processing_locks st') c = false.
Proof.
  intros Hi Hg Hn Hl Hep Hm.
  rewrite (ensure_ocr_unfold E a c ep (Some r) Hep).
  destruct (ensure_ocr_run_enters a c ep (Some r) st fd Hg Hl) as (locks & ->).
  set (s := with_locks locks st).
  assert (Hgs : dict_get (file_cache s) c = Some fd) by exact Hg.
  assert (His : initialized s = true) by exact Hi.
  assert (Hcs : collaborator_calls s = collaborator_calls st) by reflexivity.
  clearbody s. unfold derivation. run.
  rewrite (get_cached_known c s fd Hgs), Hn, Hm.
  set (fd' := set_ocr fd _ _).
  destruct (add_file_data_initialized E a c fd' s His) as (s' & Ha & _).
  rewrite Ha. unfold release. run.
  eexists. split; [reflexivity|]. simpl.
  split; [eapply add_file_data_entry; eauto|].
  split.
  { rewrite <- Hcs.
    exact (respects_ok _ _ _ _ _ (add_file_data_calls a c fd') Ha). }
  split; [exact (add_file_data_published E a c fd' s s' Ha)|].
  apply is_locked_set.
Qed.
End PipelineProperties.

Lemma get_file_data_reaches_level_witness :
  exists st' fd,
    get_file_data demo_env Local "sha3-hello" P_summary one_file_state
    = Ok st' fd /\
    P_summary <> P_none /\
    (is_none (raw_ocr fd) = false /\
     (P_summary = P_summary -> is_none (summary fd) = false) /\
     dict_get (file_cache st') "sha3-hello" = Some fd /\
     is_locked (processing_locks st') "sha3-hello" = false).
Proof.
  destruct (get_file_data demo_env Local "sha3-hello" P_summary one_file_state)
    as [st' fd| |] eqn:H; try (vm_compute in H; discriminate).
  exists st', fd. split; [reflexivity|]. split; [discriminate|].
  exact (get_file_data_reaches_level demo_env Local "sha3-hello" P_summary
           one_file_state st' fd H ltac:(discriminate)).
Defined.

Lemma pipeline_rerun_is_silent_witness :
  exists st1,
    ensure_ocr demo_env Local "sha3-hello" P_summary (Some hello_pdf)
               one_file_state = Ok st1 tt /\
    P_summary <> P_none /\
    (P_ocr = P_summary \/ P_ocr = P_ocr) /\
    exists st2,
      ensure_ocr demo_env Local "sha3-hello" P_ocr (Some notes_txt) st1
      = Ok st2 tt /\
      file_cache st2 = file_cache st1 /\
      trace st2 = trace st1 /\
      remote_meta st2 = remote_meta st1.
Proof.
  destruct (ensure_ocr demo_env Local "sha3-hello" P_summary (Some hello_pdf)
                       one_file_state) as [st1 []| |] eqn:H;
    try (vm_compute in H; discriminate).
  exists st1. split; [reflexivity|]. split; [discriminate|].
  split; [right; reflexivity|].
  exact (pipeline_rerun_is_silent demo_env Local "sha3-hello" P_summary
           (Some hello_pdf) one_file_state st1 P_ocr (Some notes_txt) H
           ltac:(discriminate) (or_intror eq_refl)).
Defined.

(** The pipeline is at work on the one file: its lock is held. *)
Lemma held_lock_blocks_witness :
  let st := with_locks [("sha3-hello", true)] one_file_state in
  dict_get (file_cache st) "sha3-hello" = Some demo_file /\
  is_locked (processing_locks st) "sha3-hello" = true /\
  P_ocr <> P_none /\
  ensure_ocr demo_env Local "sha3-hello" P_ocr None st = Blocked st /\
  get_file_data demo_env Local "sha3-hello" P_ocr st = Blocked st.
Proof.
  intros st. split; [reflexivity|]. split; [reflexivity|].
  split; [discriminate|].
  exact (held_lock_blocks demo_env Local "sha3-hello" P_ocr None st demo_file
           eq_refl eq_refl ltac:(discriminate)).
Defined.

Lemma unsupported_mime_stores_sentinel_witness :
  initialized idle_state = true /\
  dict_get (file_cache idle_state) "sha3-hello" = Some extracted_file /\
  needs_derivation P_summary extracted_file = true /\
  is_locked (processing_locks idle_state) "sha3-hello" = false /\
  P_summary <> P_none /\
  supported_mime (raw_mime_type notes_txt) = false /\
  exists st',
    ensure_ocr demo_env Local "sha3-hello" P_summary (Some notes_txt) idle_state
    = Ok st' tt /\
    dict_get (file_cache st') "sha3-hello"
    = Some (set_ocr extracted_file
                    (Some (sentinel (raw_mime_type notes_txt)))
                    (Some (sentinel (raw_mime_type notes_txt)))) /\
    collaborator_calls st' = collaborator_calls idle_state /\
    published demo_env Local st' /\
    is_locked (processing_locks st') "sha3-hello" = false.
Proof.
  repeat (split; [first [reflexivity | discriminate]|]).
  exact (unsupported_mime_stores_sentinel demo_env Local "sha3-hello" P_summary
           notes_txt idle_state extracted_file eq_refl eq_refl eq_refl eq_refl
           ltac:(discriminate) eq_refl).
Defined.

(** ** Checksums the cache does not know *)

(** X5.  On an initialised adapter every operation aimed at a checksum
    that is not in the cache raises the same [ValueError]: [get_file_data]
    at every level, the pipeline at level ocr or summary, [download_file],
    [update_file_data] and [delete_file]; no lock is created and nothing is
    written.  The pipeline at level none returns without looking. *)
Theorem unknown_checksum_is_refused E a c ep raw updates st :
  initialized st = true ->
  dict_get (file_cache st) c = None ->
  get_file_data E a c ep st = Raise st (no_file c) /\
  ensure_ocr E a c P_ocr raw st = Raise st (no_file c) /\
  ensure_ocr E a c P_summary raw st = Raise st (no_file c) /\
  ensure_ocr E a c P_none raw st = Ok st tt /\
  download_file E a c st = Raise (entered a st) (no_file c) /\
  update_file_data E a c updates st = Raise st (no_file c) /\
  delete_file E a c st = Raise st (no_file c).
Proof.
  intros Hi Hg.
  assert (He : file_cache (entered a st) = file_cache st)
    by (destruct a; reflexivity).
  repeat split.
  - unfold get_file_data, get_file_data_with, cache_read. run. now rewrite Hg.
  - unfold ensure_ocr, cache_read. run. now rewrite Hg.
  - unfold ensure_ocr, cache_read. run. now rewrite Hg.
  - destruct a; simpl.
    + change (s3_ensure_layout E) with (ensure_ready E S3).
      rewrite (bind_of_ok _ _ _ _ _ (ensure_ready_initialized E S3 st Hi)).
      unfold bind. now rewrite get_cached_unknown.
    + change (get_drive_service E) with (ensure_ready E GDrive).
      rewrite (bind_of_ok _ _ _ _ _ (ensure_ready_initialized E GDrive st Hi)).
      unfold bind. now rewrite get_cached_unknown.
    + unfold bind. now rewrite get_cached_unknown.
  - destruct a; simpl.
    + change (s3_ensure_layout E) with (ensure_ready E S3).
      rewrite (bind_of_ok _ _ _ _ _ (ensure_ready_initialized E S3 st Hi)).
      simpl. unfold update_in_cache, cache_read. run. now rewrite Hg.
    + unfold update_in_cache, cache_read. run. now rewrite Hg.
    + unfold update_in_cache, cache_read. run. now rewrite Hg.
  - apply delete_file_unknown; auto.
Qed.

Lemma unknown_checksum_is_refused_witness :
  initialized one_file_state = true /\
  dict_get (file_cache one_file_state) "sha3-other" = None /\
  get_file_data demo_env S3 "sha3-other" P_summary one_file_state
  = Raise one_file_state (no_file "sha3-other") /\
  delete_file demo_env S3 "sha3-other" one_file_state
  = Raise one_file_state (no_file "sha3-other").
Proof.
  split; [reflexivity|]. split; [reflexivity|].
  destruct (unknown_checksum_is_refused demo_env S3 "sha3-other" P_summary None
              [] one_file_state eq_refl eq_refl)
    as (H1 & _ & _ & _ & _ & _ & H7).
  split; [exact H1 | exact H7].
Defined.

(** ** Stored bytes come back *)
Lemma same_objects_refl st : same_objects st st.
Proof. reflexivity. Qed.

Lemma same_objects_trans s1 s2 s3 :
  same_objects s1 s2 -> same_objects s2 s3 -> same_objects s1 s3.
Proof. unfold same_objects. congruence. Qed.

Section RoundTrip.
Variable E : Env.

Lemma add_file_data_objects a c fd : respects same_objects (add_file_data E a c fd).
Proof.
  destruct a; walk same_objects_refl same_objects_trans ltac:(reflexivity).
Qed.

(** The metadata of a new object, and the object itself on the medium. *)
Lemma store_object_stored a c raw st st' fd :
  store_object E a c raw st = Ok st' fd ->
  dict_get (objects st') (file_reference fd) = Some (content raw) /\
  name fd = raw_name raw /\
  mime_type fd = raw_mime_type raw /\
  size fd = byte_size (content raw) /\
  raw_ocr fd = None /\ summary fd = None /\
  file_cache st' = file_cache st /\
  initialized st' = initialized st.
Proof.
  destruct a; unfold store_object, now; run.
  - intros H. inversion H; subst. simpl.
    split; [apply dict_get_set_same|]. repeat split.
  - intros H. inversion H; subst. simpl.
    split; [apply dict_get_set_same|]. repeat split.
  - destruct (has_nul (c ++ "_" ++ raw_name raw)); [discriminate|].
    destruct (path_parts (c ++ "_" ++ raw_name raw)) as [|leaf [|]];
      try discriminate.
    intros H. inversion H; subst. simpl.
    split; [apply dict_get_set_same|]. repeat split.
Qed.

(** [add_file] on an initialised adapter, for bytes the cache does not
    know, as far as its sleep: the statements that follow the upload. *)
Lemma add_file_begin_after_upload a raw ep st s1 fd :
  initialized st = true ->
  dict_get (file_cache st) (sha3_256 E (content raw)) = None ->
  store_object E a (sha3_256 E (content raw)) raw (entered a st) = Ok s1 fd ->
  exists stb,
    add_file_begin E a raw ep st = Ok stb (sha3_256 E (content raw), fd) /\
    initialized stb = true /\
    dict_get (file_cache stb) (sha3_256 E (content raw)) = Some fd /\
    dict_get (objects stb) (file_reference fd) = Some (content raw) /\
    name fd = raw_name raw /\
    mime_type fd = raw_mime_type raw /\
    size fd = byte_size (content raw) /\
    raw_ocr fd = None /\ summary fd = None /\
    uploads stb = EvUpload (file_reference fd) (content raw) :: uploads st.
Proof.
  intros Hi Hg Hs. rewrite add_file_begin_prefix. unfold add_file_prefix.
  set (c := sha3_256 E (content raw)) in *.
  assert (Hie : initialized (entered a st) = true) by (destruct a; exact Hi).
  assert (Hge : dict_get (file_cache (entered a st)) c = None)
    by (destruct a; exact Hg).
  destruct (store_object_stored a c raw (entered a st) s1 fd Hs)
    as (Ho & Hn & Hm & Hz & Hr & Hsu & Hc1 & Hi1).
  destruct (add_file_data_initialized E a c fd s1 ltac:(congruence))
    as (s2 & Ha & Hc2 & Hu2 & Hi2).
  pose proof (respects_ok _ _ _ _ _ (add_file_data_objects a c fd) Ha) as Ho2.
  unfold same_objects in Ho2.
  assert (Hu1 : uploads s1 = EvUpload (file_reference fd) (content raw) :: uploads st).
  { destruct (store_object_spec E a c raw (entered a st) s1 fd Hs)
      as (_ & Hup & _).
    rewrite Hup. destruct a; reflexivity. }
  assert (Hp : (x <- (ensure_ready E a ;;;
                      cache <- cache_read ;;
                      match dict_get cache c with
                      | Some fd0 => ret fd0
                      | None =>
                          fd0 <- store_object E a c raw ;;
                          add_file_data E a c fd0 ;;; ret fd0
                      end) ;;
                schedule c ep raw ;;; ret (c, x)) st
               = (schedule c ep raw ;;; ret (c, fd)) s2).
  { unfold bind at 1. unfold bind at 1.
    rewrite (ensure_ready_initialized E a st Hi).
    unfold bind at 1, cache_read, gets. rewrite Hge.
    unfold bind at 1. rewrite Hs. unfold bind at 1. rewrite Ha. reflexivity. }
  rewrite Hp. unfold schedule. run.
  destruct (negb (Process_eqb ep P_none)
            && negb (dict_mem (processing_locks s2) c));
    (eexists; split; [reflexivity|]; simpl;
     repeat split; try assumption; try congruence;
     first [ rewrite Hc2; apply dict_get_set_same
           | unfold uploads in *; simpl in *; congruence ]).
Qed.

(** The same, read off a call that returned. *)
Lemma add_file_begin_fresh a raw ep st stb r :
  initialized st = true ->
  dict_get (file_cache st) (sha3_256 E (content raw)) = None ->
  add_file_begin E a raw ep st = Ok stb r ->
  fst r = sha3_256 E (content raw) /\
  initialized stb = true /\
  dict_get (file_cache stb) (sha3_256 E (content raw)) = Some (snd r) /\
  dict_get (objects stb) (file_reference (snd r)) = Some (content raw) /\
  name (snd r) = raw_name raw /\
  mime_type (snd r) = raw_mime_type raw /\
  size (snd r) = byte_size (content raw) /\
  raw_ocr (snd r) = None /\ summary (snd r) = None /\
  uploads stb = EvUpload (file_reference (snd r)) (content raw) :: uploads st.
Proof.
  intros Hi Hg H.
  destruct (store_object E a (sha3_256 E (content raw)) raw (entered a st))
    as [s1 fd|s1 e|s1] eqn:Hs.
  - destruct (add_file_begin_after_upload a raw ep st s1 fd Hi Hg Hs)
      as (stb' & Hb & Hrest).
    rewrite Hb in H. injection H as <- <-. simpl. auto.
  - exfalso. revert H. unfold add_file_begin.
    rewrite (bind_of_ok _ _ _ _ _ (ensure_ready_initialized E a st Hi)).
    cbv zeta. unfold cache_read. run.
    assert (Hge : dict_get (file_cache (entered a st))
                           (sha3_256 E (content raw)) = None)
      by (destruct a; exact Hg).
    rewrite Hge, Hs. discriminate.
  - exfalso. revert H. unfold add_file_begin.
    rewrite (bind_of_ok _ _ _ _ _ (ensure_ready_initialized E a st Hi)).
    cbv zeta. unfold cache_read. run.
    assert (Hge : dict_get (file_cache (entered a st))
                           (sha3_256 E (content raw)) = None)
      by (destruct a; exact Hg).
    rewrite Hge, Hs. discriminate.
Qed.

(** X6.  On an initialised adapter, after [add_file] on bytes the cache
    did not know, [download_file] for the checksum of the answer returns
    those bytes under the name and MIME type of the upload, whatever the
    level of the upload and whatever steady tasks ran during the sleep;
    the answer itself carries the name, the MIME type and the byte count
    of the upload. *)
Theorem add_file_then_download others a raw ep st st1 r :
  steady others ->
  initialized st = true ->
  dict_get (file_cache st) (sha3_256 E (content raw)) = None ->
  add_file E others a raw ep st = Ok st1 r ->
  name (file_data r) = raw_name raw /\
  mime_type (file_data r) = raw_mime_type raw /\
  size (file_data r) = byte_size (content raw) /\
  download_file E a (checksum r) st1 = Ok (entered a st1) raw.
Proof.
  intros Hs Hi Hg H.
  apply add_file_ok in H. destruct H as (stb & Hb & ->).
  destruct (add_file_begin_fresh a raw ep st stb _ Hi Hg Hb)
    as (Hc & Hib & Hgb & Hob & Hn & Hm & Hz & _).
  simpl in Hc, Hgb, Hob, Hn, Hm, Hz.
  set (fd := file_data r) in *. rewrite Hc. repeat split; auto.
  destruct (steady_entries _ Hs _ _ _ Hgb) as (fd' & Hg' & Hr' & Hn' & Hm').
  pose proof (steady_initialized _ Hs _ Hib) as Hi'.
  pose proof (steady_objects _ Hs stb) as Ho'.
  assert (Hfetch : dict_get (objects (others stb)) (file_reference fd')
                   = Some (content raw)) by congruence.
  assert (Hraw : mkRaw (content raw) (name fd') (mime_type fd') = raw)
    by (destruct raw; simpl in *; congruence).
  set (s := others stb) in *. clearbody s.
  destruct a; simpl.
  - change (s3_ensure_layout E) with (ensure_ready E S3).
    rewrite (bind_of_ok _ _ _ _ _ (ensure_ready_initialized E S3 s Hi')).
    simpl. unfold fetch_object. run.
    rewrite (get_cached_known _ s fd' Hg'), Hfetch, Hraw. reflexivity.
  - change (get_drive_service E) with (ensure_ready E GDrive).
    rewrite (bind_of_ok _ _ _ _ _ (ensure_ready_initialized E GDrive s Hi')).
    simpl. unfold fetch_object. run.
    rewrite (get_cached_known _ (with_drive_service true s) fd' Hg').
    simpl. rewrite Hfetch, Hraw. reflexivity.
  - unfold fetch_object. run.
    rewrite (get_cached_known _ s fd' Hg'), Hfetch, Hraw. reflexivity.
Qed.
End RoundTrip.

Lemma steady_alone : steady (fun st => st).
Proof. constructor; intros; eauto. Qed.

Lemma add_file_then_download_witness :
  exists st1 r,
    steady (fun st : State => st) /\
    initialized ready_state = true /\
    dict_get (file_cache ready_state) (sha3_256 demo_env (content hello_pdf))
    = None /\
    add_file demo_env (fun st => st) S3 hello_pdf P_none ready_state
    = Ok st1 r /\
    name (file_data r) = raw_name hello_pdf /\
    mime_type (file_data r) = raw_mime_type hello_pdf /\
    size (file_data r) = byte_size (content hello_pdf) /\
    download_file demo_env S3 (checksum r) st1 = Ok (entered S3 st1) hello_pdf.
Proof.
  destruct (add_file demo_env (fun st => st) S3 hello_pdf P_none ready_state)
    as [st1 r| |] eqn:H; try (vm_compute in H; discriminate).
  exists st1, r. split; [exact steady_alone|].
  split; [reflexivity|]. split; [reflexivity|]. split; [reflexivity|].
  exact (add_file_then_download demo_env _ S3 hello_pdf P_none ready_state st1 r
           steady_alone eq_refl eq_refl H).
Defined.

(** ** Deleting and storing again *)
Section Forgetting.
Variable E : Env.


End Forgetting.


(** ** Bootstrap from a document that is there *)
Section DictMembers.
Context {V : Type}.

Lemma dict_mem_set (d : dict V) k v c :
  dict_mem (dict_set d k v) c = String.eqb k c || dict_mem d c.
Proof.
  unfold dict_mem. destruct (String.eqb k c) eqn:Hk; simpl.
  - apply String.eqb_eq in Hk. subst. now rewrite dict_get_set_same.
  - apply String.eqb_neq in Hk.
    rewrite dict_get_set_other by congruence. reflexivity.
Qed.
End DictMembers.

Section BootstrapLoads.
Variable E : Env.

Lemma load_files_mem wrap items acc d :
  load_files E wrap items acc = inr d ->
  forall c, dict_mem d c = dict_mem items c || dict_mem acc c.
Proof.
  revert acc. induction items as [|[k j] r IH]; simpl; intros acc H c.
  - inversion H; subst. reflexivity.
  - destruct (FileData_of E j) as [e|fd]; [discriminate|].
    rewrite (IH _ H c), dict_mem_set. unfold dict_mem at 3. simpl.
    destruct (String.eqb k c) eqn:Hk; simpl.
    + now rewrite orb_true_r.
    + reflexivity.
Qed.

Lemma load_files_wrap wrap items acc e :
  load_files E (fun _ e => e) items acc = inl e ->
  exists c, In c (map fst items) /\
            load_files E wrap items acc = inl (wrap c e).
Proof.
  revert acc. induction items as [|[k j] r IH]; simpl; intros acc H;
    [discriminate|].
  destruct (FileData_of E j) as [e0|fd].
  - inversion H; subst. exists k. auto.
  - destruct (IH _ H) as (c & Hin & Hl). exists c. auto.
Qed.

Lemma load_files_ok_any wrap wrap' items acc d :
  load_files E wrap items acc = inr d -> load_files E wrap' items acc = inr d.
Proof.
  revert acc. induction items as [|[k j] r IH]; simpl; intros acc H; auto.
  destruct (FileData_of E j); [discriminate|]. auto.
Qed.

Lemma load_files_error_kind items acc e :
  load_files E (fun _ e => e) items acc = inl e ->
  e = TypeError \/ e = ValidationError.
Proof.
  revert acc. induction items as [|[k j] r IH]; simpl; intros acc H;
    [discriminate|].
  destruct (FileData_of E j) as [e0|fd] eqn:Hf; [|eauto].
  inversion H; subst. unfold FileData_of in Hf.
  destruct j; try (inversion Hf; auto; fail).
  destruct (validate_FileData E kv); inversion Hf; auto.
Qed.

(** The bootstrap of an uninitialised adapter whose document parses, as a
    function of the loop over its entries. *)
Lemma ensure_ready_document a st text metadata items :
  initialized st = false ->
  fault st = None ->
  (a = GDrive -> drive_service st = false -> oauth_credentials E = inr tt) ->
  document_of a st = Some text ->
  (a = S3 -> text <> EmptyString) ->
  json_loads E text = Some metadata ->
  metadata_files metadata = inr items ->
  match load_files E (fun _ e => e) items [] with
  | inr files =>
      exists st',
        ensure_ready E a st = Ok st' tt /\
        file_cache st' = files /\
        remote_meta st' = remote_meta st /\
        remote_writes st' = remote_writes st /\
        initialized st' = true
  | inl e =>
      exists st' e',
        ensure_ready E a st = Raise st' e' /\
        file_cache st' = file_cache st /\
        initialized st' = false /\
        remote_meta st' = remote_meta st /\
        match a with
        | S3 => exists c, In c (map fst items) /\ e' = s3_wrap c e
        | GDrive => e' = e
        | Local => e' = match e with TypeError => corrupted e | _ => e end
        end
  end.
Proof.
  destruct st as [fc pl ini ds rm ob mf ff fa ni tk tr]. simpl.
  intros -> -> Hcred Hd Hne Hj Hm.
  assert (Hc : a = GDrive ->
               (if ds || false then inr tt else oauth_credentials E) = inr tt).
  { intros Ha. destruct ds; [reflexivity|]. simpl. now apply Hcred. }
  destruct (load_files E (fun _ e => e) items []) as [e|files] eqn:Hl.
  - destruct (load_files_error_kind _ _ _ Hl) as [He|He].
    + destruct a; simpl in Hd.
      * subst rm. destruct text as [|ch text']; [now elim (Hne eq_refl)|].
        destruct (load_files_wrap s3_wrap _ _ _ Hl) as (c & Hin & Hw).
        unfold ensure_ready, s3_ensure_layout, s3_init_body, s3_get_metadata,
          loads, install_metadata. run. simpl. rewrite Hj. simpl.
        rewrite Hm. simpl. rewrite Hw. simpl.
        eexists. eexists. repeat split. eauto.
      * destruct mf; [subst rm|discriminate].
        unfold ensure_ready. rewrite get_drive_service_unfold. simpl.
        rewrite (Hc eq_refl).
        unfold gdrive_ensure_folder_structure,
          loads, install_metadata. run. simpl. rewrite Hj. simpl.
        rewrite Hm. simpl. rewrite Hl. simpl.
        eexists. eexists. repeat split.
      * subst rm.
        unfold ensure_ready, local_ensure_folder_structure, local_init_body,
          loads, install_metadata. run. simpl. rewrite Hj. simpl.
        rewrite Hm. simpl. rewrite Hl. simpl. subst e. simpl.
        eexists. eexists. repeat split.
    + destruct a; simpl in Hd.
      * subst rm. destruct text as [|ch text']; [now elim (Hne eq_refl)|].
        destruct (load_files_wrap s3_wrap _ _ _ Hl) as (c & Hin & Hw).
        unfold ensure_ready, s3_ensure_layout, s3_init_body, s3_get_metadata,
          loads, install_metadata. run. simpl. rewrite Hj. simpl.
        rewrite Hm. simpl. rewrite Hw. simpl.
        eexists. eexists. repeat split. eauto.
      * destruct mf; [subst rm|discriminate].
        unfold ensure_ready. rewrite get_drive_service_unfold. simpl.
        rewrite (Hc eq_refl).
        unfold gdrive_ensure_folder_structure,
          loads, install_metadata. run. simpl. rewrite Hj. simpl.
        rewrite Hm. simpl. rewrite Hl. simpl.
        eexists. eexists. repeat split.
      * subst rm.
        unfold ensure_ready, local_ensure_folder_structure, local_init_body,
          loads, install_metadata. run. simpl. rewrite Hj. simpl.
        rewrite Hm. simpl. rewrite Hl. simpl. subst e. simpl.
        eexists. eexists. repeat split.
  - destruct a; simpl in Hd.
    + subst rm. destruct text as [|ch text']; [now elim (Hne eq_refl)|].
      rewrite (load_files_ok_any _ s3_wrap _ _ _ Hl) || idtac.
      unfold ensure_ready, s3_ensure_layout, s3_init_body, s3_get_metadata,
        loads, install_metadata, cache_commit. run. simpl. rewrite Hj. simpl.
      rewrite Hm. simpl. rewrite (load_files_ok_any _ s3_wrap _ _ _ Hl). simpl.
      eexists. repeat split.
    + destruct mf; [subst rm|discriminate].
      unfold ensure_ready. rewrite get_drive_service_unfold. simpl.
      rewrite (Hc eq_refl).
      unfold gdrive_ensure_folder_structure,
        loads, install_metadata, cache_commit. run. simpl. rewrite Hj. simpl.
      rewrite Hm. simpl. rewrite Hl. simpl.
      eexists. repeat split.
    + subst rm.
      unfold ensure_ready, local_ensure_folder_structure, local_init_body,
        loads, install_metadata, cache_commit. run. simpl. rewrite Hj. simpl.
      rewrite Hm. simpl. rewrite Hl. simpl.
      eexists. repeat split.
Qed.
End BootstrapLoads.

(** X8.  The bootstrap of an uninitialised adapter that finds a metadata
    document which parses, and returns: the cache then knows exactly the
    checksums listed under [files] in the document (what the local cache
    held before is gone), each once, and the remote document has not been
    written. *)
Theorem bootstrap_replaces_cache E a st st' text metadata items :
  initialized st = false ->
  fault st = None ->
  document_of a st = Some text ->
  (a = S3 -> text <> EmptyString) ->
  json_loads E text = Some metadata ->
  metadata_files metadata = inr items ->
  ensure_ready E a st = Ok st' tt ->
  (forall c, dict_mem (file_cache st') c = dict_mem items c) /\
  unique_keys (file_cache st') /\
  remote_meta st' = remote_meta st /\
  remote_writes st' = remote_writes st /\
  initialized st' = true.
Proof.
  intros Hi Hf Hd Hne Hj Hm Hok.
  assert (Hcred : a = GDrive -> drive_service st = false ->
                  oauth_credentials E = inr tt).
  { intros -> Hds. simpl in Hok. rewrite get_drive_service_unfold in Hok.
    rewrite Hi, Hds in Hok. simpl in Hok.
    destruct (oauth_credentials E) as [e|[]]; [discriminate | reflexivity]. }
  pose proof (ensure_ready_document E a st text metadata items Hi Hf Hcred Hd
                Hne Hj Hm) as H.
  destruct (load_files E (fun _ e => e) items []) as [e|files] eqn:Hl.
  - destruct H as (s & e' & Hr & _). congruence.
  - destruct H as (s & Hs & Hc & Hr & Hw & Hi').
    rewrite Hs in Hok. injection Hok as <-.
    repeat split; auto.
    + intros c. rewrite Hc, (load_files_mem E _ _ _ _ Hl c).
      apply orb_false_r.
    + rewrite Hc. eapply load_files_unique; [exact Hl | constructor].
Qed.

Lemma bootstrap_replaces_cache_witness :
  let st := cold_state "files:sha3-hello" in
  let items := [("sha3-hello", JObj [("name", JStr "a.pdf")])] in
  exists st',
    initialized st = false /\
    fault st = None /\
    document_of Local st = Some "files:sha3-hello" /\
    (Local = S3 -> "files:sha3-hello" <> EmptyString) /\
    json_loads listing_env "files:sha3-hello"
    = Some (JObj [("files", JObj items)]) /\
    metadata_files (JObj [("files", JObj items)]) = inr items /\
    ensure_ready listing_env Local st = Ok st' tt /\
    dict_mem (file_cache st') "sha3-hello" = true /\
    dict_mem (file_cache st') "sha3-stale" = false /\
    remote_writes st' = remote_writes st.
Proof.
  intros st items.
  destruct (ensure_ready listing_env Local st) as [st' []| |] eqn:H;
    try (vm_compute in H; discriminate).
  exists st'.
  destruct (bootstrap_replaces_cache listing_env Local st st' "files:sha3-hello"
              (JObj [("files", JObj items)]) items eq_refl eq_refl eq_refl
              ltac:(discriminate) eq_refl eq_refl H)
    as (Hm & _ & _ & Hw & _).
  repeat (split; [first [reflexivity | discriminate]|]).
  split; [apply Hm|]. split; [apply Hm | exact Hw].
Defined.

Section InvalidEntry.
Variable E : Env.

Lemma load_files_invalid items acc c j e0 :
  In (c, j) items -> FileData_of E j = inl e0 ->
  exists e, load_files E (fun _ e => e) items acc = inl e.
Proof.
  revert acc. induction items as [|[k j'] r IH]; simpl; intros acc Hin Hf;
    [contradiction|].
  destruct (FileData_of E j') as [e|fd] eqn:Hj; [eauto|].
  destruct Hin as [Heq|Hin]; [inversion Heq; subst; congruence|].
  eapply IH; eauto.
Qed.

(** X9.  The bootstrap of an uninitialised adapter (on Drive: one that
    has a client or can get the credentials for one) whose document parses
    but lists an entry that is no valid [FileData]: nothing is loaded, the
    call raises, the cache and the remote document are as they were and
    the adapter stays uninitialised.  The object store raises a
    [ValueError] that names a checksum of the document; Drive lets the
    error of the construction through; the local adapter raises a
    [ValueError] whose message starts with [Metadata file is corrupted: ]
    for an entry that is no object and lets a validation error through. *)
Theorem bootstrap_rejects_invalid_entry a st text metadata items c j e0 :
  initialized st = false ->
  fault st = None ->
  (a = GDrive -> drive_service st = false -> oauth_credentials E = inr tt) ->
  document_of a st = Some text ->
  (a = S3 -> text <> EmptyString) ->
  json_loads E text = Some metadata ->
  metadata_files metadata = inr items ->
  In (c, j) items ->
  FileData_of E j = inl e0 ->
  exists st' e',
    ensure_ready E a st = Raise st' e' /\
    file_cache st' = file_cache st /\
    remote_meta st' = remote_meta st /\
    initialized st' = false /\
    match a with
    | S3 => exists c', In c' (map fst items) /\
                       e' = ValueError ("Invalid file metadata for checksum '"
                                        ++ c' ++ "'")
    | GDrive => e' = TypeError \/ e' = ValidationError
    | Local =>
        (exists detail,
           e' = ValueError ("Metadata file is corrupted: " ++ detail))
        \/ e' = ValidationError
    end.
Proof.
  intros Hi Hf Hcred Hd Hne Hj Hm Hin Hinv.
  pose proof (ensure_ready_document E a st text metadata items Hi Hf Hcred Hd
                Hne Hj Hm) as H.
  destruct (load_files_invalid items [] c j e0 Hin Hinv) as (e & Hl).
  rewrite Hl in H. destruct H as (st' & e' & Hr & Hc & Hi' & Hrm & He).
  exists st', e'. repeat split; auto.
  destruct (load_files_error_kind E _ _ _ Hl) as [->| ->]; destruct a; auto.
  left. exists (exn_text TypeError). exact He.
Qed.
End InvalidEntry.

Lemma bootstrap_rejects_invalid_entry_witness :
  let st := cold_state "files:broken" in
  let items := [("sha3-hello", JStr "a.pdf")] in
  initialized st = false /\
  fault st = None /\
  document_of Local st = Some "files:broken" /\
  json_loads listing_env "files:broken" = Some (JObj [("files", JObj items)]) /\
  metadata_files (JObj [("files", JObj items)]) = inr items /\
  In ("sha3-hello", JStr "a.pdf") items /\
  FileData_of listing_env (JStr "a.pdf") = inl TypeError /\
  exists st' e',
    ensure_ready listing_env Local st = Raise st' e' /\
    file_cache st' = file_cache st /\
    remote_meta st' = remote_meta st /\
    initialized st' = false /\
    ((exists detail,
        e' = ValueError ("Metadata file is corrupted: " ++ detail))
     \/ e' = ValidationError).
Proof.
  intros st items.
  repeat (split; [first [reflexivity | discriminate | left; reflexivity]|]).
  exact (bootstrap_rejects_invalid_entry listing_env Local st "files:broken"
           (JObj [("files", JObj items)]) items "sha3-hello" (JStr "a.pdf")
           TypeError eq_refl eq_refl (fun _ _ => eq_refl) eq_refl
           ltac:(discriminate) eq_refl eq_refl
           (or_introl eq_refl) eq_refl).
Defined.

(** X10.  The first read of the metadata object on the object store fails
    with a client error: under the codes [NoSuchKey], [NotFound] and [404]
    the bootstrap creates the empty document, empties the cache and
    returns; under any other code it raises that error again and leaves the
    cache, the medium and the flag as they were. *)
Theorem s3_client_error_dispatch E st code :
  initialized st = false ->
  fault st = Some code ->
  if missing_code code
  then exists st',
         ensure_ready E S3 st = Ok st' tt /\
         file_cache st' = [] /\
         remote_meta st' = Some empty_document /\
         initialized st' = true
  else ensure_ready E S3 st = Raise st (ClientError code).
Proof.
  destruct st as [fc pl ini ds rm ob mf ff fa ni tk tr]. simpl.
  intros -> ->.
  unfold s3_ensure_layout, s3_init_body, s3_get_metadata, cache_commit.
  run. simpl.
  destruct (missing_code code); [|reflexivity].
  eexists. repeat split.
Qed.

Lemma s3_client_error_dispatch_witness :
  initialized (faulty_state "AccessDenied") = false /\
  fault (faulty_state "AccessDenied") = Some "AccessDenied" /\
  ensure_ready demo_env S3 (faulty_state "AccessDenied")
  = Raise (faulty_state "AccessDenied") (ClientError "AccessDenied").
Proof.
  split; [reflexivity|]. split; [reflexivity|].
  exact (s3_client_error_dispatch demo_env (faulty_state "AccessDenied")
           "AccessDenied" eq_refl eq_refl).
Defined.

(** ** Metadata updates *)
Section Updates.
Variable E : Env.

(** A name the object has no attribute for makes the updates fail,
    wherever it stands. *)
Lemma apply_updates_unknown_key fd updates k :
  In (U_other k) updates ->
  hasattr_FileData E k = false ->
  exists e, apply_updates E fd updates = inl e.
Proof.
  intros Hin Hk. revert fd Hin.
  induction updates as [|u r IH]; intros fd Hin; [contradiction|].
  simpl. destruct (apply_update E fd u) as [e|fd'] eqn:Hu; [eauto|].
  destruct Hin as [->|Hin]; [|now apply IH].
  simpl in Hu. rewrite Hk in Hu. discriminate.
Qed.

(** After updates of fields only, it is reported as an invalid attribute. *)
Lemma apply_updates_invalid_attribute fd fields k rest :
  forallb is_field fields = true ->
  hasattr_FileData E k = false ->
  apply_updates E fd (fields ++ U_other k :: rest)
  = inl (ValueError ("Invalid attribute '" ++ k ++ "' for FileData.")).
Proof.
  intros Hf Hk. revert fd Hf.
  induction fields as [|u r IH]; intros fd Hf; simpl.
  - now rewrite Hk.
  - simpl in Hf. apply andb_true_iff in Hf. destruct Hf as [Hu Hr].
    destruct u; simpl in Hu; try discriminate; simpl; now apply IH.
Qed.

Lemma update_file_data_initialized a c updates st fd :
  initialized st = true ->
  dict_get (file_cache st) c = Some fd ->
  match apply_updates E fd updates with
  | inr fd' =>
      exists st',
        update_file_data E a c updates st = Ok st' tt /\
        file_cache st' = dict_set (file_cache st) c fd' /\
        published E a st'
  | inl e =>
      exists st',
        update_file_data E a c updates st = Raise st' e /\
        remote_meta st' = remote_meta st /\
        remote_writes st' = remote_writes st
  end.
Proof.
  intros Hi Hg.
  destruct (apply_updates E fd updates) as [e|fd'] eqn:Hu; destruct a; simpl.
  - change (s3_ensure_layout E) with (ensure_ready E S3).
    rewrite (bind_of_ok _ _ _ _ _ (ensure_ready_initialized E S3 st Hi)).
    simpl. unfold update_in_cache, cache_read. run. rewrite Hg, Hu.
    eexists. repeat split.
  - unfold update_in_cache, cache_read. run. rewrite Hg, Hu.
    eexists. repeat split.
  - unfold update_in_cache, cache_read. run. rewrite Hg, Hu.
    eexists. repeat split.
  - change (s3_ensure_layout E) with (ensure_ready E S3).
    rewrite (bind_of_ok _ _ _ _ _ (ensure_ready_initialized E S3 st Hi)).
    simpl. unfold update_in_cache, cache_read, cache_commit, s3_push_metadata.
    run. rewrite Hg, Hu. simpl.
    eexists. split; [reflexivity|]. simpl. split; [reflexivity|].
    split; simpl; eauto.
  - unfold update_in_cache, cache_read, cache_commit, gdrive_push_metadata.
    rewrite (bind_of_ok _ _ _ (with_cache (dict_set (file_cache st) c fd') st) tt)
      by (run; rewrite Hg, Hu; reflexivity).
    run. change (get_drive_service E) with (ensure_ready E GDrive).
    rewrite ensure_ready_initialized by exact Hi.
    eexists. split; [reflexivity|]. simpl. split; [reflexivity|].
    split; simpl; eauto.
  - unfold update_in_cache, cache_read, cache_commit, local_save_metadata.
    run. rewrite Hg, Hu. simpl.
    eexists. split; [reflexivity|]. simpl. split; [reflexivity|].
    split; simpl; eauto.
Qed.

(** X11.  [update_file_data] on an initialised adapter and a known
    checksum.  When every update is taken, the entry becomes the old one
    with the updates applied in order, the other entries stay, and the
    whole cache is published.  When an update fails the call raises its
    error and the remote document is not written.  A name [FileData] has
    no attribute for makes the call fail wherever it stands in the
    updates, with the [ValueError] for an invalid attribute when only
    fields come before it. *)
Theorem update_file_data_all_or_nothing a c updates st fd :
  initialized st = true ->
  dict_get (file_cache st) c = Some fd ->
  (forall fd',
     apply_updates E fd updates = inr fd' ->
     exists st',
       update_file_data E a c updates st = Ok st' tt /\
       dict_get (file_cache st') c = Some fd' /\
       (forall c', c' <> c ->
                   dict_get (file_cache st') c' = dict_get (file_cache st) c') /\
       published E a st') /\
  (forall k,
     In (U_other k) updates ->
     hasattr_FileData E k = false ->
     exists st' e,
       update_file_data E a c updates st = Raise st' e /\
       remote_meta st' = remote_meta st /\
       remote_writes st' = remote_writes st) /\
  (forall fields k rest,
     updates = (fields ++ U_other k :: rest)%list ->
     forallb is_field fields = true ->
     hasattr_FileData E k = false ->
     exists st',
       update_file_data E a c updates st
       = Raise st' (ValueError ("Invalid attribute '" ++ k ++ "' for FileData.")) /\
       remote_meta st' = remote_meta st /\
       remote_writes st' = remote_writes st).
Proof.
  intros Hi Hg.
  pose proof (update_file_data_initialized a c updates st fd Hi Hg) as H.
  split; [|split].
  - intros fd' Hu. rewrite Hu in H. destruct H as (st' & Ho & Hc & Hp).
    exists st'. repeat split; auto.
    + rewrite Hc. apply dict_get_set_same.
    + intros c' Hne. rewrite Hc. now apply dict_get_set_other.
    + apply Hp.
    + apply Hp.
  - intros k Hin Hk.
    destruct (apply_updates_unknown_key fd updates k Hin Hk) as (e & Hu).
    rewrite Hu in H. destruct H as (st' & Hr & Hm & Hw).
    exists st', e. auto.
  - intros fields k rest -> Hf Hk.
    rewrite (apply_updates_invalid_attribute fd fields k rest Hf Hk) in H.
    exact H.
Qed.

(** The Drive adapter before its first call: [update_file_data] changes
    the cache, keeps what it read afterwards, and only then builds the
    client and runs the bootstrap, which replaces the cache by the entries
    of the remote document; the document is then overwritten with the
    serialisation of the cache as it was read before. *)
Lemma gdrive_update_before_bootstrap c updates st fd fd' text metadata items
      files :
  initialized st = false ->
  fault st = None ->
  (drive_service st = false -> oauth_credentials E = inr tt) ->
  document_of GDrive st = Some text ->
  json_loads E text = Some metadata ->
  metadata_files metadata = inr items ->
  load_files E (fun _ e => e) items [] = inr files ->
  dict_get (file_cache st) c = Some fd ->
  apply_updates E fd updates = inr fd' ->
  exists st',
    update_file_data E GDrive c updates st = Ok st' tt /\
    file_cache st' = files /\
    remote_meta st'
    = Some (model_dump_json E None (dict_set (file_cache st) c fd')).
Proof.
  intros Hi Hf Hcred Hd Hj Hm Hl Hg Hu. simpl.
  set (s1 := with_cache (dict_set (file_cache st) c fd') st).
  rewrite (bind_of_ok _ _ _ s1 tt)
    by (unfold update_in_cache, cache_read, cache_commit; run;
        rewrite Hg, Hu; reflexivity).
  unfold cache_read. unfold bind at 1, gets.
  pose proof (ensure_ready_document E GDrive s1 text metadata items Hi Hf
                (fun _ => Hcred) Hd ltac:(discriminate) Hj Hm) as H.
  rewrite Hl in H. destruct H as (s2 & Hr & Hc2 & _).
  simpl in Hr. unfold bind at 1. rewrite Hr.
  unfold gdrive_push_metadata. run.
  eexists. split; [reflexivity|]. simpl. split; [exact Hc2 | reflexivity].
Qed.

(** X12.  [add_file_data] that returns has put the metadata under the
    checksum and then overwritten the remote document with the
    serialisation of the whole cache, on every adapter; on an initialised
    adapter the other entries of the cache are as before. *)
Theorem add_file_data_publishes a c fd st st' :
  add_file_data E a c fd st = Ok st' tt ->
  dict_get (file_cache st') c = Some fd /\
  published E a st' /\
  (initialized st = true ->
   forall c', c' <> c ->
              dict_get (file_cache st') c' = dict_get (file_cache st) c').
Proof.
  intros H. split; [eapply add_file_data_entry; eauto|].
  split; [eapply add_file_data_published; eauto|].
  intros Hi c' Hne.
  destruct (add_file_data_initialized E a c fd st Hi) as (s & Hs & Hc & _).
  rewrite Hs in H. injection H as <-. rewrite Hc.
  now apply dict_get_set_other.
Qed.
End Updates.

Lemma update_file_data_all_or_nothing_witness :
  let good := [U_name "b.pdf"; U_summary (Some "short")] in
  let bad := [U_name "b.pdf"; U_other "owner"] in
  initialized drive_state = true /\
  dict_get (file_cache drive_state) "sha3-hello" = Some drive_file /\
  hasattr_FileData demo_env "owner" = false /\
  (exists st',
     update_file_data demo_env GDrive "sha3-hello" good drive_state
     = Ok st' tt /\
     published demo_env GDrive st') /\
  (exists st',
     update_file_data demo_env GDrive "sha3-hello" bad drive_state
     = Raise st' (ValueError "Invalid attribute 'owner' for FileData.") /\
     remote_meta st' = remote_meta drive_state).
Proof.
  intros good bad. split; [reflexivity|]. split; [reflexivity|].
  split; [reflexivity|].
  destruct (update_file_data_all_or_nothing demo_env GDrive "sha3-hello" good
              drive_state drive_file eq_refl eq_refl) as [Hg _].
  destruct (update_file_data_all_or_nothing demo_env GDrive "sha3-hello" bad
              drive_state drive_file eq_refl eq_refl) as (_ & _ & Hb).
  split.
  - destruct (Hg _ eq_refl) as (st' & Ho & _ & _ & Hp). eauto.
  - destruct (Hb [U_name "b.pdf"] "owner" [] eq_refl eq_refl eq_refl)
      as (st' & Hr & Hm & _). eauto.
Defined.

Lemma add_file_data_publishes_witness :
  exists st',
    add_file_data demo_env S3 "sha3-new" demo_file empty_state = Ok st' tt /\
    dict_get (file_cache st') "sha3-new" = Some demo_file /\
    published demo_env S3 st'.
Proof.
  destruct (add_file_data demo_env S3 "sha3-new" demo_file empty_state)
    as [st' []| |] eqn:H; try (vm_compute in H; discriminate).
  exists st'. split; [reflexivity|].
  destruct (add_file_data_publishes demo_env S3 "sha3-new" demo_file
              empty_state st' H) as (He & Hp & _).
  split; assumption.
Defined.

(** ** The endpoints *)
Lemma guarded_status {A} what (c : M A) st :
  status_of (guarded what c st) = Some 200%Z \/
  status_of (guarded what c st) = Some 500%Z \/
  status_of (guarded what c st) = None.
Proof.
  unfold guarded, try_except. destruct (c st); simpl; auto.
Qed.

Lemma guarded_raise {A} what (c : M A) st st' e :
  c st = Raise st' e ->
  guarded what c st = Raise st' (HTTPException 500 (what ++ exn_text e)).
Proof. unfold guarded, try_except. intros ->. reflexivity. Qed.

Lemma guarded_ok {A} what (c : M A) st st' x :
  c st = Ok st' x -> guarded what c st = Ok st' x.
Proof. unfold guarded, try_except. intros ->. reflexivity. Qed.

(** *** Nothing but [acquire] waits *)
Lemma never_waits_ret {A} (a : A) : never_waits (ret a).
Proof. intros st. exact I. Qed.

Lemma never_waits_raise {A} (e : exn) : never_waits (@raise A e).
Proof. intros st. exact I. Qed.

Lemma never_waits_gets {A} (f : State -> A) : never_waits (gets f).
Proof. intros st. exact I. Qed.

Lemma never_waits_modify (g : State -> State) : never_waits (modify g).
Proof. intros st. exact I. Qed.

Lemma never_waits_lift {A} (r : exn + A) : never_waits (lift r).
Proof. destruct r; intros st; exact I. Qed.

Lemma never_waits_bind {A B} (c : M A) (k : A -> M B) :
  never_waits c -> (forall a, never_waits (k a)) -> never_waits (bind c k).
Proof.
  intros Hc Hk st. unfold bind. specialize (Hc st).
  destruct (c st) as [st' a|st' e|st']; auto. apply Hk.
Qed.

Lemma never_waits_try {A} (c : M A) (h : exn -> option (M A)) :
  never_waits c -> (forall e k, h e = Some k -> never_waits k) ->
  never_waits (try_except c h).
Proof.
  intros Hc Hh st. unfold try_except. specialize (Hc st).
  destruct (c st) as [st' a|st' e|st']; auto.
  destruct (h e) as [k|] eqn:He; auto. exact (Hh e k He st').
Qed.

Lemma never_waits_s3_get_metadata : never_waits s3_get_metadata.
Proof.
  intros st. unfold s3_get_metadata.
  destruct (fault st); [exact I|]. destruct (remote_meta st); exact I.
Qed.

Ltac settle_with special :=
  repeat first
    [ special
    | apply never_waits_ret
    | apply never_waits_raise
    | apply never_waits_gets
    | apply never_waits_modify
    | apply never_waits_lift
    | apply never_waits_s3_get_metadata
    | apply never_waits_bind; [| intros ?]
    | apply never_waits_try;
      [| let e := fresh "e" in let k := fresh "k" in let H := fresh "H" in
         intros e k H; destruct e; simpl in H; inversion H; subst; clear H]
    | match goal with
      | |- never_waits (match ?x with _ => _ end) => destruct x
      | |- never_waits (let _ := _ in _) => cbv zeta
      end
    | progress unfold
        cache_read, cache_commit, summarize_document, process_document,
        get_cached_file_data, get_file_data_with, file_exists, loads,
        install_metadata, s3_init_body, s3_ensure_layout, s3_push_metadata,
        s3_add_file_data, local_save_metadata, local_init_body,
        local_ensure_folder_structure, local_add_file_data,
        gdrive_ensure_folder_structure, get_drive_service,
        gdrive_push_metadata, gdrive_add_file_data, ensure_ready,
        add_file_data, fetch_object, download_file, derive, update_in_cache,
        remove_from_cache, now, store_object, schedule, respond, add_file,
        add_file_begin, search_files, delete_file, download_link, guarded,
        upload_file, upload_file_body ].

Ltac settle := settle_with ltac:(fail).

Section NeverWaits.
Variable E : Env.

Lemma search_files_never_waits a q : never_waits (search_files E a q).
Proof. destruct a; settle. Qed.

Lemma download_link_never_waits L a c : never_waits (download_link E L a c).
Proof. destruct a; settle. Qed.

Lemma delete_file_never_waits a c : never_waits (delete_file E a c).
Proof. destruct a; settle. Qed.

Lemma add_file_never_waits others a raw ep :
  never_waits (add_file E others a raw ep).
Proof. destruct a; settle. Qed.

Lemma upload_file_never_waits others a file ep :
  never_waits (upload_file E others a file ep).
Proof.
  unfold upload_file. apply never_waits_try.
  - unfold upload_file_body. cbv zeta.
    repeat match goal with
           | |- never_waits (if ?b then _ else _) => destruct b
           end;
      first [apply never_waits_raise | apply add_file_never_waits].
  - intros e k H. inversion H; subst. apply never_waits_raise.
Qed.

Lemma derivation_never_waits a c ep raw : never_waits (derivation E a c ep raw).
Proof.
  unfold derivation.
  apply never_waits_bind; [settle | intros fd].
  destruct (needs_derivation ep fd); [|apply never_waits_ret].
  apply never_waits_bind; [destruct raw; [settle | destruct a; settle] | intros r].
  apply never_waits_bind; [| intros fd'; destruct a; settle].
  destruct (supported_mime (raw_mime_type r)); settle.
Qed.

(** A pipeline call that waits found the lock of its checksum held, and
    waits in the state it started from. *)
Lemma ensure_ocr_waits a c ep raw st st' :
  ensure_ocr E a c ep raw st = Blocked st' ->
  is_locked (processing_locks st) c = true /\ st' = st.
Proof.
  destruct ep; [discriminate | |];
    (unfold ensure_ocr, cache_read, create_lock;
     unfold bind at 1, gets;
     destruct (dict_get (file_cache st) c); [|discriminate];
     unfold bind at 1; unfold bind at 1, gets;
     destruct (dict_mem (processing_locks st) c) eqn:Hm; unfold ret, modify;
     unfold bind at 1, acquire;
     [ destruct (is_locked (processing_locks st) c) eqn:Hl;
       [ intros H; inversion H; auto |]
     | simpl; rewrite is_locked_set ];
     intros H; exfalso;
     match type of H with
     | bind (derivation E a c ?p raw) _ ?s = _ =>
         pose proof (derivation_never_waits a c p raw s) as Hd;
         unfold bind in H; destruct (derivation E a c p raw s);
         [discriminate H | discriminate H | exact Hd]
     end).
Qed.
End NeverWaits.

Lemma guarded_answers {A} what (c : M A) st :
  never_waits c -> answers (status_of (guarded what c st)).
Proof.
  intros H. specialize (H st). unfold guarded, try_except, answers.
  destruct (c st); simpl; auto. contradiction.
Qed.

(** X13.  What a request can get from the endpoints.  The existence test
    always answers with status 200, the answer being whether the cache
    knows the checksum.  Listing, link, deletion, upload and the
    description at level none answer with status 200 or 500 and never
    leave a request waiting.  The description at level ocr or summary is
    the one endpoint that can wait, and it does so only while the lock of
    its checksum is held, having changed nothing. *)
Theorem api_answers_200_or_500 E L others a c ep file st :
  answers (status_of (Api.list_files E a st)) /\
  Api.file_exists a c st = Ok st (dict_mem (file_cache st) c) /\
  answers (status_of (Api.get_file E L a c st)) /\
  answers (status_of (Api.get_file_data E a c P_none st)) /\
  answers (status_of (Api.delete_file E a c st)) /\
  answers (status_of (upload_file E others a file ep st)) /\
  match Api.get_file_data E a c ep st with
  | Blocked st' => is_locked (processing_locks st) c = true /\ st' = st
  | o => answers (status_of o)
  end.
Proof.
  split; [apply guarded_answers, search_files_never_waits|].
  split; [reflexivity|].
  split; [apply guarded_answers, download_link_never_waits|].
  split.
  { apply guarded_answers. unfold get_file_data. settle. }
  split.
  { apply guarded_answers.
    apply never_waits_bind; [apply delete_file_never_waits | intros _].
    apply never_waits_ret. }
  split.
  { pose proof (upload_file_never_waits E others a file ep st) as H.
    unfold answers.
    destruct (upload_file E others a file ep st) as [s r|s e|s] eqn:Hu;
      [left; reflexivity | | contradiction].
    right. revert Hu. unfold upload_file, try_except.
    destruct (upload_file_body E others a file ep st); try discriminate.
    intros Hu. inversion Hu; subst. reflexivity. }
  unfold Api.get_file_data, guarded, try_except.
  destruct (get_file_data E a c ep st) as [s fd|s e|s] eqn:Hg; simpl;
    [left; reflexivity | right; reflexivity |].
  revert Hg. unfold get_file_data, get_file_data_with, cache_read.
  unfold bind at 1, gets.
  destruct (dict_get (file_cache st) c); [|discriminate].
  destruct ep; [discriminate | |];
    (unfold bind at 1;
     destruct (ensure_ocr E a c _ None st) as [s1 []|s1 e1|s1] eqn:Ho;
     [ run; destruct (dict_get (file_cache s1) c); discriminate
     | discriminate
     | intros H; inversion H; subst;
       exact (ensure_ocr_waits E a c _ None st s Ho) ]).
Qed.

Lemma api_answers_200_or_500_witness :
  let st := with_locks [("sha3-hello", true)] one_file_state in
  Api.get_file_data demo_env Local "sha3-hello" P_ocr st = Blocked st /\
  is_locked (processing_locks st) "sha3-hello" = true /\
  status_of (Api.get_file_data demo_env Local "sha3-hello" P_none st)
  = Some 200%Z /\
  status_of (Api.delete_file demo_env Local "sha3-other" st) = Some 500%Z.
Proof.
  intros st.
  destruct (api_answers_200_or_500 demo_env demo_links (fun s => s) Local
              "sha3-hello" P_ocr (mkUpload "x" None None None) st)
    as (_ & _ & _ & _ & _ & _ & H).
  destruct (Api.get_file_data demo_env Local "sha3-hello" P_ocr st)
    as [s fd|s e|s] eqn:Hb; try (vm_compute in Hb; discriminate).
  destruct H as [Hl ->]. split; [reflexivity|]. split; [exact Hl|].
  split; reflexivity.
Defined.

(** X14.  Through the endpoints, on an initialised adapter, a checksum the
    cache does not know gives: false from the existence test, with status
    200; status 500 with the lookup's message from the link, description
    and deletion endpoints, and the state of the service is not changed
    (the Drive adapter keeps the client object it built for the link). *)
Theorem api_unknown_checksum E L a c ep st :
  initialized st = true ->
  dict_get (file_cache st) c = None ->
  Api.file_exists a c st = Ok st false /\
  Api.get_file E L a c st
  = Raise (entered a st)
          (HTTPException 500 ("File download link generation failed: "
                              ++ exn_text (no_file c))) /\
  Api.get_file_data E a c ep st
  = Raise st (HTTPException 500 ("File data retrieval failed: "
                                 ++ exn_text (no_file c))) /\
  Api.delete_file E a c st
  = Raise st (HTTPException 500 ("File deletion failed: "
                                 ++ exn_text (no_file c))).
Proof.
  intros Hi Hg. split; [|split; [|split]].
  - apply guarded_ok. unfold file_exists, cache_read. run.
    unfold dict_mem. now rewrite Hg.
  - apply guarded_raise. destruct a; simpl.
    + change (s3_ensure_layout E) with (ensure_ready E S3).
      rewrite (bind_of_ok _ _ _ _ _ (ensure_ready_initialized E S3 st Hi)).
      unfold bind. now rewrite get_cached_unknown.
    + change (get_drive_service E) with (ensure_ready E GDrive).
      rewrite (bind_of_ok _ _ _ _ _ (ensure_ready_initialized E GDrive st Hi)).
      unfold bind. now rewrite get_cached_unknown.
    + unfold bind. now rewrite get_cached_unknown.
  - apply guarded_raise.
    unfold get_file_data, get_file_data_with, cache_read. run. now rewrite Hg.
  - apply guarded_raise. unfold bind.
    rewrite delete_file_unknown; auto.
Qed.

Lemma api_unknown_checksum_witness :
  initialized drive_state = true /\
  dict_get (file_cache drive_state) "sha3-other" = None /\
  Api.file_exists GDrive "sha3-other" drive_state = Ok drive_state false /\
  status_of (Api.delete_file demo_env GDrive "sha3-other" drive_state)
  = Some 500%Z.
Proof.
  split; [reflexivity|]. split; [reflexivity|].
  destruct (api_unknown_checksum demo_env demo_links GDrive "sha3-other" P_none
              drive_state eq_refl eq_refl) as (H1 & _ & _ & H4).
  split; [exact H1|]. rewrite H4. reflexivity.
Defined.

(** ** Share links *)

(** X15.  [download_link] for a known checksum on an initialised adapter.
    The local adapter answers [local://] followed by the stored path and
    touches nothing.  The Drive adapter answers the download link of the
    file when it has one of at least one character and its view link
    otherwise, and only after the grant of public read access succeeded; a
    failed grant, a failed lookup of the links and a file without any link
    all surface as a [ValueError] whose message starts with
    [Failed to create share link: ]. *)
Theorem download_link_outcomes E L c st fd :
  initialized st = true ->
  dict_get (file_cache st) c = Some fd ->
  download_link E L Local c st = Ok st ("local://" ++ file_reference fd) /\
  match download_link E L GDrive c st with
  | Ok _ link =>
      is_empty link = false /\
      grant_public_read L (file_reference fd) = inr tt /\
      exists content_link view_link,
        drive_links L (file_reference fd) = inr (content_link, view_link) /\
        (if truthy_str content_link then content_link = Some link
         else view_link = Some link)
  | Raise _ e =>
      exists detail, e = ValueError ("Failed to create share link: " ++ detail)
  | Blocked _ => False
  end.
Proof.
  intros Hi Hg. split.
  - simpl. unfold bind. now rewrite (get_cached_known c st fd Hg).
  - simpl. change (get_drive_service E) with (ensure_ready E GDrive).
    rewrite (bind_of_ok _ _ _ _ _ (ensure_ready_initialized E GDrive st Hi)).
    unfold bind at 1.
    rewrite (get_cached_known c (entered GDrive st) fd Hg).
    unfold try_except, or_else. run.
    destruct (grant_public_read L (file_reference fd)) as [e|[]]; simpl; [eauto|].
    destruct (drive_links L (file_reference fd)) as [e|[cl vl]]; simpl; [eauto|].
    destruct cl as [cl|]; simpl.
    + destruct (is_empty cl) eqn:Hc; simpl.
      * destruct vl as [vl|]; simpl; [|eauto].
        destruct (is_empty vl) eqn:Hv; simpl; [eauto|].
        split; [exact Hv|]. split; [reflexivity|].
        exists (Some cl), (Some vl). simpl. rewrite Hc. simpl. auto.
      * rewrite ?Hc. simpl.
        split; [first [exact Hc | reflexivity]|]. split; [reflexivity|].
        exists (Some cl), vl. simpl. rewrite Hc. simpl. auto.
    + destruct vl as [vl|]; simpl; [|eauto].
      destruct (is_empty vl) eqn:Hv; simpl; [eauto|].
      split; [exact Hv|]. split; [reflexivity|].
      exists None, (Some vl). simpl. auto.
Qed.

Lemma download_link_outcomes_witness :
  initialized drive_state = true /\
  dict_get (file_cache drive_state) "sha3-hello" = Some drive_file /\
  download_link demo_env demo_links Local "sha3-hello" drive_state
  = Ok drive_state "local://drive-0" /\
  download_link demo_env demo_links GDrive "sha3-hello" drive_state
  = Ok drive_state "https://drive.example/view/drive-0".
Proof.
  split; [reflexivity|]. split; [reflexivity|].
  destruct (download_link_outcomes demo_env demo_links "sha3-hello" drive_state
              drive_file eq_refl eq_refl) as [H1 _].
  split; [exact H1 | reflexivity].
Defined.

(** ** What the upload endpoint lets through *)

(** X17.  [upload_file] hands a file to [add_file] exactly when its content
    type has at least one character, its size is neither missing nor zero
    nor above 5 MiB (5 MiB itself passes), and its MIME type is
    [application/pdf] or starts with [image/]; the file goes under the name
    [uploaded_file] when the part carries no file name.  Every other file
    is answered with status 500 and leaves the state of the service as it
    was: nothing is stored, initialised or scheduled. *)
Theorem upload_file_acceptance E others a file ep st :
  if accepted file
  then upload_file E others a file ep st
       = guarded "File upload failed: "
                 (add_file E others a (raw_of_upload file) ep) st
  else exists detail,
         upload_file E others a file ep st
         = Raise st (HTTPException 500 ("File upload failed: " ++ detail)).
Proof.
  unfold accepted, upload_file, guarded, try_except, upload_file_body,
    raw_of_upload, supported_mime.
  destruct (content_type file) as [ct|]; simpl;
    [|eexists; reflexivity].
  destruct (is_empty ct); simpl; [eexists; reflexivity|].
  destruct (upload_size file) as [z|]; simpl; [|eexists; reflexivity].
  destruct (Z.eqb z 0); simpl; [eexists; reflexivity|].
  destruct (Z.ltb max_upload_size z); simpl; [eexists; reflexivity|].
  destruct (String.eqb ct "application/pdf"); simpl; [reflexivity|].
  destruct (String.prefix "image/" ct); simpl;
    [reflexivity | eexists; reflexivity].
Qed.

Lemma upload_size_bounds :
  accepted (mkUpload "x" None (Some "image/svg+xml") (Some max_upload_size))
  = true /\
  accepted (mkUpload "x" None (Some "application/pdf")
                     (Some (max_upload_size + 1)%Z)) = false /\
  accepted (mkUpload EmptyString (Some "a.pdf") (Some "application/pdf")
                     (Some 0%Z)) = false /\
  accepted (mkUpload "x" (Some "a.png") (Some "IMAGE/PNG") (Some 1%Z)) = false.
Proof. repeat split. Qed.

(** ** A stored file is visible *)
Lemma dict_get_in_keys {V} (d : dict V) k v :
  dict_get d k = Some v -> In k (map fst d).
Proof.
  induction d as [|[k' v'] r IH]; simpl; [discriminate|].
  destruct (String.eqb k' k) eqn:Hk; intros H.
  - apply String.eqb_eq in Hk. auto.
  - right. auto.
Qed.

(** X18.  After [add_file] returned, with quiet tasks during its sleep,
    [file_exists] answers true for the checksum of the answer and
    [search_files], under any query, lists that checksum with the
    reference and name of the answer. *)
Theorem add_file_is_visible E others a raw ep q st st1 r :
  quiet others ->
  add_file E others a raw ep st = Ok st1 r ->
  file_exists (checksum r) st1 = Ok st1 true /\
  exists answer entry,
    search_files E a q st1 = Ok (entered a st1) answer /\
    In entry answer /\
    checksum entry = checksum r /\
    file_reference (file_data entry) = file_reference (file_data r) /\
    name (file_data entry) = name (file_data r).
Proof.
  intros Hq H.
  apply add_file_ok in H. destruct H as (stb & Hb & ->).
  apply add_file_begin_spec in Hb. simpl in Hb.
  destruct Hb as (_ & Hi & Hg & _).
  destruct (quiet_entries _ Hq _ _ _ Hg) as (fd' & Hg' & Hr & Hn).
  pose proof (quiet_initialized _ Hq _ Hi) as Hi'.
  set (s := others stb) in *. clearbody s. split.
  - unfold file_exists, cache_read. run. unfold dict_mem. now rewrite Hg'.
  - unfold search_files.
    rewrite (bind_of_ok _ _ _ _ _ (ensure_ready_initialized E a s Hi')).
    unfold cache_read. run.
    assert (Hc : file_cache (entered a s) = file_cache s)
      by (destruct a; reflexivity).
    assert (Hl : processing_locks (entered a s) = processing_locks s)
      by (destruct a; reflexivity).
    rewrite Hc, Hl. eexists.
    exists (mkResponse (checksum r) (is_locked (processing_locks s) (checksum r)) fd').
    split; [reflexivity|]. split; [|simpl; auto].
    unfold dict_items. clear - Hg'.
    induction (file_cache s) as [|[k v] rest IH]; simpl in *; [discriminate|].
    destruct (String.eqb k (checksum r)) eqn:Hk.
    + apply String.eqb_eq in Hk. inversion Hg'; subst. now left.
    + right. now apply IH.
Qed.

Lemma add_file_is_visible_witness :
  exists st1 r,
    quiet (fun st : State => st) /\
    add_file demo_env (fun st => st) GDrive hello_pdf P_ocr empty_state
    = Ok st1 r /\
    file_exists (checksum r) st1 = Ok st1 true.
Proof.
  destruct (add_file demo_env (fun st => st) GDrive hello_pdf P_ocr empty_state)
    as [st1 r| |] eqn:H; try (vm_compute in H; discriminate).
  exists st1, r. split; [exact quiet_alone|]. split; [reflexivity|].
  exact (proj1 (add_file_is_visible demo_env _ GDrive hello_pdf P_ocr
                  default_query empty_state st1 r quiet_alone H)).
Defined.

(** * Further properties: the redirect, the mailbox and the storage client *)

(** ** The OAuth redirect *)

Lemma force_https_secure url : String.prefix "http://" (force_https url) = false.
Proof.
  unfold force_https. destruct (String.prefix "http://" url) eqn:H; [|exact H].
  reflexivity.
Qed.

(** X19.  The redirect endpoint honours a login once.  It succeeds only for
    a locid with a flow under way whose exchange with the provider
    succeeds, and the provider is never handed an address that starts with
    [http://]; the credentials are then held in memory and stored under the
    locid, the flow is gone, and every further redirect for the locid is
    answered with status 400.  Every failure is answered with status 400
    and a detail that starts with [Authentication failed: ], and leaves the
    manager as it was, the flow still under way. *)
Theorem authenticate_honoured_once fetch_token to_json locid url s :
  match authenticate fetch_token to_json locid url s with
  | (s', inr _) =>
      exists flow credentials,
        dict_get (pending_flows s) locid = Some flow /\
        fetch_token flow (force_https url) = inr credentials /\
        String.prefix "http://" (force_https url) = false /\
        dict_get (active_credentials s') locid = Some credentials /\
        dict_get (credential_store s') locid = Some (to_json credentials) /\
        forall url',
          authenticate fetch_token to_json locid url' s'
          = (s', inl (HTTPException 400
                        ("Authentication failed: "
                         ++ "No pending authentication flow for given locid.")))
  | (s', inl e) =>
      s' = s /\
      exists detail, e = HTTPException 400 ("Authentication failed: " ++ detail)
  end.
Proof.
  unfold authenticate, add_user_credentials.
  destruct (dict_get (pending_flows s) locid) as [flow|] eqn:Hp; simpl.
  - destruct (fetch_token flow (force_https url)) as [e|credentials] eqn:Hf; simpl.
    + split; [reflexivity | eauto].
    + exists flow, credentials.
      split; [reflexivity|]. split; [exact Hf|].
      split; [apply force_https_secure|].
      split; [apply dict_get_set_same|]. split; [apply dict_get_set_same|].
      intros url'. rewrite dict_get_del_same. reflexivity.
  - split; [reflexivity | eauto].
Qed.

Lemma authenticate_honoured_once_witness :
  exists s',
    fst (authenticate demo_fetch demo_to_json "loc-1"
                      "http://api.example/auth/loc-1?code=4" demo_auth) = s' /\
    forall url',
      authenticate demo_fetch demo_to_json "loc-1" url' s'
      = (s', inl (HTTPException 400
                    ("Authentication failed: "
                     ++ "No pending authentication flow for given locid."))).
Proof.
  pose proof (authenticate_honoured_once demo_fetch demo_to_json "loc-1"
                "http://api.example/auth/loc-1?code=4" demo_auth) as H.
  destruct (authenticate demo_fetch demo_to_json "loc-1"
              "http://api.example/auth/loc-1?code=4" demo_auth)
    as [s' [e|m]] eqn:Ha.
  - vm_compute in Ha. discriminate.
  - destruct H as (flow & credentials & _ & _ & _ & _ & _ & Hr).
    exists s'. split; [reflexivity | exact Hr].
Defined.

(** ** The identifier of a login *)

Lemma insert_scope_in x l y : In y (insert_scope x l) <-> y = x \/ In y l.
Proof.
  induction l as [|z r IH]; simpl.
  - split; intros [H|H]; auto; contradiction.
  - destruct (String_as_OT.compare_spec x z) as [He|Hl|Hg]; simpl.
    + change (x = z) in He. subst z. intuition congruence.
    + intuition congruence.
    + rewrite IH. tauto.
Qed.

Lemma scope_lt_trans a b c :
  String_as_OT.lt a b -> String_as_OT.lt b c -> String_as_OT.lt a c.
Proof.
  exact (@RelationClasses.StrictOrder_Transitive _ _ String_as_OT.lt_strorder a b c).
Qed.

Lemma scope_lt_irrefl a : ~ String_as_OT.lt a a.
Proof.
  exact (@RelationClasses.StrictOrder_Irreflexive _ _ String_as_OT.lt_strorder a).
Qed.

Lemma insert_scope_sorted x l :
  StronglySorted String_as_OT.lt l ->
  StronglySorted String_as_OT.lt (insert_scope x l).
Proof.
  induction 1 as [|z r Hs IH Hz]; simpl.
  - constructor; constructor.
  - destruct (String_as_OT.compare_spec x z) as [He|Hl|Hg].
    + constructor; assumption.
    + constructor; [constructor; assumption|].
      constructor; [exact Hl|].
      rewrite Forall_forall in *. intros y Hy.
      exact (scope_lt_trans _ _ _ Hl (Hz y Hy)).
    + constructor; [exact IH|].
      rewrite Forall_forall in *. intros y Hy.
      apply insert_scope_in in Hy. destruct Hy as [->|Hy]; auto.
Qed.

Lemma sorted_set_in scopes y : In y (sorted_set scopes) <-> In y scopes.
Proof.
  induction scopes as [|x r IH]; simpl; [tauto|].
  rewrite insert_scope_in, IH. split; intros [H|H]; auto.
Qed.

Lemma sorted_set_sorted scopes :
  StronglySorted String_as_OT.lt (sorted_set scopes).
Proof.
  induction scopes as [|x r IH]; simpl.
  - constructor.
  - now apply insert_scope_sorted.
Qed.

Lemma strongly_sorted_ext l1 l2 :
  StronglySorted String_as_OT.lt l1 ->
  StronglySorted String_as_OT.lt l2 ->
  (forall x, In x l1 <-> In x l2) ->
  l1 = l2.
Proof.
  intros H1. revert l2.
  induction H1 as [|a r1 Hs1 IH Ha]; intros l2 H2 Hin.
  - destruct l2 as [|b r2]; [reflexivity|].
    exfalso. apply (proj2 (Hin b)). now left.
  - destruct H2 as [|b r2 Hs2 Hb].
    + exfalso. apply (proj1 (Hin a)). now left.
    + rewrite Forall_forall in Ha, Hb.
      assert (Hab : a = b).
      { destruct (proj1 (Hin a) (or_introl eq_refl)) as [He|Hin2]; [now symmetry|].
        destruct (proj2 (Hin b) (or_introl eq_refl)) as [He|Hin1]; [exact He|].
        exfalso.
        exact (scope_lt_irrefl a (scope_lt_trans _ _ _ (Ha b Hin1) (Hb a Hin2))). }
      subst b. f_equal. apply IH; [exact Hs2|].
      intros x. split; intros Hx.
      * destruct (proj1 (Hin x) (or_intror Hx)) as [He|Hx2]; [|exact Hx2].
        subst x. exfalso. exact (scope_lt_irrefl a (Ha a Hx)).
      * destruct (proj2 (Hin x) (or_intror Hx)) as [He|Hx1]; [|exact Hx1].
        subst x. exfalso. exact (scope_lt_irrefl a (Hb a Hx)).
Qed.

(** X20.  The locid of a login depends on the user and on the set of scopes
    only: two requests for the same user whose scope lists have the same
    members, in any order and with any repetition, get the same locid. *)
Theorem compute_locid_canonical digest user_id scopes1 scopes2 :
  (forall scope, In scope scopes1 <-> In scope scopes2) ->
  compute_locid digest user_id scopes1 = compute_locid digest user_id scopes2.
Proof.
  intros H. unfold compute_locid. f_equal.
  apply strongly_sorted_ext; try apply sorted_set_sorted.
  intros x. rewrite !sorted_set_in. apply H.
Qed.

Lemma compute_locid_canonical_witness :
  (forall scope, In scope ["mail"; "drive"; "mail"] <-> In scope ["drive"; "mail"]) /\
  compute_locid demo_digest "USER_ID" ["mail"; "drive"; "mail"] = "USER_ID:drive,mail" /\
  compute_locid demo_digest "USER_ID" ["drive"; "mail"] = "USER_ID:drive,mail".
Proof.
  assert (H : forall scope,
             In scope ["mail"; "drive"; "mail"] <-> In scope ["drive"; "mail"])
    by (intros scope; simpl; tauto).
  split; [exact H|].
  pose proof (compute_locid_canonical demo_digest "USER_ID" _ _ H) as He.
  split; [rewrite He|]; reflexivity.
Defined.

(** ** The mailbox cache *)

Lemma dict_get_not_in {V} (d : dict V) k :
  ~ In k (map fst d) -> dict_get d k = None.
Proof.
  induction d as [|[k' v'] r IH]; simpl; [reflexivity|].
  intros H. destruct (String.eqb k' k) eqn:Hk.
  - apply String.eqb_eq in Hk. subst. exfalso. apply H. now left.
  - apply IH. intros Hin. apply H. now right.
Qed.

Lemma dict_get_update {V} (n d : dict V) k :
  unique_keys n ->
  dict_get (dict_update d n) k
  = match dict_get n k with Some v => Some v | None => dict_get d k end.
Proof.
  unfold dict_update, unique_keys. revert d.
  induction n as [|[k1 v1] r IH]; simpl; intros d Hu; [reflexivity|].
  inversion Hu as [|x l Hnot Hr]; subst.
  rewrite IH by exact Hr.
  destruct (String.eqb k1 k) eqn:Hk.
  - apply String.eqb_eq in Hk. subst k1.
    rewrite (dict_get_not_in r k Hnot). apply dict_get_set_same.
  - destruct (dict_get r k); [reflexivity|].
    apply dict_get_set_other. intros He. subst.
    now rewrite String.eqb_refl in Hk.
Qed.

Lemma by_id_fold_get emails acc k :
  dict_get (fold_left (fun d e => dict_set d (email_id e) e) emails acc) k
  = match find (fun e => String.eqb (email_id e) k) (rev emails) with
    | Some e => Some e
    | None => dict_get acc k
    end.
Proof.
  induction emails as [|e r IH] using rev_ind; [reflexivity|].
  rewrite fold_left_app, rev_unit. simpl.
  destruct (String.eqb (email_id e) k) eqn:Hk.
  - apply String.eqb_eq in Hk. subst k. apply dict_get_set_same.
  - rewrite dict_get_set_other; [exact IH|].
    intros He. subst. now rewrite String.eqb_refl in Hk.
Qed.

Lemma by_id_fold_unique emails acc :
  unique_keys acc ->
  unique_keys (fold_left (fun d e => dict_set d (email_id e) e) emails acc).
Proof.
  revert acc. induction emails as [|e r IH]; simpl; intros acc H; [exact H|].
  apply IH. now apply dict_set_unique.
Qed.

Lemma inbox_of_fresh cache inbox_id :
  inbox_of (if dict_mem cache inbox_id then cache
            else dict_set cache inbox_id []) inbox_id
  = inbox_of cache inbox_id.
Proof.
  unfold dict_mem, inbox_of.
  destruct (dict_get cache inbox_id) eqn:Hg.
  - now rewrite Hg.
  - now rewrite dict_get_set_same.
Qed.

(** X21.  What [get_email] finds after [add_emails_to_cache]: in the inbox
    written to, under an id of the batch, the last email of the batch with
    that id, and it carries that id; under any other id what was there
    before.  The other inboxes are as they were, so a batch never removes
    an email and never touches another mailbox. *)
Theorem add_emails_then_get cache inbox_id emails inbox id :
  get_email (add_emails_to_cache cache inbox_id emails) inbox id
  = (if String.eqb inbox inbox_id then
       match find (fun e => String.eqb (email_id e) id) (rev emails) with
       | Some e => Some e
       | None => get_email cache inbox_id id
       end
     else get_email cache inbox id)
  /\ (forall e, In e emails ->
        exists e', get_email (add_emails_to_cache cache inbox_id emails)
                             inbox_id (email_id e) = Some e'
                   /\ email_id e' = email_id e).
Proof.
  assert (Hsame : forall k,
    get_email (add_emails_to_cache cache inbox_id emails) inbox_id k
    = match find (fun e => String.eqb (email_id e) k) (rev emails) with
      | Some e => Some e
      | None => get_email cache inbox_id k
      end).
  { intros k. unfold get_email, add_emails_to_cache.
    unfold inbox_of at 1. rewrite dict_get_set_same.
    rewrite dict_get_update
      by (unfold by_id; apply by_id_fold_unique; constructor).
    rewrite inbox_of_fresh. unfold by_id. rewrite by_id_fold_get. simpl.
    destruct (find _ (rev emails)); reflexivity. }
  split.
  - destruct (String.eqb inbox inbox_id) eqn:Hi.
    + apply String.eqb_eq in Hi. subst inbox. apply Hsame.
    + unfold get_email, add_emails_to_cache, inbox_of.
      assert (Hne : inbox <> inbox_id)
        by (intros He; subst; now rewrite String.eqb_refl in Hi).
      rewrite dict_get_set_other by exact Hne.
      destruct (dict_mem cache inbox_id); [reflexivity|].
      now rewrite dict_get_set_other by exact Hne.
  - intros e He. rewrite Hsame.
    destruct (find (fun e0 => String.eqb (email_id e0) (email_id e)) (rev emails))
      as [e'|] eqn:Hf.
    + exists e'. split; [reflexivity|].
      apply find_some in Hf. now apply String.eqb_eq.
    + exfalso.
      pose proof (find_none _ _ Hf e (proj1 (in_rev emails e) He)) as Hn.
      simpl in Hn. now rewrite String.eqb_refl in Hn.
Qed.

Lemma add_emails_then_get_witness :
  In demo_email [demo_email] /\
  exists e', get_email (add_emails_to_cache [] "inbox" [demo_email]) "inbox" "m1"
             = Some e'
             /\ email_id e' = "m1".
Proof.
  split; [now left|].
  exact (proj2 (add_emails_then_get [] "inbox" [demo_email] "inbox" "m1")
               demo_email (or_introl eq_refl)).
Defined.

(** ** The description of an email *)

Lemma string_app_assoc (a b c : string) : ((a ++ b) ++ c = a ++ b ++ c)%string.
Proof. induction a as [|x a IH]; simpl; [reflexivity | now rewrite IH]. Qed.

Lemma string_app_nil (a : string) : (a ++ EmptyString = a)%string.
Proof. induction a as [|x a IH]; simpl; [reflexivity | now rewrite IH]. Qed.

Lemma describe_loop_lines summary_of atts i k text :
  describe_loop atts i
    (map (fun ka => summary_of (fst ka) (checksum_text (snd ka)))
         (number k (filter stored atts)))
    text
  = Some (text ++ attachment_lines summary_of i k atts).
Proof.
  revert i k text.
  induction atts as [|att rest IH]; intros i k text;
    cbn [describe_loop attachment_lines filter].
  - cbn [number map]. now rewrite string_app_nil.
  - destruct (stored att) eqn:Hs; cbn [number map fst snd].
    + rewrite IH. f_equal. now rewrite !string_app_assoc.
    + rewrite IH. f_equal. now rewrite !string_app_assoc.
Qed.

(** X22.  [Email.describe] always returns, and its text is the sender and
    date lines, the body, and one line per attachment in the order of the
    email, numbered from 0 over all attachments.  The line of an attachment
    with a checksum shows the result awaited for that attachment's own
    checksum, the line of one without says that it could not be stored: the
    list of awaited results is never found empty and never runs out of
    step with the attachments. *)
Theorem describe_pairs_summaries summary_of e :
  describe summary_of e
  = Some (describe_metadata e ++ "Body: " ++ raw_text e ++ nl
          ++ attachment_lines summary_of 0 0 (attachments e)).
Proof.
  unfold describe. rewrite describe_loop_lines. f_equal.
  now rewrite !string_app_assoc.
Qed.

(** ** The storage client of the email service *)

Lemma upload_file_passes E others a file ep st :
  accepted file = true ->
  upload_file E others a file ep st
  = guarded "File upload failed: "
            (add_file E others a (raw_of_upload file) ep) st.
Proof.
  unfold accepted, upload_file, guarded, try_except, upload_file_body,
    raw_of_upload, supported_mime.
  destruct (content_type file) as [ct|]; simpl; [|discriminate].
  destruct (is_empty ct); simpl; [discriminate|].
  destruct (upload_size file) as [z|]; simpl; [|discriminate].
  destruct (Z.eqb z 0); simpl; [discriminate|].
  destruct (Z.ltb max_upload_size z); simpl; [discriminate|].
  destruct (String.eqb ct "application/pdf"); simpl; [reflexivity|].
  destruct (String.prefix "image/" ct); simpl; [reflexivity | discriminate].
Qed.

Lemma upload_file_refuses E others a file ep st :
  accepted file = false ->
  exists detail,
    upload_file E others a file ep st
    = Raise st (HTTPException 500 ("File upload failed: " ++ detail)).
Proof.
  unfold accepted, upload_file, guarded, try_except, upload_file_body,
    raw_of_upload, supported_mime.
  destruct (content_type file) as [ct|]; simpl; [|eexists; reflexivity].
  destruct (is_empty ct); simpl; [eexists; reflexivity|].
  destruct (upload_size file) as [z|]; simpl; [|eexists; reflexivity].
  destruct (Z.eqb z 0); simpl; [eexists; reflexivity|].
  destruct (Z.ltb max_upload_size z); simpl; [eexists; reflexivity|].
  destruct (String.eqb ct "application/pdf"); simpl; [discriminate|].
  destruct (String.prefix "image/" ct); simpl;
    [discriminate | eexists; reflexivity].
Qed.

Lemma posted_file_accepted data filename mime_type :
  accepted (posted_file data filename mime_type)
  = supported_mime mime_type && negb (is_empty data)
    && (byte_size data <=? max_upload_size)%Z.
Proof.
  unfold accepted, posted_file. simpl.
  rewrite (Z.leb_antisym max_upload_size (byte_size data)).
  destruct mime_type as [|m0 mime].
  { change (is_empty EmptyString) with true. cbv iota.
    change (supported_mime "application/octet-stream") with false.
    change (supported_mime EmptyString) with false.
    now rewrite andb_false_r. }
  simpl is_empty. cbv iota.
  change (truthy_str (Some (String m0 mime))) with true.
  assert (Hd : (byte_size data =? 0)%Z = is_empty data).
  { destruct data; reflexivity. }
  rewrite Hd.
  destruct (supported_mime (String m0 mime)), (negb (is_empty data)),
    (negb (max_upload_size <? byte_size data)%Z); reflexivity.
Qed.

(** X23.  [ensure_storage] of the email service against the endpoints of
    the storage service.  Bytes whose checksum the S3 cache knows are not
    sent again and the service is left as it is.  Unknown bytes are handed
    to [add_file] of the S3 adapter, at the level [summary], exactly when
    their MIME type is [application/pdf] or starts with [image/], and they
    are neither empty nor longer than 5 MiB; the client returns when
    [add_file] does and raises [RuntimeError] when it does not.  Every
    other attachment, one without a MIME type among them, makes the client
    raise [RuntimeError] and changes nothing in the service. *)
Theorem ensure_storage_outcomes E others data filename mime_type st :
  let failed := "Failed to upload file to storage service." in
  let name := if is_empty filename then "uploaded_file" else filename in
  if dict_mem (file_cache st) (sha3_256 E data) then
    ensure_storage E others data filename mime_type st = (st, inr tt)
  else if supported_mime mime_type && negb (is_empty data)
          && (byte_size data <=? max_upload_size)%Z then
    match add_file E others S3 (mkRaw data name mime_type) P_summary st with
    | Ok st' _ =>
        ensure_storage E others data filename mime_type st = (st', inr tt)
    | Raise st' _ | Blocked st' =>
        ensure_storage E others data filename mime_type st = (st', inl failed)
    end
  else ensure_storage E others data filename mime_type st = (st, inl failed).
Proof.
  intros failed name. unfold ensure_storage.
  assert (Hx : Api.file_exists S3 (sha3_256 E data) st
               = Ok st (dict_mem (file_cache st) (sha3_256 E data)))
    by reflexivity.
  rewrite Hx.
  destruct (dict_mem (file_cache st) (sha3_256 E data)); [reflexivity|].
  rewrite <- posted_file_accepted with (filename := filename).
  destruct (accepted (posted_file data filename mime_type)) eqn:Ha.
  - rewrite (upload_file_passes _ _ _ _ _ _ Ha).
    assert (Hr : raw_of_upload (posted_file data filename mime_type)
                 = mkRaw data name mime_type).
    { rewrite posted_file_accepted in Ha.
      unfold raw_of_upload, posted_file, name. simpl.
      destruct mime_type; [discriminate | reflexivity]. }
    rewrite Hr. unfold guarded, try_except.
    destruct (add_file E others S3 (mkRaw data name mime_type) P_summary st);
      reflexivity.
  - destruct (upload_file_refuses E others S3 _ P_summary st Ha) as [detail ->].
    reflexivity.
Qed.
